(** * LiveCodeGit: the execution-watcher framework

    A shallow embedding of the Go packages [pkg/watchers] (manager, config
    manager, service), [pkg/watchers/common], [pkg/watchers/sonicpi] and
    [pkg/watchers/tidal], followed by the properties proved about them.

    Conventions.
    - A Go [string] is a byte sequence: [string] of the Standard Library,
      whose characters are the 256 [ascii] values.
    - [time.Time] is an instant, an integer count of nanoseconds from the
      zero time; [t.After(u)] is [u < t].
    - [int64] is [Z] with its wrap-around written out ([int64_wrap]).
    - [error] is the message; [nil] is [None].
    - A Go map is a [gmap]; where the code ranges over one, the order of
      the visit is an explicit argument, any permutation of the entries.
    - Pointers to watchers are locations in a store of objects. *)

From Stdlib Require Import ZArith Floats Ascii String DecimalString.
From stdpp Require Import gmap strings fin_maps functions list.

Local Open Scope string_scope.
Local Open Scope list_scope.
Local Open Scope Z_scope.

(** ** Go basics *)

Definition error := string.
Definition Time := Z.

Definition After (t u : Time) : bool := u <? t.

Definition int64_wrap (z : Z) : Z :=
  (z + 2 ^ 63) mod 2 ^ 64 - 2 ^ 63.

Definition int64_range (z : Z) : Prop := - 2 ^ 63 <= z < 2 ^ 63.

(** [x++] on an [int64]. *)
Definition int64_incr (z : Z) : Z := int64_wrap (z + 1).

(** A Go result [(v, err)] with [err == nil], or the error. *)
Inductive result (A : Type) :=
| Ok (v : A)
| Err (e : error).
Arguments Ok {A} v.
Arguments Err {A} e.

Definition newline : string := String (ascii_of_nat 10) "".
Definition dquote : string := String (ascii_of_nat 34) "".

(** [strconv.Itoa], also the verb [%d] of [fmt]. *)
Definition Itoa (z : Z) : string :=
  DecimalString.NilZero.string_of_int (Z.to_int z).

(** [fmt.Errorf] with a message and the verb [%w] (or [%v]) at its end. *)
Definition wrap_error (msg : string) (e : error) : error := msg +:+ e.

(** A function value of type [func(ExecutionEvent)]; the nil function is
    [None] in a field of type [option Callback]. *)
Inductive Callback := Func (id : positive).

#[global] Instance Callback_eq_dec : EqDecision Callback.
Proof. solve_decision. Defined.

(** ** Package strings (the functions the watchers use) *)

Module Strings.

Fixpoint HasPrefix (s p : string) {struct p} : bool :=
  match p, s with
  | EmptyString, _ => true
  | String a p', String b s' => if Ascii.eqb a b then HasPrefix s' p' else false
  | String _ _, EmptyString => false
  end.

Fixpoint Contains (s sub : string) : bool :=
  if HasPrefix s sub then true
  else match s with
       | EmptyString => false
       | String _ s' => Contains s' sub
       end.

(** The declarative reading of [Contains]. *)
Definition substring (sub s : string) : Prop :=
  exists pre post, s = pre +:+ sub +:+ post.

End Strings.

(** ** Package regexp: the character classes of the patterns in use *)

Module Regexp.

Definition code (c : ascii) : nat := nat_of_ascii c.

(** [\d] *)
Definition is_digit (c : ascii) : bool :=
  (48 <=? code c)%nat && (code c <=? 57)%nat.

(** [\w]: [0-9A-Za-z_] *)
Definition is_word (c : ascii) : bool :=
  is_digit c
  || ((65 <=? code c)%nat && (code c <=? 90)%nat)
  || ((97 <=? code c)%nat && (code c <=? 122)%nat)
  || (code c =? 95)%nat.

(** The longest prefix of digits, and what follows it. *)
Fixpoint span_digits (s : string) : string * string :=
  match s with
  | EmptyString => (EmptyString, EmptyString)
  | String c s' =>
      if is_digit c
      then let (ds, tl) := span_digits s' in (String c ds, tl)
      else (EmptyString, s)
  end.

Fixpoint all_digits (s : string) : bool :=
  match s with
  | EmptyString => true
  | String c s' => is_digit c && all_digits s'
  end.

(** [\b] or [$] seen from the left: the text that follows does not
    start with a word character. *)
Definition starts_nonword (s : string) : bool :=
  match s with
  | EmptyString => true
  | String c _ => negb (is_word c)
  end.

(** [\b] or [^] seen from the right: the text before does not end with
    a word character. *)
Fixpoint ends_nonword (s : string) : bool :=
  match s with
  | EmptyString => true
  | String c EmptyString => negb (is_word c)
  | String _ s' => ends_nonword s'
  end.

End Regexp.

(** ** Library functions taken as given

    Functions of the Go standard library whose results the watchers store
    or pass on without the properties below depending on them. *)

Record GoLib := {
  (** [strings.TrimSpace] *)
  TrimSpace : string -> string;
  (** [regexp.MustCompile(pattern).FindStringSubmatch(text)] *)
  FindStringSubmatch : string -> string -> list string;
  (** [strconv.ParseFloat(s, 64)], [None] on error *)
  ParseFloat : string -> option float;
  (** [strings.Split] *)
  Split : string -> string -> list string;
  (** [d.Seconds()] of a duration in nanoseconds *)
  Seconds : Z -> float;
  (** the conversion [int64(f)] *)
  int64_of_float : float -> Z;
  (** [fmt.Sprintf] with the verb [%.4f] *)
  format_float4 : float -> string;
  (** [t.Format] with the layout [15:04:05] *)
  format_clock : Time -> string;
  (** [d.String()] of a duration *)
  format_duration : Z -> string
}.

(** ** Package common *)

Module WatcherConfig.
Record t := mk {
  Language : string;
  Environment : string;
  Enabled : bool;
  Options : gmap string string
}.

Definition set_Enabled (b : bool) (c : t) : t :=
  mk (Language c) (Environment c) b (Options c).

Definition set_Options (o : gmap string string) (c : t) : t :=
  mk (Language c) (Environment c) (Enabled c) o.

(** [c.Options[k] = v]. *)
Definition write_option (k v : string) (c : t) : t :=
  set_Options (<[k := v]> (Options c)) c.
End WatcherConfig.

(** [m[k]] on a [map[string]string]: the zero value when the key is absent. *)
Definition map_index (m : gmap string string) (k : string) : string :=
  default "" (m !! k).

Module ExecutionMetadata.
Record t := mk {
  Buffer : string;
  Language : string;
  BPM : float;
  BeatsFromStart : Z;
  Success : bool;
  ErrorMessage : string;
  Environment : string
}.
End ExecutionMetadata.

Module ExecutionEvent.
Record t := mk {
  Timestamp : Time;
  Content : string;
  Buffer : string;
  Language : string;
  Environment : string;
  Success : bool;
  ErrorMessage : string;
  BPM : float;
  BeatsFromStart : Z;
  FilePath : string;
  LineNumber : Z;
  ProcessID : Z;
  ExtraData : gmap string string
}.

Definition ToExecutionMetadata (event : t) : ExecutionMetadata.t :=
  ExecutionMetadata.mk (Buffer event) (Language event) (BPM event)
    (BeatsFromStart event) (Success event) (ErrorMessage event)
    (Environment event).
End ExecutionEvent.

(** One invocation of a callback: which function, on which event. *)
Definition Emitted : Type := Callback * ExecutionEvent.t.

(** [if w.callback != nil { w.callback(event) }] *)
Definition invoke (cb : option Callback) (event : ExecutionEvent.t) : list Emitted :=
  match cb with
  | Some f => [(f, event)]
  | None => []
  end.

(** The interface [ExecutionWatcher]. A method runs on the receiver [W]
    and on the state [E] of what lies outside the program (sockets, files,
    processes); [IsRunning] and [GetConfig] only read the receiver. *)
Class ExecutionWatcher (W E : Type) := {
  Start : option Callback -> W -> E -> W * E * option error;
  Stop : W -> E -> W * E * option error;
  IsRunning : W -> bool;
  GetConfig : W -> WatcherConfig.t;
  GetLanguage : W -> string;
  GetEnvironment : W -> string
}.

(** ** The world outside the program

    The handles the watchers hold, and the calls they make to the
    operating system. A call takes the state [E] of the world and gives
    its answer with the state afterwards. *)

(** [*net.UDPConn] *)
Inductive UDPConn := udp (fd : positive).

(** One end of a pipe to a subprocess. *)
Inductive Pipe := pipe (fd : positive).

(** One call of the function given to [filepath.WalkDir]: the path, the
    error handed in, the result of [d.Info()] reduced to the modification
    time, and what [os.ReadFile] gives for the path. *)
Record Visit := mkVisit {
  path : string;
  walk_err : option error;
  info : result Time;
  read : result string
}.

Record Outside (E : Type) := {
  (** [time.Now()] *)
  time_Now : E -> Time * E;
  (** [os.IsNotExist] of the error of [os.Stat(path)] *)
  Stat_IsNotExist : string -> E -> bool * E;
  (** the visits of [filepath.WalkDir(root, fn)], in order *)
  WalkDir : string -> E -> list Visit * E;
  (** the error of [net.ResolveUDPAddr("udp", addr)], if any *)
  ResolveUDPAddr : string -> E -> option error * E;
  (** [net.ListenUDP] on the port *)
  ListenUDP : Z -> E -> result UDPConn * E;
  (** [conn.Close()] *)
  Close : UDPConn -> E -> option error * E;
  (** [cmd.StdinPipe()], [cmd.StdoutPipe()], [cmd.StderrPipe()] for the
      command of that name *)
  StdinPipe : string -> E -> result Pipe * E;
  StdoutPipe : string -> E -> result Pipe * E;
  StderrPipe : string -> E -> result Pipe * E;
  (** [cmd.Start()]: the process id, or the error *)
  CmdStart : string -> E -> result Z * E
}.
Arguments time_Now {E}.
Arguments Stat_IsNotExist {E}.
Arguments WalkDir {E}.
Arguments ResolveUDPAddr {E}.
Arguments ListenUDP {E}.
Arguments Close {E}.
Arguments StdinPipe {E}.
Arguments StdoutPipe {E}.
Arguments StderrPipe {E}.
Arguments CmdStart {E}.

(** ** Package tidal: the GHCi watcher *)

Module Tidal.
Import Regexp.

(** The first match of [connectionRegex], the pattern [\b(d\d+)\b], at
    the head of [s]; the boundary on the left is the caller's. After the
    letter the digits are taken greedily, and giving one back never
    helps: the boundary on the right would stand between two digits. *)
Definition match_connection_here (s : string) : option string :=
  match s with
  | EmptyString => None
  | String c rest =>
      if Ascii.eqb c "d" then
        let (ds, tl) := span_digits rest in
        match ds with
        | EmptyString => None
        | String _ _ => if starts_nonword tl then Some (String c ds) else None
        end
      else None
  end.

(** Leftmost match; [prev_word] tells whether the character before [s]
    is a word character. *)
Fixpoint find_connection (prev_word : bool) (s : string) : option string :=
  match s with
  | EmptyString => None
  | String c rest =>
      match (if prev_word then None else match_connection_here s) with
      | Some m => Some m
      | None => find_connection (is_word c) rest
      end
  end.

(** [connectionRegex.FindStringSubmatch(content)]: the whole match and
    its one group, or nothing. *)
Definition connection_submatch (content : string) : list string :=
  match find_connection false content with
  | Some m => [m; m]
  | None => []
  end.

Definition extractConnection (content : string) : string :=
  let matches := connection_submatch content in
  if (1 <? length matches)%nat then nth 1 matches ""
  else if Strings.Contains content "hush" then "all"
  else "unknown".

(** A numbered-pattern marker, in the words of the specification: the
    letter [d] and one or more digits, standing as a word of its own. *)
Definition marker_at (pre ds post : string) : Prop :=
  ds <> "" /\ all_digits ds = true /\
  ends_nonword pre = true /\ starts_nonword post = true.

Definition has_marker (s : string) : Prop :=
  exists pre ds post, s = pre +:+ String "d" ds +:+ post /\ marker_at pre ds post.

End Tidal.

Module GHCiWatcher.
Import Tidal.

(** [*exec.Cmd]: the command, the process once started, and whether it
    has been killed and waited for. *)
Record Cmd := mkCmd {
  Path : string;
  Process : option Z;
  Killed : bool
}.

(** [*bufio.Writer] on the standard input: the pipe and what was sent. *)
Record Writer := mkWriter {
  wr_pipe : Pipe;
  wr_sent : list string
}.

Record t := mk {
  config : WatcherConfig.t;
  running : bool;
  callback : option Callback;
  cmd : option Cmd;
  stdin : option Writer;
  stdout : option Pipe;
  stderr : option Pipe;
  currentCPS : float;
  startTime : Time;
  connections : gmap string string;
  lastPatterns : gmap string string
}.

Definition set_config (c : WatcherConfig.t) (w : t) : t :=
  mk c (running w) (callback w) (cmd w) (stdin w) (stdout w) (stderr w)
     (currentCPS w) (startTime w) (connections w) (lastPatterns w).

Definition set_running (b : bool) (w : t) : t :=
  mk (config w) b (callback w) (cmd w) (stdin w) (stdout w) (stderr w)
     (currentCPS w) (startTime w) (connections w) (lastPatterns w).

Definition set_callback (cb : option Callback) (w : t) : t :=
  mk (config w) (running w) cb (cmd w) (stdin w) (stdout w) (stderr w)
     (currentCPS w) (startTime w) (connections w) (lastPatterns w).

Definition set_cmd (c : option Cmd) (w : t) : t :=
  mk (config w) (running w) (callback w) c (stdin w) (stdout w) (stderr w)
     (currentCPS w) (startTime w) (connections w) (lastPatterns w).

Definition set_pipes (i : Writer) (o e : Pipe) (w : t) : t :=
  mk (config w) (running w) (callback w) (cmd w) (Some i) (Some o) (Some e)
     (currentCPS w) (startTime w) (connections w) (lastPatterns w).

Definition set_stdin (i : option Writer) (w : t) : t :=
  mk (config w) (running w) (callback w) (cmd w) i (stdout w) (stderr w)
     (currentCPS w) (startTime w) (connections w) (lastPatterns w).

Definition set_currentCPS (c : float) (w : t) : t :=
  mk (config w) (running w) (callback w) (cmd w) (stdin w) (stdout w) (stderr w)
     c (startTime w) (connections w) (lastPatterns w).

Definition set_startTime (n : Time) (w : t) : t :=
  mk (config w) (running w) (callback w) (cmd w) (stdin w) (stdout w) (stderr w)
     (currentCPS w) n (connections w) (lastPatterns w).

Definition set_lastPatterns (p : gmap string string) (w : t) : t :=
  mk (config w) (running w) (callback w) (cmd w) (stdin w) (stdout w) (stderr w)
     (currentCPS w) (startTime w) (connections w) p.

Definition NewGHCiWatcher : t :=
  mk (WatcherConfig.mk "tidal" "tidal-cycles" true
        (<["ghci_command" := "ghci"]> (<["boot_file" := "BootTidal.hs"]> ∅)))
     false None None None None None
     0.5625%float 0 ∅ ∅.

Section WithOutside.
Context {E : Type} (out : Outside E).

Definition Start (cb : option Callback) (w : t) (e : E)
  : t * E * option error :=
  if running w then (w, e, Some "GHCi watcher is already running")
  else
    let '(now, e) := time_Now out e in
    let ghciCmd := map_index (WatcherConfig.Options (config w)) "ghci_command" in
    let w := set_cmd (Some (mkCmd ghciCmd None false))
               (set_startTime now (set_callback cb w)) in
    let '(rin, e) := StdinPipe out ghciCmd e in
    match rin with
    | Err err => (w, e, Some (wrap_error "failed to create stdin pipe: " err))
    | Ok pin =>
      let '(rout, e) := StdoutPipe out ghciCmd e in
      match rout with
      | Err err => (w, e, Some (wrap_error "failed to create stdout pipe: " err))
      | Ok pout =>
        let '(rerr, e) := StderrPipe out ghciCmd e in
        match rerr with
        | Err err => (w, e, Some (wrap_error "failed to create stderr pipe: " err))
        | Ok perr =>
          let w := set_pipes (mkWriter pin []) pout perr w in
          let '(rstart, e) := CmdStart out ghciCmd e in
          match rstart with
          | Err err => (w, e, Some (wrap_error "failed to start GHCi: " err))
          | Ok pid =>
              (set_running true
                 (set_cmd (Some (mkCmd ghciCmd (Some pid) false)) w), e, None)
          end
        end
      end
    end.

End WithOutside.

Definition write (text : string) (i : option Writer) : option Writer :=
  match i with
  | Some wr => Some (mkWriter (wr_pipe wr) (wr_sent wr ++ [text]))
  | None => None
  end.

Definition kill (c : option Cmd) : option Cmd :=
  match c with
  | Some c' =>
      match Process c' with
      | Some _ => Some (mkCmd (Path c') (Process c') true)
      | None => c
      end
  | None => None
  end.

Definition Stop (w : t) : t * option error :=
  if negb (running w) then (w, None)
  else
    let w := set_running false w in
    let w := set_stdin (write (":quit" +:+ newline) (stdin w)) w in
    (set_cmd (kill (cmd w)) w, None).

Definition IsRunning (w : t) : bool := running w.
Definition GetConfig (w : t) : WatcherConfig.t := config w.
Definition GetLanguage (w : t) : string := "tidal".
Definition GetEnvironment (w : t) : string := "tidal-cycles".

(** [sendCommand]; [io] is the error of the write or of the flush. *)
Definition sendCommand (io : option error) (command : string) (w : t)
  : t * option error :=
  match stdin w with
  | None => (w, Some "GHCi stdin not available")
  | Some _ =>
      (set_stdin (write (command +:+ newline) (stdin w)) w, io)
  end.

Definition initCommands : list string :=
  [ ":set -XOverloadedStrings";
    ":set prompt " +:+ dquote +:+ "tidal> " +:+ dquote;
    "import Sound.Tidal.Context";
    "(cps, nudger, d1, d2, d3, d4, d5, d6, d7, d8, d9) <- dirtStream";
    "let bps x = cps (x/4)";
    "let hush = mapM_ ($ silence) [d1,d2,d3,d4,d5,d6,d7,d8,d9]" ].

(** [initializeTidal]: the errors of [sendCommand] are dropped. *)
Definition initializeTidal (ios : list (option error)) (w : t) : t :=
  fold_left (fun w ci => fst (sendCommand (default None (ios !! fst ci)) (snd ci) w))
            (imap (fun i c => (i, c)) initCommands) w.

Definition isPatternEvaluation (line : string) : bool :=
  existsb (Strings.Contains line)
    [ "d1 $"; "d2 $"; "d3 $"; "d4 $"; "d5 $"; "d6 $"; "d7 $"; "d8 $"; "d9 $";
      "hush"; "silence" ].

Definition isCPSChange (line : string) : bool :=
  Strings.Contains line "cps" || Strings.Contains line "bps".

Section WithLibrary.
Variable lib : GoLib.

Definition cpsRegex : string := "(?:cps|bps)\s*\(?\s*(\d+(?:\.\d+)?)\s*\)?".

Definition updateCPS (line : string) (w : t) : t :=
  let matches := FindStringSubmatch lib cpsRegex line in
  if (1 <? length matches)%nat then
    match ParseFloat lib (nth 1 matches "") with
    | Some cps =>
        let cps := if Strings.Contains line "bps" then (cps / 4)%float else cps in
        set_currentCPS cps w
    | None => w
    end
  else w.

Definition calculateCyclesFromStart (timestamp : Time) (w : t) : float :=
  (Seconds lib (timestamp - startTime w) * currentCPS w)%float.

Definition createPatternExecutionEvent (now : Time) (content : string)
    (success : bool) (errorMessage : string) (w : t)
  : t * ExecutionEvent.t :=
  let connection := extractConnection content in
  let cyclesFromStart := calculateCyclesFromStart now w in
  let w' := if success && negb (String.eqb connection "")
            then set_lastPatterns (<[connection := content]> (lastPatterns w)) w
            else w in
  (w',
   ExecutionEvent.mk now content connection "tidal" "tidal-cycles"
     success errorMessage
     (currentCPS w * 60)%float
     (int64_of_float lib (cyclesFromStart * 4)%float)
     "" 0 0
     (<["connection" := connection]>
        (<["cps" := format_float4 lib (currentCPS w)]> ∅))).

Definition processOutputLine (now : Time) (line : string) (w : t)
  : t * list Emitted :=
  let line := TrimSpace lib line in
  if String.eqb line "" || Strings.HasPrefix line "tidal>" then (w, [])
  else
    let '(w, out) :=
      if isPatternEvaluation line then
        let '(w', event) := createPatternExecutionEvent now line true "" w in
        (w', invoke (callback w') event)
      else (w, []) in
    (if isCPSChange line then updateCPS line w else w, out).

Definition processErrorLine (now : Time) (line : string) (w : t)
  : t * list Emitted :=
  let line := TrimSpace lib line in
  if String.eqb line "" then (w, [])
  else
    let '(w', event) := createPatternExecutionEvent now line false line w in
    (w', invoke (callback w') event).

End WithLibrary.

Definition ExecutePattern (io : option error) (pattern : string) (w : t)
  : t * option error :=
  if negb (IsRunning w) then (w, Some "watcher is not running")
  else sendCommand io pattern w.

Definition GetActivePatterns (w : t) : gmap string string := lastPatterns w.

Definition Hush (io : option error) (w : t) : t * option error :=
  ExecutePattern io "hush" w.

End GHCiWatcher.

(** ** Package sonicpi: the workspace file watcher *)

Module Filepath.
Import Regexp.

Definition slash : ascii := ascii_of_nat 47.
Definition dot : ascii := ascii_of_nat 46.

Fixpoint drop_slashes (r : list ascii) : list ascii :=
  match r with
  | c :: r' => if Ascii.eqb c slash then drop_slashes r' else r
  | [] => []
  end.

Fixpoint take_element (r : list ascii) : list ascii :=
  match r with
  | c :: r' => if Ascii.eqb c slash then [] else c :: take_element r'
  | [] => []
  end.

(** [filepath.Base] with [/] as the separator; the work is done on the
    reversed path. *)
Definition Base (path : string) : string :=
  match path with
  | EmptyString => "."
  | _ =>
      match drop_slashes (rev (list_ascii_of_string path)) with
      | [] => "/"
      | r => string_of_list_ascii (rev (take_element r))
      end
  end.

(** [filepath.Ext]: from the last dot of the last element on. *)
Fixpoint ext_rev (r acc : list ascii) : list ascii :=
  match r with
  | c :: r' =>
      if Ascii.eqb c slash then []
      else if Ascii.eqb c dot then c :: acc
      else ext_rev r' (c :: acc)
  | [] => []
  end.

Definition Ext (path : string) : string :=
  string_of_list_ascii (ext_rev (rev (list_ascii_of_string path)) []).

Fixpoint HasSuffix_rev (r suffix_rev : list ascii) : bool :=
  match suffix_rev, r with
  | [], _ => true
  | a :: p, b :: r' => Ascii.eqb a b && HasSuffix_rev r' p
  | _ :: _, [] => false
  end.

Definition HasSuffix (s suffix : string) : bool :=
  HasSuffix_rev (rev (list_ascii_of_string s))
                (rev (list_ascii_of_string suffix)).

(** A match of [^prefix\d+$]. *)
Fixpoint numbered (prefix name : string) : bool :=
  match prefix, name with
  | EmptyString, String _ _ => all_digits name
  | EmptyString, EmptyString => false
  | String a p, String b n => Ascii.eqb a b && numbered p n
  | String _ _, EmptyString => false
  end.

End Filepath.

Module FileWatcher.
Import Filepath.

(** [chan struct{}] used as a stop signal. *)
Inductive Chan := Open | Closed.

Record t := mk {
  config : WatcherConfig.t;
  workspacePath : string;
  running : bool;
  callback : option Callback;
  lastModified : gmap string Time;
  stopChan : option Chan;
  pollInterval : Z
}.

Definition set_config (c : WatcherConfig.t) (w : t) : t :=
  mk c (workspacePath w) (running w) (callback w) (lastModified w)
     (stopChan w) (pollInterval w).

Definition set_lastModified (m : gmap string Time) (w : t) : t :=
  mk (config w) (workspacePath w) (running w) (callback w) m
     (stopChan w) (pollInterval w).

Definition Second : Z := 1000000000.

Definition NewFileWatcher (workspacePath : string) : t :=
  mk (WatcherConfig.mk "sonicpi" "sonic-pi-files" true
        (<["workspace_path" := workspacePath]> (<["poll_interval" := "1s"]> ∅)))
     workspacePath false None ∅ None (1 * Second).

Definition isSonicPiFile (path : string) : bool :=
  let name := Base path in
  numbered "workspace_" name
  || numbered "buffer_" name
  || HasSuffix name ".rb"
  || HasSuffix name ".sonic".

Definition scan_visit (w : t) (v : Visit) : t :=
  match walk_err v with
  | Some _ => w
  | None =>
      if isSonicPiFile (path v) then
        match info v with
        | Ok modTime => set_lastModified (<[path v := modTime]> (lastModified w)) w
        | Err _ => w
        end
      else w
  end.

(** [scanWorkspaceFiles]; [walk] is what [WalkDir] visits, in order. *)
Definition scanWorkspaceFiles (walk : list Visit) (w : t) : t :=
  fold_left scan_visit walk w.

Definition extractBufferName (fileName : string) : string :=
  if numbered "workspace_" fileName then fileName
  else if numbered "buffer_" fileName then fileName
  else if String.eqb (Ext fileName) ".rb"
       then String.substring 0 (String.length fileName - 3) fileName
  else fileName.

Definition createExecutionEvent (filePath : string) (modTime : Time)
    (read : result string) : ExecutionEvent.t :=
  let '(contentStr, success, errorMessage) :=
    match read with
    | Err e => ("# Error reading file: " +:+ filePath, false,
                "Failed to read file: " +:+ e)
    | Ok content => (content, true, "")
    end in
  let fileName := Base filePath in
  let buffer := extractBufferName fileName in
  ExecutionEvent.mk modTime contentStr buffer "sonicpi" "sonic-pi-files"
    success errorMessage 0%float 0 filePath 0 0
    (<["file_name" := fileName]> (<["trigger_type" := "file_change"]> ∅)).

Definition check_visit (w : t) (v : Visit) : t * list Emitted :=
  match walk_err v with
  | Some _ => (w, [])
  | None =>
      if negb (isSonicPiFile (path v)) then (w, [])
      else
        match info v with
        | Err _ => (w, [])
        | Ok currentModTime =>
            match lastModified w !! path v with
            | None =>
                (set_lastModified (<[path v := currentModTime]> (lastModified w)) w, [])
            | Some lastModTime =>
                if After currentModTime lastModTime then
                  let w' := set_lastModified
                              (<[path v := currentModTime]> (lastModified w)) w in
                  let event := createExecutionEvent (path v) currentModTime (read v) in
                  (w', invoke (callback w') event)
                else (w, [])
            end
        end
  end.

(** [checkForChanges]: one tick of the poller. The events are listed in
    the order the callback receives them. *)
Fixpoint checkForChanges (walk : list Visit) (w : t) : t * list Emitted :=
  match walk with
  | [] => (w, [])
  | v :: walk' =>
      let '(w1, out1) := check_visit w v in
      let '(w2, out2) := checkForChanges walk' w1 in
      (w2, out1 ++ out2)
  end.

Section WithOutside.
Context {E : Type} (out : Outside E).

Definition Start (cb : option Callback) (w : t) (e : E)
  : t * E * option error :=
  if running w then (w, e, Some "file watcher is already running")
  else
    let '(notExist, e) := Stat_IsNotExist out (workspacePath w) e in
    if notExist then
      (w, e, Some ("workspace path does not exist: " +:+ workspacePath w))
    else
      let w := mk (config w) (workspacePath w) true cb (lastModified w)
                  (Some Open) (pollInterval w) in
      let '(walk, e) := WalkDir out (workspacePath w) e in
      (scanWorkspaceFiles walk w, e, None).

(** One tick of [monitorFiles]. *)
Definition tick (w : t) (e : E) : t * E * list Emitted :=
  let '(walk, e) := WalkDir out (workspacePath w) e in
  let '(w, emitted) := checkForChanges walk w in
  (w, e, emitted).

End WithOutside.

Definition Stop (w : t) : t * option error :=
  if negb (running w) then (w, None)
  else (mk (config w) (workspacePath w) false (callback w) (lastModified w)
           (Some Closed) (pollInterval w), None).

Definition IsRunning (w : t) : bool := running w.
Definition GetConfig (w : t) : WatcherConfig.t := config w.
Definition GetLanguage (w : t) : string := "sonicpi".
Definition GetEnvironment (w : t) : string := "sonic-pi-files".

(** [monitorFiles] between two looks at the stop channel: the ticks that
    fired, each with the walk it saw. *)
Fixpoint monitorFiles (ticks : list (list Visit)) (w : t) : t * list Emitted :=
  match ticks with
  | [] => (w, [])
  | walk :: ticks' =>
      let '(w1, out1) := checkForChanges walk w in
      let '(w2, out2) := monitorFiles ticks' w1 in
      (w2, out1 ++ out2)
  end.

(** The visits that come without an error. [WalkDir] hands each path to
    the function once without an error; a directory that it then fails
    to read comes a second time, with the error, and is skipped. *)
Definition heeded (walk : list Visit) : list Visit :=
  filter (fun v => walk_err v = None) walk.

Definition visits_once (walk : list Visit) : Prop :=
  NoDup (path <$> heeded walk).

(** An emitted event is about the file at [p]. *)
Definition about (p : string) (ce : Emitted) : Prop :=
  ExecutionEvent.FilePath ce.2 = p.

(** Only relevant files are recorded. *)
Definition known_relevant (w : t) : Prop :=
  forall p t0, lastModified w !! p = Some t0 -> isSonicPiFile p = true.

Definition SetPollInterval (lib : GoLib) (interval : Z) (w : t) : t :=
  mk (WatcherConfig.set_Options
        (<["poll_interval" := format_duration lib interval]>
           (WatcherConfig.Options (config w))) (config w))
     (workspacePath w) (running w) (callback w) (lastModified w)
     (stopChan w) interval.

End FileWatcher.

#[global] Instance about_dec p ce : Decision (FileWatcher.about p ce).
Proof. unfold FileWatcher.about. apply _. Defined.

#[global] Instance visits_once_dec walk : Decision (FileWatcher.visits_once walk).
Proof. unfold FileWatcher.visits_once. apply _. Defined.

(** ** Package sonicpi: the OSC watcher *)

Module OSCWatcher.

Record t := mk {
  config : WatcherConfig.t;
  conn : option UDPConn;
  running : bool;
  callback : option Callback;
  oscPort : Z;
  workspacePath : string;
  currentBPM : float;
  startTime : Time
}.

Definition set_config (c : WatcherConfig.t) (w : t) : t :=
  mk c (conn w) (running w) (callback w) (oscPort w)
     (workspacePath w) (currentBPM w) (startTime w).

Definition set_currentBPM (b : float) (w : t) : t :=
  mk (config w) (conn w) (running w) (callback w) (oscPort w)
     (workspacePath w) b (startTime w).

Definition NewOSCWatcher (port : Z) (workspacePath : string) : t :=
  mk (WatcherConfig.mk "sonicpi" "sonic-pi" true
        (<["osc_port" := Itoa port]> (<["workspace_path" := workspacePath]> ∅)))
     None false None port workspacePath 120%float 0.

Section WithOutside.
Context {E : Type} (out : Outside E).

Definition Start (cb : option Callback) (w : t) (e : E)
  : t * E * option error :=
  if running w then (w, e, Some "watcher is already running")
  else
    let '(now, e) := time_Now out e in
    let w := mk (config w) (conn w) (running w) cb (oscPort w)
                (workspacePath w) (currentBPM w) now in
    let '(r, e) := ResolveUDPAddr out (":" +:+ Itoa (oscPort w)) e in
    match r with
    | Some err => (w, e, Some (wrap_error "failed to resolve UDP address: " err))
    | None =>
        let '(r, e) := ListenUDP out (oscPort w) e in
        match r with
        | Err err =>
            (w, e, Some (wrap_error
                           ("failed to listen on UDP port " +:+ Itoa (oscPort w) +:+ ": ")
                           err))
        | Ok c =>
            (mk (config w) (Some c) true (callback w) (oscPort w)
                (workspacePath w) (currentBPM w) (startTime w), e, None)
        end
    end.

Definition Stop (w : t) (e : E) : t * E * option error :=
  if negb (running w) then (w, e, None)
  else
    let w := mk (config w) (conn w) false (callback w) (oscPort w)
                (workspacePath w) (currentBPM w) (startTime w) in
    match conn w with
    | Some c => let '(r, e) := Close out c e in (w, e, r)
    | None => (w, e, None)
    end.

End WithOutside.

Definition IsRunning (w : t) : bool := running w.
Definition GetConfig (w : t) : WatcherConfig.t := config w.
Definition GetLanguage (w : t) : string := "sonicpi".
Definition GetEnvironment (w : t) : string := "sonic-pi".

Definition isExecutionMessage (message : string) : bool :=
  existsb (Strings.Contains message)
    [ "/run-code"; "/stop-all"; "/start-recording"; "/buffer-update" ].

Definition isBPMMessage (message : string) : bool :=
  Strings.Contains message "/bpm" || Strings.Contains message "use_bpm".

Section WithLibrary.
Variable lib : GoLib.

Definition bpmRegex : string := "(?:bpm|BPM)[\s:=]*(\d+(?:\.\d+)?)".
Definition bufferRegex : string := "buffer[:\s]+(\w+)".

Definition updateBPM (message : string) (w : t) : t :=
  let matches := FindStringSubmatch lib bpmRegex message in
  if (1 <? length matches)%nat then
    match ParseFloat lib (nth 1 matches "") with
    | Some bpm => set_currentBPM bpm w
    | None => w
    end
  else w.

Definition extractErrorMessage (message : string) : string :=
  if Strings.Contains message "/error" then
    let parts := Split lib message "/error" in
    if (1 <? length parts)%nat then TrimSpace lib (nth 1 parts "")
    else "Unknown error"
  else "Unknown error".

Definition calculateBeatsFromStart (timestamp : Time) (w : t) : Z :=
  let beatsPerSecond := (currentBPM w / 60)%float in
  int64_of_float lib (Seconds lib (timestamp - startTime w) * beatsPerSecond)%float.

(** [readBufferContent]; [clock] is the second reading of the clock. *)
Definition readBufferContent (clock : Time) (bufferName : string) (w : t) : string :=
  if String.eqb (workspacePath w) "" then
    "# Code executed in buffer: " +:+ bufferName +:+ newline
    +:+ "# (content not available without workspace path)"
  else
    "# Executed at " +:+ format_clock lib clock +:+ newline
    +:+ "# Buffer: " +:+ bufferName.

Definition parseExecutionEvent (now clock : Time) (message : string) (w : t)
  : ExecutionEvent.t :=
  let matches := FindStringSubmatch lib bufferRegex message in
  let buffer := if (1 <? length matches)%nat then nth 1 matches ""
                else "workspace-0" in
  let success := negb (Strings.Contains message "/error") in
  let errorMessage := if success then "" else extractErrorMessage message in
  let beatsFromStart := calculateBeatsFromStart now w in
  let content := readBufferContent clock buffer w in
  ExecutionEvent.mk now content buffer "sonicpi" "sonic-pi"
    success errorMessage (currentBPM w) beatsFromStart "" 0 0
    (<["osc_message" := message]> ∅).

Definition process_line (now clock : Time) (w : t) (line : string)
  : t * list Emitted :=
  let line := TrimSpace lib line in
  if String.eqb line "" then (w, [])
  else if isExecutionMessage line then
    (w, invoke (callback w) (parseExecutionEvent now clock line w))
  else if isBPMMessage line then (updateBPM line w, [])
  else (w, []).

(** [processOSCMessage]: one datagram. *)
Definition processOSCMessage (now clock : Time) (message : string) (w : t)
  : t * list Emitted :=
  fold_left (fun acc line =>
               let '(w1, out1) := process_line now clock (fst acc) line in
               (w1, snd acc ++ out1))
            (Split lib message newline) (w, []).

End WithLibrary.

End OSCWatcher.

(** ** The three watchers behind the interface *)

Inductive Concrete :=
| COSC (w : OSCWatcher.t)
| CFile (w : FileWatcher.t)
| CGHCi (w : GHCiWatcher.t).

Module ConcreteWatcher.
Section Dispatch.
Context {E : Type} (out : Outside E).

Definition Start (cb : option Callback) (c : Concrete) (e : E)
  : Concrete * E * option error :=
  match c with
  | COSC w => let '(w', e', r) := OSCWatcher.Start out cb w e in (COSC w', e', r)
  | CFile w => let '(w', e', r) := FileWatcher.Start out cb w e in (CFile w', e', r)
  | CGHCi w => let '(w', e', r) := GHCiWatcher.Start out cb w e in (CGHCi w', e', r)
  end.

Definition Stop (c : Concrete) (e : E) : Concrete * E * option error :=
  match c with
  | COSC w => let '(w', e', r) := OSCWatcher.Stop out w e in (COSC w', e', r)
  | CFile w => let '(w', r) := FileWatcher.Stop w in (CFile w', e, r)
  | CGHCi w => let '(w', r) := GHCiWatcher.Stop w in (CGHCi w', e, r)
  end.
End Dispatch.

Definition IsRunning (c : Concrete) : bool :=
  match c with
  | COSC w => OSCWatcher.IsRunning w
  | CFile w => FileWatcher.IsRunning w
  | CGHCi w => GHCiWatcher.IsRunning w
  end.

Definition GetConfig (c : Concrete) : WatcherConfig.t :=
  match c with
  | COSC w => OSCWatcher.GetConfig w
  | CFile w => FileWatcher.GetConfig w
  | CGHCi w => GHCiWatcher.GetConfig w
  end.

Definition GetLanguage (c : Concrete) : string :=
  match c with
  | COSC w => OSCWatcher.GetLanguage w
  | CFile w => FileWatcher.GetLanguage w
  | CGHCi w => GHCiWatcher.GetLanguage w
  end.

Definition GetEnvironment (c : Concrete) : string :=
  match c with
  | COSC w => OSCWatcher.GetEnvironment w
  | CFile w => FileWatcher.GetEnvironment w
  | CGHCi w => GHCiWatcher.GetEnvironment w
  end.

(** The error of [Start] on a running watcher. *)
Definition already_running (c : Concrete) : error :=
  match c with
  | COSC _ => "watcher is already running"
  | CFile _ => "file watcher is already running"
  | CGHCi _ => "GHCi watcher is already running"
  end.

(** [c.GetConfig().Options[k] = v]: [GetConfig] returns the struct by
    value, so its [Enabled] is a copy, but the [Options] map of the copy
    is the watcher's own map. *)
Definition write_option (k v : string) (c : Concrete) : Concrete :=
  match c with
  | COSC w =>
      COSC (OSCWatcher.set_config
              (WatcherConfig.write_option k v (OSCWatcher.config w)) w)
  | CFile w =>
      CFile (FileWatcher.set_config
               (WatcherConfig.write_option k v (FileWatcher.config w)) w)
  | CGHCi w =>
      CGHCi (GHCiWatcher.set_config
               (WatcherConfig.write_option k v (GHCiWatcher.config w)) w)
  end.

(** Every way a watcher changes once it is built: the methods, the
    steps of the background loops, and a write by a caller through the
    configuration it was handed. *)
Inductive step (lib : GoLib) : Concrete -> Concrete -> Prop :=
| step_Start {E} (out : Outside E) cb c e :
    step lib c (Start out cb c e).1.1
| step_Stop {E} (out : Outside E) c e :
    step lib c (Stop out c e).1.1
| osc_message now clock message w :
    step lib (COSC w) (COSC (OSCWatcher.processOSCMessage lib now clock message w).1)
| file_tick walk w :
    step lib (CFile w) (CFile (FileWatcher.checkForChanges walk w).1)
| file_SetPollInterval interval w :
    step lib (CFile w) (CFile (FileWatcher.SetPollInterval lib interval w))
| ghci_initialize ios w :
    step lib (CGHCi w) (CGHCi (GHCiWatcher.initializeTidal ios w))
| ghci_output now line w :
    step lib (CGHCi w) (CGHCi (GHCiWatcher.processOutputLine lib now line w).1)
| ghci_error now line w :
    step lib (CGHCi w) (CGHCi (GHCiWatcher.processErrorLine lib now line w).1)
| ghci_ExecutePattern io pattern w :
    step lib (CGHCi w) (CGHCi (GHCiWatcher.ExecutePattern io pattern w).1)
| ghci_Hush io w :
    step lib (CGHCi w) (CGHCi (GHCiWatcher.Hush io w).1)
| options_write k v c :
    step lib c (write_option k v c).

(** A watcher as one of the three constructors makes it. *)
Inductive fresh : Concrete -> Prop :=
| fresh_osc port workspacePath :
    fresh (COSC (OSCWatcher.NewOSCWatcher port workspacePath))
| fresh_file workspacePath :
    fresh (CFile (FileWatcher.NewFileWatcher workspacePath))
| fresh_ghci : fresh (CGHCi GHCiWatcher.NewGHCiWatcher).

(** The states a watcher can be in, from construction onward. *)
Inductive reachable (lib : GoLib) : Concrete -> Prop :=
| reach_fresh c : fresh c -> reachable lib c
| reach_step c c' : reachable lib c -> step lib c c' -> reachable lib c'.

End ConcreteWatcher.

#[global] Instance Concrete_ExecutionWatcher {E : Type} (out : Outside E)
  : ExecutionWatcher Concrete E := {|
  Start := ConcreteWatcher.Start out;
  Stop := ConcreteWatcher.Stop out;
  IsRunning := ConcreteWatcher.IsRunning;
  GetConfig := ConcreteWatcher.GetConfig;
  GetLanguage := ConcreteWatcher.GetLanguage;
  GetEnvironment := ConcreteWatcher.GetEnvironment
|}.

(** The [MockWatcher] of the package's tests. *)
Module MockWatcher.
Record t := mk {
  config : WatcherConfig.t;
  running : bool;
  callback : option Callback
}.

Definition Start (cb : option Callback) (m : t) : t * option error :=
  (mk (config m) true cb, None).

Definition Stop (m : t) : t * option error :=
  (mk (config m) false (callback m), None).

Definition IsRunning (m : t) : bool := running m.
Definition GetConfig (m : t) : WatcherConfig.t := config m.
Definition GetLanguage (m : t) : string := WatcherConfig.Language (config m).
Definition GetEnvironment (m : t) : string := WatcherConfig.Environment (config m).
End MockWatcher.

#[global] Instance Mock_ExecutionWatcher {E : Type} : ExecutionWatcher MockWatcher.t E := {|
  Start cb m e := let '(m', r) := MockWatcher.Start cb m in (m', e, r);
  Stop m e := let '(m', r) := MockWatcher.Stop m in (m', e, r);
  IsRunning := MockWatcher.IsRunning;
  GetConfig := MockWatcher.GetConfig;
  GetLanguage := MockWatcher.GetLanguage;
  GetEnvironment := MockWatcher.GetEnvironment
|}.

(** ** Package watchers: the manager *)

(** A pointer to a watcher. *)
Definition loc := positive.

(** The order in which a [range] loop visits a map: any arrangement of
    its entries. *)
Definition range_order {V : Type} (m : gmap string V) (order : list (string * V)) : Prop :=
  order ≡ₚ map_to_list m.

#[global] Instance range_order_dec {V : Type} `{EqDecision V}
  (m : gmap string V) (order : list (string * V)) : Decision (range_order m order).
Proof. unfold range_order. apply _. Defined.

Module Sys.
(** The objects behind the pointers, and the world outside. *)
Record t (W E : Type) := mk {
  objs : loc -> W;
  env : E
}.
Arguments mk {W E}.
Arguments objs {W E}.
Arguments env {W E}.
End Sys.

(** A method call made through the interface, as the manager makes it: on
    which entry of the registry, and what came back. *)
Inductive Method := MStart | MStop.

Record Call := mkCall {
  method : Method;
  call_name : string;
  target : loc;
  outcome : option error
}.

(** What [StopAll] makes of a failed [Stop]. *)
Definition stop_error (c : Call) : option error :=
  wrap_error ("failed to stop watcher " +:+ call_name c +:+ ": ") <$> outcome c.

(** The error of the last call that failed, if one did. *)
Definition last_failure (calls : list Call) : option error :=
  last (omap stop_error calls).

(** [watcher.GetConfig().Enabled] and [watcher.IsRunning()] of the object
    behind a pointer. *)
Definition enabled {W E : Type} `{EW : !ExecutionWatcher W E}
    (σ : Sys.t W E) (l : loc) : bool :=
  WatcherConfig.Enabled (GetConfig (Sys.objs σ l)).

Definition is_running {W E : Type} `{EW : !ExecutionWatcher W E}
    (σ : Sys.t W E) (l : loc) : bool :=
  IsRunning (Sys.objs σ l).

(** The registry entries of a list of calls. *)
Definition entries (calls : list Call) : list (string * loc) :=
  (fun c => (call_name c, target c)) <$> calls.

Module WatcherManager.

Record t := mk {
  watchers : gmap string loc;
  callback : option Callback;
  running : bool
}.

Definition NewWatcherManager : t := mk ∅ None false.

Definition RegisterWatcher (name : string) (watcher : loc) (wm : t) : t :=
  mk (<[name := watcher]> (watchers wm)) (callback wm) (running wm).

Definition SetCallback (cb : option Callback) (wm : t) : t :=
  mk (watchers wm) cb (running wm).

Definition set_running (b : bool) (wm : t) : t :=
  mk (watchers wm) (callback wm) b.

Definition GetWatcher (name : string) (wm : t) : option loc :=
  watchers wm !! name.

Definition ListWatchers (order : list (string * loc)) : list string :=
  order.*1.

Section Interface.
Context {W E : Type} `{EW : !ExecutionWatcher W E}.

(** [watcher.Start(cb)] on the object behind [l]. *)
Definition call_Start (cb : option Callback) (l : loc) (σ : Sys.t W E)
  : Sys.t W E * option error :=
  let '(w', e', r) := Start cb (Sys.objs σ l) (Sys.env σ) in
  (Sys.mk (<[l := w']> (Sys.objs σ)) e', r).

(** [watcher.Stop()] on the object behind [l]. *)
Definition call_Stop (l : loc) (σ : Sys.t W E) : Sys.t W E * option error :=
  let '(w', e', r) := Stop (Sys.objs σ l) (Sys.env σ) in
  (Sys.mk (<[l := w']> (Sys.objs σ)) e', r).

(** The loop of [StartAll]: the error that ended it or the final
    [startedAny], the state reached, and the calls made. *)
Fixpoint StartAll_range (cb : Callback) (order : list (string * loc))
    (startedAny : bool) (σ : Sys.t W E)
  : result bool * Sys.t W E * list Call :=
  match order with
  | [] => (Ok startedAny, σ, [])
  | (name, l) :: rest =>
      if WatcherConfig.Enabled (GetConfig (Sys.objs σ l)) then
        let '(σ1, r) := call_Start (Some cb) l σ in
        match r with
        | Some err =>
            (Err (wrap_error ("failed to start watcher " +:+ name +:+ ": ") err),
             σ1, [mkCall MStart name l r])
        | None =>
            let '(res, σ2, calls) := StartAll_range cb rest true σ1 in
            (res, σ2, mkCall MStart name l r :: calls)
        end
      else StartAll_range cb rest startedAny σ
  end.

Definition StartAll (order : list (string * loc)) (wm : t) (σ : Sys.t W E)
  : option error * t * Sys.t W E * list Call :=
  match callback wm with
  | None => (Some "no callback function set", wm, σ, [])
  | Some cb =>
      match StartAll_range cb order false σ with
      | (Err e, σ', calls) => (Some e, wm, σ', calls)
      | (Ok startedAny, σ', calls) => (None, set_running startedAny wm, σ', calls)
      end
  end.

(** The loop of [StopAll]. *)
Fixpoint StopAll_range (order : list (string * loc)) (lastError : option error)
    (σ : Sys.t W E) : option error * Sys.t W E * list Call :=
  match order with
  | [] => (lastError, σ, [])
  | (name, l) :: rest =>
      if IsRunning (Sys.objs σ l) then
        let '(σ1, r) := call_Stop l σ in
        let lastError :=
          match r with
          | Some err =>
              Some (wrap_error ("failed to stop watcher " +:+ name +:+ ": ") err)
          | None => lastError
          end in
        let '(res, σ2, calls) := StopAll_range rest lastError σ1 in
        (res, σ2, mkCall MStop name l r :: calls)
      else StopAll_range rest lastError σ
  end.

Definition StopAll (order : list (string * loc)) (wm : t) (σ : Sys.t W E)
  : option error * t * Sys.t W E * list Call :=
  let '(lastError, σ', calls) := StopAll_range order None σ in
  (lastError, set_running false wm, σ', calls).

End Interface.

Definition IsRunning (wm : t) : bool := running wm.

End WatcherManager.

(** ** Package watchers: the configuration manager *)

Module GlobalConfig.
Record t := mk {
  Watchers : gmap string WatcherConfig.t;
  DefaultLanguage : string;
  AutoCommit : bool;
  CommitMessage : string;
  WorkspacePath : string;
  LogLevel : string
}.

Definition set_Watchers (ws : gmap string WatcherConfig.t) (c : t) : t :=
  mk ws (DefaultLanguage c) (AutoCommit c) (CommitMessage c)
     (WorkspacePath c) (LogLevel c).
End GlobalConfig.

Definition DefaultGlobalConfig : GlobalConfig.t :=
  GlobalConfig.mk
    (<["sonicpi-osc" :=
         WatcherConfig.mk "sonicpi" "sonic-pi" false
           (<["osc_port" := "4559"]> (<["workspace_path" := ""]> ∅))]>
     (<["sonicpi-files" :=
         WatcherConfig.mk "sonicpi" "sonic-pi-files" false
           (<["workspace_path" := ""]> (<["poll_interval" := "1s"]> ∅))]>
     (<["tidal-ghci" :=
         WatcherConfig.mk "tidal" "tidal-cycles" false
           (<["ghci_command" := "ghci"]> (<["boot_file" := "BootTidal.hs"]> ∅))]>
      ∅)))
    "sonicpi" true
    "Auto-commit: {{.Language}} execution in {{.Buffer}}"
    "" "info".

Module ConfigManager.

Record t := mk {
  configPath : string;
  config : GlobalConfig.t
}.

Definition NewConfigManager (configPath : string) : t :=
  mk configPath DefaultGlobalConfig.

Definition GetConfig (cm : t) : GlobalConfig.t := config cm.

Definition UpdateConfig (c : GlobalConfig.t) (cm : t) : t :=
  mk (configPath cm) c.

Definition GetWatcherConfig (name : string) (cm : t) : option WatcherConfig.t :=
  GlobalConfig.Watchers (config cm) !! name.

Definition SetWatcherConfig (name : string) (c : WatcherConfig.t) (cm : t) : t :=
  mk (configPath cm)
     (GlobalConfig.set_Watchers
        (<[name := c]> (GlobalConfig.Watchers (config cm))) (config cm)).

Definition not_found (name : string) : error :=
  "watcher '" +:+ name +:+ "' not found".

Definition EnableWatcher (name : string) (cm : t) : t * option error :=
  match GlobalConfig.Watchers (config cm) !! name with
  | None => (cm, Some (not_found name))
  | Some c => (SetWatcherConfig name (WatcherConfig.set_Enabled true c) cm, None)
  end.

Definition DisableWatcher (name : string) (cm : t) : t * option error :=
  match GlobalConfig.Watchers (config cm) !! name with
  | None => (cm, Some (not_found name))
  | Some c => (SetWatcherConfig name (WatcherConfig.set_Enabled false c) cm, None)
  end.

Definition ListWatchers (order : list (string * WatcherConfig.t)) : list string :=
  order.*1.

(** [GetEnabledWatchers]; [order] is the order of the [range] over
    [cm.config.Watchers]. *)
Definition GetEnabledWatchers (order : list (string * WatcherConfig.t)) : list string :=
  (filter (fun nc => WatcherConfig.Enabled nc.2 = true) order).*1.

Definition validLogLevels : list string := ["debug"; "info"; "warn"; "error"].

Definition validateSonicPiOSCConfig (config : WatcherConfig.t) : option error :=
  match WatcherConfig.Options config !! "osc_port" with
  | Some portStr =>
      if String.eqb portStr "" then Some "osc_port cannot be empty" else None
  | None => None
  end.

Definition validateTidalGHCiConfig (config : WatcherConfig.t) : option error :=
  match WatcherConfig.Options config !! "ghci_command" with
  | Some ghciCmd =>
      if String.eqb ghciCmd "" then Some "ghci_command cannot be empty" else None
  | None => None
  end.

Section WithOutside.
Context {E : Type} (out : Outside E).

Definition validateSonicPiFilesConfig (config : WatcherConfig.t) (e : E)
  : option error * E :=
  match WatcherConfig.Options config !! "workspace_path" with
  | Some workspacePath =>
      if negb (String.eqb workspacePath "") then
        let '(notExist, e) := Stat_IsNotExist out workspacePath e in
        if notExist then
          (Some ("workspace_path does not exist: " +:+ workspacePath), e)
        else (None, e)
      else (None, e)
  | None => (None, e)
  end.

Definition validateWatcherConfig (name : string) (config : WatcherConfig.t) (e : E)
  : option error * E :=
  if String.eqb (WatcherConfig.Language config) "" then
    (Some "language is required", e)
  else if String.eqb (WatcherConfig.Environment config) "" then
    (Some "environment is required", e)
  else if String.eqb name "sonicpi-osc" then (validateSonicPiOSCConfig config, e)
  else if String.eqb name "sonicpi-files" then validateSonicPiFilesConfig config e
  else if String.eqb name "tidal-ghci" then (validateTidalGHCiConfig config, e)
  else (None, e).

(** The loop of [ValidateConfig] over the watcher configurations. *)
Fixpoint ValidateConfig_range (order : list (string * WatcherConfig.t)) (e : E)
  : option error * E :=
  match order with
  | [] => (None, e)
  | (name, watcherConfig) :: rest =>
      match validateWatcherConfig name watcherConfig e with
      | (Some err, e) =>
          (Some (wrap_error ("invalid config for watcher '" +:+ name +:+ "': ") err),
           e)
      | (None, e) => ValidateConfig_range rest e
      end
  end.

(** [ValidateConfig]; [order] is the order of the [range] over the
    watcher configurations. *)
Definition ValidateConfig (order : list (string * WatcherConfig.t)) (cm : t) (e : E)
  : option error * E :=
  if existsb (String.eqb (GlobalConfig.LogLevel (config cm))) validLogLevels then
    ValidateConfig_range order e
  else (Some ("invalid log level: " +:+ GlobalConfig.LogLevel (config cm)), e).

End WithOutside.

End ConfigManager.

(** ** Package watchers: the service *)

(** The data handed to the commit-message template. *)
Module TemplateData.
Record t := mk {
  Language : string;
  Environment : string;
  Buffer : string;
  Timestamp : string;
  Success : string
}.
End TemplateData.

(** The collaborators of the service, by their interfaces: the compiled
    template of [text/template] and the commit store of [pkg/core]. The
    state [Repo] stands for the repository and everything [Commit] reads
    or writes. *)
Record Collaborators (Repo Template : Type) := {
  Execute : Template -> TemplateData.t -> result string;
  Commit : Repo -> string -> string -> ExecutionMetadata.t -> Repo * option error
}.
Arguments Execute {Repo Template}.
Arguments Commit {Repo Template}.

Module ServiceStats.
Record t := mk {
  TotalExecutions : Z;
  TotalCommits : Z;
  LastExecution : Time;
  ActiveWatchers : Z;
  Running : bool
}.
End ServiceStats.

(** How a call ends. *)
Inductive completion := Returns | Panics.

Definition truncateString (s : string) (maxLen : nat) : string :=
  if (String.length s <=? maxLen)%nat then s
  else String.substring 0 (maxLen - 3) s +:+ "...".

Module WatcherService.

Record t (Repo Template : Type) := mk {
  manager : WatcherManager.t;
  configManager : ConfigManager.t;
  repository : Repo;
  running : bool;
  autoCommit : bool;
  (** [nil] until [Initialize] has compiled the template *)
  commitMessageTmpl : option Template;
  totalExecutions : Z;
  totalCommits : Z;
  lastExecution : Time
}.
Arguments mk {Repo Template}.
Arguments manager {Repo Template}.
Arguments configManager {Repo Template}.
Arguments repository {Repo Template}.
Arguments running {Repo Template}.
Arguments autoCommit {Repo Template}.
Arguments commitMessageTmpl {Repo Template}.
Arguments totalExecutions {Repo Template}.
Arguments totalCommits {Repo Template}.
Arguments lastExecution {Repo Template}.

(** The method value [service.handleExecutionEvent]. *)
Definition handler : Callback := Func 1.

Section Service.
Context {Repo Template : Type} (ext : Collaborators Repo Template).
#[local] Abbreviation t := (t Repo Template).

Definition set_manager (wm : WatcherManager.t) (ws : t) : t :=
  mk wm (configManager ws) (repository ws) (running ws) (autoCommit ws)
     (commitMessageTmpl ws) (totalExecutions ws) (totalCommits ws)
     (lastExecution ws).

Definition set_configManager (cm : ConfigManager.t) (ws : t) : t :=
  mk (manager ws) cm (repository ws) (running ws) (autoCommit ws)
     (commitMessageTmpl ws) (totalExecutions ws) (totalCommits ws)
     (lastExecution ws).

Definition set_repository (r : Repo) (ws : t) : t :=
  mk (manager ws) (configManager ws) r (running ws) (autoCommit ws)
     (commitMessageTmpl ws) (totalExecutions ws) (totalCommits ws)
     (lastExecution ws).

Definition set_running (b : bool) (ws : t) : t :=
  mk (manager ws) (configManager ws) (repository ws) b (autoCommit ws)
     (commitMessageTmpl ws) (totalExecutions ws) (totalCommits ws)
     (lastExecution ws).

Definition NewWatcherService (repo : Repo) (configPath : string) : t :=
  mk (WatcherManager.SetCallback (Some handler) WatcherManager.NewWatcherManager)
     (ConfigManager.NewConfigManager configPath)
     repo false true None 0 0 0.

Definition IsRunning (ws : t) : bool := running ws.

(** The template data of [generateCommitMessage]. *)
Definition template_data (lib : GoLib) (event : ExecutionEvent.t) : TemplateData.t :=
  TemplateData.mk (ExecutionEvent.Language event)
    (ExecutionEvent.Environment event)
    (ExecutionEvent.Buffer event)
    (format_clock lib (ExecutionEvent.Timestamp event))
    (if ExecutionEvent.Success event then "success" else "error").

(** [generateCommitMessage]; executing a nil template panics, which
    is the result [None]. *)
Definition generateCommitMessage (lib : GoLib) (event : ExecutionEvent.t) (ws : t)
  : option (result string) :=
  match commitMessageTmpl ws with
  | None => None
  | Some tmpl => Some (Execute ext tmpl (template_data lib event))
  end.

(** [createAutoCommit]: the repository afterwards and the error
    returned, or [None] for a panic. *)
Definition createAutoCommit (lib : GoLib) (event : ExecutionEvent.t) (ws : t)
  : option (t * option error) :=
  match generateCommitMessage lib event ws with
  | None => None
  | Some (Err e) =>
      Some (ws, Some (wrap_error "failed to generate commit message: " e))
  | Some (Ok commitMessage) =>
      let metadata := ExecutionEvent.ToExecutionMetadata event in
      let '(repo', r) :=
        Commit ext (repository ws) (ExecutionEvent.Content event)
               commitMessage metadata in
      match r with
      | Some e =>
          Some (set_repository repo' ws,
                Some (wrap_error "failed to create commit: " e))
      | None => Some (set_repository repo' ws, None)
      end
  end.

(** [handleExecutionEvent]: the service afterwards, how the call
    ended, and the lines sent to the log. *)
Definition handleExecutionEvent (lib : GoLib) (event : ExecutionEvent.t) (ws : t)
  : t * completion * list string :=
  let ws := mk (manager ws) (configManager ws) (repository ws) (running ws)
               (autoCommit ws) (commitMessageTmpl ws)
               (int64_incr (totalExecutions ws)) (totalCommits ws)
               (ExecutionEvent.Timestamp event) in
  let detected :=
    "Execution detected: " +:+ ExecutionEvent.Language event +:+ "/"
    +:+ ExecutionEvent.Buffer event +:+ " - "
    +:+ truncateString (ExecutionEvent.Content event) 50 in
  if autoCommit ws then
    match createAutoCommit lib event ws with
    | None => (ws, Panics, [detected])
    | Some (ws, Some err) =>
        (ws, Returns, [detected; "Failed to create auto-commit: " +:+ err])
    | Some (ws, None) =>
        (mk (manager ws) (configManager ws) (repository ws) (running ws)
            (autoCommit ws) (commitMessageTmpl ws)
            (totalExecutions ws) (int64_incr (totalCommits ws))
            (lastExecution ws),
         Returns, [detected])
    end
  else (ws, Returns, [detected]).

(** [GetStats]; [order] is the order of the [range] inside
    [GetEnabledWatchers]. *)
Definition GetStats (order : list (string * WatcherConfig.t)) (ws : t)
  : ServiceStats.t :=
  ServiceStats.mk (totalExecutions ws) (totalCommits ws) (lastExecution ws)
    (Z.of_nat (length (ConfigManager.GetEnabledWatchers order)))
    (running ws).

Definition GetEnabledWatchers (order : list (string * WatcherConfig.t)) : list string :=
  ConfigManager.GetEnabledWatchers order.

Definition GetWatcherConfig (name : string) (ws : t) : option WatcherConfig.t :=
  ConfigManager.GetWatcherConfig name (configManager ws).

(** [EnableWatcher]; [save] is what [SaveConfig] returns. *)
Definition EnableWatcher (save : option error) (name : string) (ws : t)
  : t * option error :=
  match ConfigManager.EnableWatcher name (configManager ws) with
  | (_, Some e) => (ws, Some e)
  | (cm, None) => (set_configManager cm ws, save)
  end.

Definition UpdateWatcherConfig (save : option error) (name : string)
    (c : WatcherConfig.t) (ws : t) : t * option error :=
  (set_configManager (ConfigManager.SetWatcherConfig name c (configManager ws)) ws,
   save).

(** In the words of the specification: auto-commit is on, the
    template renders, and the store accepts the commit. *)
Definition commit_made (lib : GoLib) (event : ExecutionEvent.t) (ws : t) : Prop :=
  autoCommit ws = true /\
  exists tmpl message,
    commitMessageTmpl ws = Some tmpl /\
    Execute ext tmpl (template_data lib event) = Ok message /\
    (Commit ext (repository ws) (ExecutionEvent.Content event) message
            (ExecutionEvent.ToExecutionMetadata event)).2 = None.

Definition createSonicPiOSCWatcher (config : WatcherConfig.t) : result Concrete :=
  let port :=
    match WatcherConfig.Options config !! "osc_port" with
    | Some portStr =>
        if String.eqb portStr "4559" then 4559
        else if String.eqb portStr "4560" then 4560
        else 4559
    | None => 4559
    end in
  let workspacePath := map_index (WatcherConfig.Options config) "workspace_path" in
  Ok (COSC (OSCWatcher.NewOSCWatcher port workspacePath)).

Definition createSonicPiFileWatcher (config : WatcherConfig.t) : result Concrete :=
  let workspacePath := map_index (WatcherConfig.Options config) "workspace_path" in
  if String.eqb workspacePath "" then
    Err "workspace_path is required for sonicpi-files watcher"
  else Ok (CFile (FileWatcher.NewFileWatcher workspacePath)).

Definition createTidalGHCiWatcher (config : WatcherConfig.t) : result Concrete :=
  Ok (CGHCi GHCiWatcher.NewGHCiWatcher).

(** The [switch] of [registerWatchers]; [None] in the default case. *)
Definition createWatcher (name : string) (config : WatcherConfig.t)
  : option (result Concrete) :=
  if String.eqb name "sonicpi-osc" then Some (createSonicPiOSCWatcher config)
  else if String.eqb name "sonicpi-files" then Some (createSonicPiFileWatcher config)
  else if String.eqb name "tidal-ghci" then Some (createTidalGHCiWatcher config)
  else None.

(** The loop of [registerWatchers]; a new watcher is put at [next],
    the first pointer not in use. *)
Fixpoint registerWatchers_range {E : Type}
    (order : list (string * WatcherConfig.t)) (next : loc)
    (wm : WatcherManager.t) (σ : Sys.t Concrete E)
  : WatcherManager.t * Sys.t Concrete E * list string :=
  match order with
  | [] => (wm, σ, [])
  | (name, watcherConfig) :: rest =>
      match createWatcher name watcherConfig with
      | None =>
          let '(wm', σ', logs) := registerWatchers_range rest next wm σ in
          (wm', σ', ("Unknown watcher type: " +:+ name) :: logs)
      | Some (Err err) =>
          let '(wm', σ', logs) := registerWatchers_range rest next wm σ in
          (wm', σ', ("Failed to create watcher " +:+ name +:+ ": " +:+ err) :: logs)
      | Some (Ok watcher) =>
          registerWatchers_range rest (Pos.succ next)
            (WatcherManager.RegisterWatcher name next wm)
            (Sys.mk (<[next := watcher]> (Sys.objs σ)) (Sys.env σ))
      end
  end.

Definition registerWatchers {E : Type}
    (order : list (string * WatcherConfig.t)) (next : loc)
    (ws : t) (σ : Sys.t Concrete E) : t * Sys.t Concrete E * list string :=
  let '(wm, σ', logs) := registerWatchers_range order next (manager ws) σ in
  (set_manager wm ws, σ', logs).

Section Watchers.
Context {W E : Type} `{EW : !ExecutionWatcher W E}.

(** The loop of [Start] over the names of the enabled watchers. *)
Fixpoint Start_range (names : list string) (ws : t) (σ : Sys.t W E)
  : option error * Sys.t W E * list Call :=
  match names with
  | [] => (None, σ, [])
  | name :: rest =>
      match WatcherManager.GetWatcher name (manager ws) with
      | Some l =>
          let '(σ1, r) :=
            WatcherManager.call_Start (WatcherManager.callback (manager ws)) l σ in
          match r with
          | Some err =>
              (Some (wrap_error ("failed to start watcher " +:+ name +:+ ": ") err),
               σ1, [mkCall MStart name l r])
          | None =>
              let '(res, σ2, calls) := Start_range rest ws σ1 in
              (res, σ2, mkCall MStart name l r :: calls)
          end
      | None => Start_range rest ws σ
      end
  end.

Definition Start (order : list (string * WatcherConfig.t)) (ws : t) (σ : Sys.t W E)
  : option error * t * Sys.t W E * list Call :=
  if running ws then (Some "watcher service is already running", ws, σ, [])
  else
    match Start_range (ConfigManager.GetEnabledWatchers order) ws σ with
    | (Some e, σ', calls) => (Some e, ws, σ', calls)
    | (None, σ', calls) => (None, set_running true ws, σ', calls)
    end.

(** [Stop]; [order] is the order of the [range] inside [StopAll]. *)
Definition Stop (order : list (string * loc)) (ws : t) (σ : Sys.t W E)
  : option error * t * Sys.t W E * list Call :=
  if negb (running ws) then (None, ws, σ, [])
  else
    match WatcherManager.StopAll order (manager ws) σ with
    | (Some err, wm, σ', calls) =>
        (Some (wrap_error "failed to stop watchers: " err),
         set_manager wm ws, σ', calls)
    | (None, wm, σ', calls) =>
        (None, set_running false (set_manager wm ws), σ', calls)
    end.

(** [DisableWatcher]; [save] is what [SaveConfig] returns. *)
Definition DisableWatcher (save : option error) (name : string) (ws : t)
    (σ : Sys.t W E) : option error * t * Sys.t W E * list Call :=
  let '(stopped, σ1, calls) :=
    if running ws then
      match WatcherManager.GetWatcher name (manager ws) with
      | Some l =>
          if is_running σ l then
            let '(σ1, r) := WatcherManager.call_Stop l σ in
            (r, σ1, [mkCall MStop name l r])
          else (None, σ, [])
      | None => (None, σ, [])
      end
    else (None, σ, []) in
  match stopped with
  | Some err => (Some (wrap_error "failed to stop watcher: " err), ws, σ1, calls)
  | None =>
      match ConfigManager.DisableWatcher name (configManager ws) with
      | (_, Some e) => (Some e, ws, σ1, calls)
      | (cm, None) => (save, set_configManager cm ws, σ1, calls)
      end
  end.

End Watchers.
End Service.

End WatcherService.

(** ** What a log of calls stands for

    The loops of the manager and of the service are given with the list
    of the calls they make. That list is tied to the state by making its
    calls again, through the interface, from the state the loop began
    in. *)

Module CallLog.

Section Interface.
Context {W E : Type} `{EW : !ExecutionWatcher W E}.

(** One call of the log made on the object behind its target:
    [watcher.Start(cb)] or [watcher.Stop()]. *)
Definition perform (cb : option Callback) (c : Call) (σ : Sys.t W E)
  : Sys.t W E * option error :=
  let '(w', e', r) :=
    match method c with
    | MStart => Start cb (Sys.objs σ (target c)) (Sys.env σ)
    | MStop => Stop (Sys.objs σ (target c)) (Sys.env σ)
    end in
  (Sys.mk (<[target c := w']> (Sys.objs σ)) e', r).

(** The calls made one after another: the state reached and what
    each call returned. *)
Fixpoint replay (cb : option Callback) (calls : list Call) (σ : Sys.t W E)
  : Sys.t W E * list (option error) :=
  match calls with
  | [] => (σ, [])
  | c :: rest =>
      let '(σ1, r) := perform cb c σ in
      let '(σ2, rs) := replay cb rest σ1 in
      (σ2, r :: rs)
  end.

(** The log is a true record of a run from [σ] to [σ']: these calls,
    in this order and nothing besides, lead from [σ] to [σ'], and
    each returned what the log says. *)
Definition records (cb : option Callback) (calls : list Call)
    (σ σ' : Sys.t W E) : Prop :=
  replay cb calls σ = (σ', outcome <$> calls).

End Interface.

End CallLog.

(** ** Fields of the three watchers, read through the sum *)

Module ConcreteFields.

Definition callback (c : Concrete) : option Callback :=
  match c with
  | COSC w => OSCWatcher.callback w
  | CFile w => FileWatcher.callback w
  | CGHCi w => GHCiWatcher.callback w
  end.

(** What [Start] acquires and a running watcher works with: the socket
    of the OSC watcher, the open stop channel of the file watcher, the
    pipes and the started process of the GHCi watcher. *)
Definition holds_resources (c : Concrete) : Prop :=
  match c with
  | COSC w => is_Some (OSCWatcher.conn w)
  | CFile w => FileWatcher.stopChan w = Some FileWatcher.Open
  | CGHCi w =>
      is_Some (GHCiWatcher.stdin w) /\ is_Some (GHCiWatcher.stdout w) /\
      is_Some (GHCiWatcher.stderr w) /\
      exists cmd pid, GHCiWatcher.cmd w = Some cmd /\
                      GHCiWatcher.Process cmd = Some pid /\
                      GHCiWatcher.Killed cmd = false
  end.

(** What the work between [Start] and [Stop] leaves alone. *)
Definition osc_kept (w w' : OSCWatcher.t) : Prop :=
  OSCWatcher.running w' = OSCWatcher.running w /\
  OSCWatcher.conn w' = OSCWatcher.conn w /\
  OSCWatcher.callback w' = OSCWatcher.callback w.

Definition file_kept (w w' : FileWatcher.t) : Prop :=
  FileWatcher.running w' = FileWatcher.running w /\
  FileWatcher.stopChan w' = FileWatcher.stopChan w /\
  FileWatcher.callback w' = FileWatcher.callback w.

Definition ghci_kept (w w' : GHCiWatcher.t) : Prop :=
  GHCiWatcher.running w' = GHCiWatcher.running w /\
  GHCiWatcher.callback w' = GHCiWatcher.callback w /\
  GHCiWatcher.cmd w' = GHCiWatcher.cmd w /\
  GHCiWatcher.stdout w' = GHCiWatcher.stdout w /\
  GHCiWatcher.stderr w' = GHCiWatcher.stderr w /\
  (is_Some (GHCiWatcher.stdin w) <-> is_Some (GHCiWatcher.stdin w')).

(** The two facts carried along the reachable states. *)
Definition inv (c : Concrete) : Prop :=
  (ConcreteWatcher.IsRunning c = true -> holds_resources c) /\
  (forall w, c = CFile w -> FileWatcher.stopChan w = Some FileWatcher.Open ->
             FileWatcher.running w = true).

End ConcreteFields.

(** ** The file watcher: what a tick knows of the files *)

Module Poller.
Import FileWatcher.

(** No recorded time is lost or moved back from [w] to [w']. *)
Definition no_older (w w' : t) : Prop :=
  forall (p : string) (t0 : Time), lastModified w !! p = Some t0 ->
    exists t1 : Time, lastModified w' !! p = Some t1 /\ t0 <= t1.

(** The watcher has on record, for the file of the visit, a time that
    is not before the one the visit shows. *)
Definition seen (w : t) (v : Visit) : Prop :=
  walk_err v = None -> isSonicPiFile (path v) = true ->
  forall t1 : Time, info v = Ok t1 ->
    exists t0 : Time, lastModified w !! path v = Some t0 /\ t1 <= t0.

End Poller.

(** ** The option maps as shared objects

    A Go map is a reference. A [WatcherConfig] holds a pointer to its
    [Options], and a copy of the struct, such as [GetWatcherConfig]
    returns and [SetWatcherConfig] stores, shares the map with the
    original. [SetWatcherOption] writes through the pointer, so the write
    shows in every entry that holds the same map. Here the entries of
    the configuration manager are given with the map objects behind
    them. *)

Module SharedOptions.

(** [WatcherConfig] with [Options] as Go has it: nil, or a pointer to
    a map. *)
Record Config := mkConfig {
  Language : string;
  Environment : string;
  Enabled : bool;
  Options : option loc
}.

(** [cm.config.Watchers], and the maps that exist. *)
Record t := mk {
  Watchers : gmap string Config;
  maps : gmap loc (gmap string string)
}.

Definition GetWatcherConfig (name : string) (cm : t) : option Config :=
  Watchers cm !! name.

Definition SetWatcherConfig (name : string) (config : Config) (cm : t) : t :=
  mk (<[name := config]> (Watchers cm)) (maps cm).

(** The pointer that [make(map[string]string)] returns: one not in
    use. *)
Definition make (cm : t) : loc := fresh (dom (maps cm)).

Definition SetWatcherOption (watcherName optionName optionValue : string) (cm : t)
  : t * option error :=
  match Watchers cm !! watcherName with
  | None => (cm, Some (ConfigManager.not_found watcherName))
  | Some config =>
      let '(l, maps) :=
        match Options config with
        | None => let l := make cm in (l, <[l := ∅]> (maps cm))
        | Some l => (l, maps cm)
        end in
      let maps :=
        <[l := <[optionName := optionValue]> (default ∅ (maps !! l))]> maps in
      let config :=
        mkConfig (Language config) (Environment config) (Enabled config) (Some l) in
      (mk (<[watcherName := config]> (Watchers cm)) maps, None)
  end.

(** What [config.Options] holds, as reading it key by key shows; a nil
    map has no key. *)
Definition options (cm : t) (config : Config) : gmap string string :=
  match Options config with
  | None => ∅
  | Some l => default ∅ (maps cm !! l)
  end.

(** Every pointer held by an entry points to a map that exists. *)
Definition allocated (cm : t) : Prop :=
  forall name config l,
    Watchers cm !! name = Some config -> Options config = Some l ->
    is_Some (maps cm !! l).

(** The two configurations hold the same map. *)
Definition shared (config config' : Config) : bool :=
  match Options config, Options config' with
  | Some l, Some l' => bool_decide (l = l')
  | _, _ => false
  end.

End SharedOptions.

(** ** Command lcg: the helpers of the watch command *)

Module Watch.

Fixpoint contains (slice : list string) (item : string) : bool :=
  match slice with
  | [] => false
  | s :: rest => if String.eqb s item then true else contains rest item
  end.

(** The status [handleListWatchers] prints beside a watcher's name. *)
Definition status (enabledWatchers : list string) (name : string) : string :=
  if contains enabledWatchers name then "enabled" else "disabled".

End Watch.

(** ** Package storage: commits and the index

    [int] is taken as 64 bits wide. *)

Module StoredCommit.
Record t := mk {
  Hash : string;
  Parent : string;
  Timestamp : Time;
  Message : string;
  Author : string;
  Content : string;
  Metadata : ExecutionMetadata.t
}.
End StoredCommit.

Module Performance.
Record t := mk {
  ID : string;
  Name : string;
  StartTime : Time;
  EndTime : Time;
  CommitCount : Z;
  HeadCommit : string;
  Branch : string;
  Author : string;
  Description : string
}.
End Performance.

Module IndexEntry.
Record t := mk {
  Hash : string;
  Timestamp : Time;
  Message : string;
  Parent : string
}.
End IndexEntry.

(** What [os.ReadFile] gives: the error, split by [os.IsNotExist], or the
    bytes. *)
Inductive FileRead :=
| NotExist (err : error)
| ReadError (err : error)
| Data (data : string).

(** The disk and the clock behind a repository. A call takes the state
    [E] of the disk and gives its answer with the state afterwards. *)
Record Store (E : Type) := {
  (** [err == nil] for [os.Stat] of the repository directory under the path *)
  RepoDirExists : string -> E -> bool * E;
  (** reading the index file of the repository at the path *)
  ReadIndexFile : string -> E -> FileRead * E;
  (** [json.Unmarshal] into the entries of an index *)
  UnmarshalIndex : string -> result (list IndexEntry.t);
  (** [time.Now()] and [time.Now().String()] *)
  Now : E -> Time * E;
  NowString : E -> string * E;
  (** [GenerateHash]: the SHA-1 of the text, in hexadecimal *)
  GenerateHash : string -> string;
  WriteCommit : StoredCommit.t -> E -> option error * E;
  (** reading and decoding the object file of a hash of two bytes or
      more; for a shorter one see [Storage.ReadCommit] *)
  ReadCommit : string -> E -> result StoredCommit.t * E;
  (** [ListCommits] of the storage at the path: the hashes and the error *)
  ListCommits : string -> E -> list string * option error * E;
  (** [SaveIndex] of an index with these entries *)
  SaveIndex : list IndexEntry.t -> E -> option error * E;
  WriteHead : string -> E -> option error * E;
  WritePerformance : Performance.t -> E -> option error * E
}.
Arguments RepoDirExists {E}.
Arguments ReadIndexFile {E}.
Arguments UnmarshalIndex {E}.
Arguments Now {E}.
Arguments NowString {E}.
Arguments GenerateHash {E}.
Arguments WriteCommit {E}.
Arguments ReadCommit {E}.
Arguments ListCommits {E}.
Arguments SaveIndex {E}.
Arguments WriteHead {E}.
Arguments WritePerformance {E}.

(** The storage's own part in reading a commit. *)
Module Storage.

(** [ReadCommit]: it begins with [getObjectPath], whose [hash[:2]]
    panics on a hash of fewer than two bytes; [None] is that panic.
    What follows, the reading of the object file, is the store's. *)
Definition ReadCommit {E : Type} (st : Store E) (hash : string) (e : E)
  : option (result StoredCommit.t * E) :=
  if (String.length hash <? 2)%nat then None
  else Some (ReadCommit st hash e).

End Storage.

Module Index.

Record t := mk {
  Entries : list IndexEntry.t;
  (** the [repoPath] of the storage the index belongs to *)
  repoPath : string
}.

Definition set_Entries (entries : list IndexEntry.t) (idx : t) : t :=
  mk entries (repoPath idx).

Definition NewIndex (repoPath : string) : t := mk [] repoPath.

Section WithStore.
Context {E : Type} (st : Store E).

Definition LoadIndex (idx : t) (e : E) : t * E * option error :=
  let '(file, e) := ReadIndexFile st (repoPath idx) e in
  match file with
  | NotExist _ => (set_Entries [] idx, e, None)
  | ReadError err => (idx, e, Some (wrap_error "failed to read index: " err))
  | Data data =>
      if (String.length data =? 0)%nat || String.eqb data "{}" then
        (set_Entries [] idx, e, None)
      else
        match UnmarshalIndex st data with
        | Err err => (idx, e, Some (wrap_error "failed to unmarshal index: " err))
        | Ok entries => (set_Entries entries idx, e, None)
        end
  end.

Definition AddEntry (hash message parent : string) (timestamp : Time)
    (idx : t) (e : E) : t * E * option error :=
  let entry := IndexEntry.mk hash timestamp message parent in
  let idx := set_Entries (Entries idx ++ [entry]) idx in
  let '(r, e) := SaveIndex st (Entries idx) e in
  (idx, e, r).

End WithStore.

(** The loop of [GetOrderedCommits], [for i := len-1; i >= start; i--];
    [n] is [i + 1]. *)
Fixpoint GetOrderedCommits_loop (all : list IndexEntry.t) (start : Z) (n : nat)
    (entries : list IndexEntry.t) : list IndexEntry.t :=
  match n with
  | O => entries
  | S i =>
      if start <=? Z.of_nat i then
        match all !! i with
        | Some entry => GetOrderedCommits_loop all start i (entries ++ [entry])
        | None => entries
        end
      else entries
  end.

Definition GetOrderedCommits (limit : Z) (idx : t) : list IndexEntry.t :=
  let start := int64_wrap (Z.of_nat (length (Entries idx)) - limit) in
  let start := if start <? 0 then 0 else start in
  GetOrderedCommits_loop (Entries idx) start (length (Entries idx)) [].

Fixpoint GetEntry_range (entries : list IndexEntry.t) (hash : string)
  : option IndexEntry.t :=
  match entries with
  | [] => None
  | entry :: rest =>
      if String.eqb (IndexEntry.Hash entry) hash then Some entry
      else GetEntry_range rest hash
  end.

Definition GetEntry (hash : string) (idx : t) : option IndexEntry.t :=
  GetEntry_range (Entries idx) hash.

Definition GetHead (idx : t) : string :=
  match last (Entries idx) with
  | None => ""
  | Some entry => IndexEntry.Hash entry
  end.

(** The body of the inner loop of [RebuildIndex]: the exchange of the
    entries at [i] and [j] when the first is the later one. *)
Definition exchange (i j : nat) (entries : list IndexEntry.t) : list IndexEntry.t :=
  match entries !! i, entries !! j with
  | Some ei, Some ej =>
      if After (IndexEntry.Timestamp ei) (IndexEntry.Timestamp ej)
      then <[i := ej]> (<[j := ei]> entries)
      else entries
  | _, _ => entries
  end.

(** [for j := i + 1; j < n; j++] *)
Definition sort_inner (n i : nat) (entries : list IndexEntry.t) : list IndexEntry.t :=
  fold_left (fun es j => exchange i j es) (seq (S i) (n - S i)) entries.

(** [for i := 0; i < n - 1; i++], with [n] the number of entries *)
Definition sort_entries (entries : list IndexEntry.t) : list IndexEntry.t :=
  let n := length entries in
  fold_left (fun es i => sort_inner n i es) (seq 0 (n - 1)) entries.

Definition entry_of (commit : StoredCommit.t) : IndexEntry.t :=
  IndexEntry.mk (StoredCommit.Hash commit) (StoredCommit.Timestamp commit)
    (StoredCommit.Message commit) (StoredCommit.Parent commit).

Section Rebuild.
Context {E : Type} (st : Store E).

(** The first loop of [RebuildIndex], over the hashes. A hash that
    [ListCommits] gives is a directory name followed by a file name,
    two bytes or more, so [getObjectPath] does not panic here. *)
Fixpoint RebuildIndex_read (hashes : list string) (entries : list IndexEntry.t)
    (e : E) : list IndexEntry.t * E * option error :=
  match hashes with
  | [] => (entries, e, None)
  | hash :: rest =>
      let '(r, e) := ReadCommit st hash e in
      match r with
      | Err err =>
          (entries, e,
           Some (wrap_error ("failed to read commit " +:+ hash +:+ ": ") err))
      | Ok commit => RebuildIndex_read rest (entries ++ [entry_of commit]) e
      end
  end.

Definition RebuildIndex (idx : t) (e : E) : t * E * option error :=
  let '(hashes, err, e) := ListCommits st (repoPath idx) e in
  match err with
  | Some err => (idx, e, Some (wrap_error "failed to list commits: " err))
  | None =>
      match RebuildIndex_read hashes [] e with
      | (entries, e, Some err) => (set_Entries entries idx, e, Some err)
      | (entries, e, None) =>
          let idx := set_Entries (sort_entries entries) idx in
          let '(r, e) := SaveIndex st (Entries idx) e in
          (idx, e, r)
      end
  end.

End Rebuild.

(** Chronological order, as [RebuildIndex] leaves the entries. *)
Definition chronological (entries : list IndexEntry.t) : Prop :=
  forall i j ei ej, (i < j)%nat -> entries !! i = Some ei -> entries !! j = Some ej ->
    IndexEntry.Timestamp ei <= IndexEntry.Timestamp ej.

(** What the outer loop of the sort has reached before its pass [k]:
    the entries before [k] are in order and none after them is
    earlier. *)
Definition settled (k : nat) (es : list IndexEntry.t) : Prop :=
  forall a b ea eb, (a < k)%nat -> (a < b)%nat ->
    es !! a = Some ea -> es !! b = Some eb ->
    IndexEntry.Timestamp ea <= IndexEntry.Timestamp eb.

(** What the inner loop has reached before its step [j]: the entry at
    [i] is no later than those between [i] and [j]. *)
Definition least (i j : nat) (es : list IndexEntry.t) : Prop :=
  forall b ei eb, (i < b < j)%nat ->
    es !! i = Some ei -> es !! b = Some eb ->
    IndexEntry.Timestamp ei <= IndexEntry.Timestamp eb.

End Index.

(** ** Package core: the repository *)

Module Repository.

(** [LiveCodeRepository]. The storage is the package's
    [FileSystemStorage], given by its path, or nil; so is the index. *)
Record t := mk {
  path : string;
  storage : option string;
  index : option Index.t;
  currentPerformance : option Performance.t
}.

Definition set_index (idx : option Index.t) (repo : t) : t :=
  mk (path repo) (storage repo) idx (currentPerformance repo).

Definition set_currentPerformance (p : option Performance.t) (repo : t) : t :=
  mk (path repo) (storage repo) (index repo) p.

Definition NewRepository (path : string) : t :=
  mk path (Some path) (Some (Index.NewIndex path)) None.

(** The outcome of a method: a panic, or the repository and the disk
    afterwards with what the method returns. *)
Inductive outcome (E A : Type) :=
| Panic
| Return (repo : t) (e : E) (r : result A).
Arguments Panic {E A}.
Arguments Return {E A}.

Section WithStore.
Context {E : Type} (st : Store E).

Definition IsInitialized (repo : t) (e : E) : bool * E :=
  RepoDirExists st (path repo) e.

(** [if repo.index == nil { ... }], the block [Commit] and [Log]
    share: the index to work on, or the error of loading it; [None]
    is the panic of the type assertion on a nil storage. *)
Definition load_index (repo : t) (e : E) : option (t * E * result Index.t) :=
  match index repo with
  | Some idx => Some (repo, e, Ok idx)
  | None =>
      match storage repo with
      | None => None
      | Some repoPath =>
          let '(idx, e, r) := Index.LoadIndex st (Index.NewIndex repoPath) e in
          let repo := set_index (Some idx) repo in
          match r with
          | Some err => Some (repo, e, Err (wrap_error "failed to load index: " err))
          | None => Some (repo, e, Ok idx)
          end
      end
  end.

Definition Commit (content message : string) (metadata : ExecutionMetadata.t)
    (repo : t) (e : E) : outcome E StoredCommit.t :=
  let '(initialized, e) := IsInitialized repo e in
  if negb initialized then Return repo e (Err "repository not initialized")
  else
    match load_index repo e with
    | None => Panic
    | Some (repo, e, Err err) => Return repo e (Err err)
    | Some (repo, e, Ok idx) =>
        let '(now, e) := NowString st e in
        let hash := GenerateHash st (content +:+ message +:+ now) in
        let parentHash := Index.GetHead idx in
        let '(timestamp, e) := Now st e in
        let commit :=
          StoredCommit.mk hash parentHash timestamp message "livecoder"
            content metadata in
        match storage repo with
        | None => Panic
        | Some _ =>
            let '(r, e) := WriteCommit st commit e in
            match r with
            | Some err => Return repo e (Err (wrap_error "failed to write commit: " err))
            | None =>
                let '(idx, e, r) :=
                  Index.AddEntry st hash message parentHash timestamp idx e in
                let repo := set_index (Some idx) repo in
                match r with
                | Some err =>
                    Return repo e (Err (wrap_error "failed to update index: " err))
                | None =>
                    let '(r, e) := WriteHead st hash e in
                    match r with
                    | Some err =>
                        Return repo e (Err (wrap_error "failed to update HEAD: " err))
                    | None =>
                        match currentPerformance repo with
                        | None => Return repo e (Ok commit)
                        | Some p =>
                            let p :=
                              Performance.mk (Performance.ID p) (Performance.Name p)
                                (Performance.StartTime p) (Performance.EndTime p)
                                (int64_incr (Performance.CommitCount p)) hash
                                (Performance.Branch p) (Performance.Author p)
                                (Performance.Description p) in
                            let repo := set_currentPerformance (Some p) repo in
                            let '(r, e) := WritePerformance st p e in
                            match r with
                            | Some err =>
                                Return repo e
                                  (Err (wrap_error "failed to update performance: " err))
                            | None => Return repo e (Ok commit)
                            end
                        end
                    end
                end
            end
        end
    end.

(** The loop of [Log] over the entries; [None] is a panic of
    [ReadCommit]. *)
Fixpoint Log_range (entries : list IndexEntry.t) (commits : list StoredCommit.t)
    (e : E) : option (result (list StoredCommit.t) * E) :=
  match entries with
  | [] => Some (Ok commits, e)
  | entry :: rest =>
      match Storage.ReadCommit st (IndexEntry.Hash entry) e with
      | None => None
      | Some (Err err, e) =>
          Some (Err (wrap_error
                       ("failed to read commit " +:+ IndexEntry.Hash entry +:+ ": ")
                       err), e)
      | Some (Ok commit, e) => Log_range rest (commits ++ [commit]) e
      end
  end.

Definition Log (limit : Z) (repo : t) (e : E) : outcome E (list StoredCommit.t) :=
  let '(initialized, e) := IsInitialized repo e in
  if negb initialized then Return repo e (Err "repository not initialized")
  else
    match load_index repo e with
    | None => Panic
    | Some (repo, e, Err err) => Return repo e (Err err)
    | Some (repo, e, Ok idx) =>
        let limit := if limit <=? 0 then 50 else limit in
        let entries := Index.GetOrderedCommits limit idx in
        match entries, storage repo with
        | _ :: _, None => Panic
        | _, _ =>
            match Log_range entries [] e with
            | None => Panic
            | Some (r, e) => Return repo e r
            end
        end
    end.

End WithStore.

(** Each entry names the one before it as its parent, and the first
    has none. *)
Fixpoint chained (parent : string) (entries : list IndexEntry.t) : Prop :=
  match entries with
  | [] => True
  | entry :: rest =>
      IndexEntry.Parent entry = parent /\ chained (IndexEntry.Hash entry) rest
  end.

End Repository.

(** ** Concrete collaborators for the examples *)

Module Fixtures.

(** Stand-ins for the library functions. *)
Definition lib0 : GoLib := {|
  TrimSpace := fun s => s;
  FindStringSubmatch := fun _ _ => [];
  ParseFloat := fun _ => None;
  Split := fun s _ => [s];
  Seconds := fun _ => 0%float;
  int64_of_float := fun _ => 0;
  format_float4 := fun _ => "0.0000";
  format_clock := fun _ => "00:00:00";
  format_duration := fun _ => "1s"
|}.

(** A commit store that keeps the commits in a list and refuses empty
    content, and templates that render to their own text followed by the
    language; the empty template fails. *)
Definition store0 : Collaborators (list (string * string)) string := {|
  Execute := fun tmpl data =>
    if String.eqb tmpl "" then Err "incomplete or empty template"
    else Ok (tmpl +:+ TemplateData.Language data);
  Commit := fun repo content message _ =>
    if String.eqb content "" then (repo, Some "repository not initialized")
    else (repo ++ [(content, message)], None)
|}.

(** A world in which the directory [/missing] does not exist, only the
    port 4559 is free, closing a socket fails, and GHCi starts. *)
Definition world0 : Outside unit := {|
  time_Now := fun e => (1000, e);
  Stat_IsNotExist := fun p e => (String.eqb p "/missing", e);
  WalkDir := fun _ e => ([], e);
  ResolveUDPAddr := fun _ e => (None, e);
  ListenUDP := fun port e =>
    (if port =? 4559 then Ok (udp 3) else Err "bind: address already in use", e);
  Close := fun _ e => (Some "use of closed network connection", e);
  StdinPipe := fun _ e => (Ok (pipe 4), e);
  StdoutPipe := fun _ e => (Ok (pipe 5), e);
  StderrPipe := fun _ e => (Ok (pipe 6), e);
  CmdStart := fun _ e => (Ok 4242, e)
|}.

Definition event0 : ExecutionEvent.t :=
  ExecutionEvent.mk 77 "test code" "test-buffer" "sonicpi" "sonic-pi"
    true "" 0%float 0 "" 0 0 ∅.

(** A service after [Initialize] with the default configuration. *)
Definition service0 : WatcherService.t (list (string * string)) string :=
  WatcherService.mk
    (WatcherManager.SetCallback (Some WatcherService.handler)
       WatcherManager.NewWatcherManager)
    (ConfigManager.NewConfigManager "watchers.json")
    [] false true (Some "Auto-commit: ") 0 0 0.

(** The OSC watcher of the service, started on the free port. *)
Definition osc_running : OSCWatcher.t :=
  (OSCWatcher.Start world0 (Some WatcherService.handler)
     (OSCWatcher.NewOSCWatcher 4559 "") tt).1.1.

(** A running service whose registry holds that watcher. *)
Definition service_osc : WatcherService.t (list (string * string)) string :=
  WatcherService.mk
    (WatcherManager.mk (<["sonicpi-osc" := 1%positive]> ∅)
       (Some WatcherService.handler) false)
    (ConfigManager.NewConfigManager "watchers.json")
    [] true true (Some "Auto-commit: ") 0 0 0.

Definition sys_osc : Sys.t Concrete unit :=
  Sys.mk (fun _ => COSC osc_running) tt.

(** The service of the test [TestWatcherServiceStats]: not running,
    after [EnableWatcher] of the OSC watcher. *)
Definition service_enabled : WatcherService.t (list (string * string)) string :=
  (WatcherService.EnableWatcher None "sonicpi-osc" service0).1.

(** A workspace with one buffer file and a directory that cannot be
    read, as the first scan and as a later tick see it. *)
Definition walk_first : list Visit :=
  [ mkVisit "/ws" None (Ok 5) (Err "is a directory");
    mkVisit "/ws/old.rb" None (Ok 3) (Err "is a directory");
    mkVisit "/ws/old.rb" (Some "permission denied") (Err "no entry")
            (Err "is a directory");
    mkVisit "/ws/workspace_0" None (Ok 10) (Ok "play 50") ].

Definition walk_changed : list Visit :=
  [ mkVisit "/ws" None (Ok 5) (Err "is a directory");
    mkVisit "/ws/old.rb" None (Ok 3) (Err "is a directory");
    mkVisit "/ws/old.rb" (Some "permission denied") (Err "no entry")
            (Err "is a directory");
    mkVisit "/ws/workspace_0" None (Ok 20) (Ok "play 60") ].

Definition world_files : Outside unit := {|
  time_Now := fun e => (1000, e);
  Stat_IsNotExist := fun p e => (false, e);
  WalkDir := fun _ e => (walk_first, e);
  ResolveUDPAddr := fun _ e => (None, e);
  ListenUDP := fun port e => (Ok (udp 3), e);
  Close := fun _ e => (None, e);
  StdinPipe := fun _ e => (Ok (pipe 4), e);
  StdoutPipe := fun _ e => (Ok (pipe 5), e);
  StderrPipe := fun _ e => (Ok (pipe 6), e);
  CmdStart := fun _ e => (Ok 4242, e)
|}.

(** The file watcher after [Start] in that workspace. *)
Definition file_started : FileWatcher.t :=
  (FileWatcher.Start world_files (Some (Func 1))
     (FileWatcher.NewFileWatcher "/ws") tt).1.1.

(** Two watchers behind the manager, in the order the loop visits
    them: the OSC watcher on the busy port 4560, then the GHCi watcher. *)
Definition manager_two : WatcherManager.t :=
  WatcherManager.RegisterWatcher "tidal-ghci" 2%positive
    (WatcherManager.RegisterWatcher "sonicpi-osc" 1%positive
       (WatcherManager.SetCallback (Some WatcherService.handler)
          WatcherManager.NewWatcherManager)).

Definition order_two : list (string * loc) :=
  [("sonicpi-osc", 1%positive); ("tidal-ghci", 2%positive)].

Definition sys_two : Sys.t Concrete unit :=
  Sys.mk (fun l => if decide (l = 1%positive)
                   then COSC (OSCWatcher.NewOSCWatcher 4560 "")
                   else CGHCi GHCiWatcher.NewGHCiWatcher) tt.

(** The file watcher of a workspace that does not exist, then the GHCi
    watcher. *)
Definition manager_files : WatcherManager.t :=
  WatcherManager.RegisterWatcher "tidal-ghci" 2%positive
    (WatcherManager.RegisterWatcher "sonicpi-files" 1%positive
       (WatcherManager.SetCallback (Some WatcherService.handler)
          WatcherManager.NewWatcherManager)).

Definition order_files : list (string * loc) :=
  [("sonicpi-files", 1%positive); ("tidal-ghci", 2%positive)].

Definition sys_files : Sys.t Concrete unit :=
  Sys.mk (fun l => if decide (l = 1%positive)
                   then CFile (FileWatcher.NewFileWatcher "/missing")
                   else CGHCi GHCiWatcher.NewGHCiWatcher) tt.

(** The end-to-end scenario of the specification: mock watchers [A],
    enabled, and [B], disabled. *)
Definition manager_AB : WatcherManager.t :=
  WatcherManager.RegisterWatcher "B" 2%positive
    (WatcherManager.RegisterWatcher "A" 1%positive
       (WatcherManager.SetCallback (Some (Func 7))
          WatcherManager.NewWatcherManager)).

Definition order_AB : list (string * loc) :=
  [("A", 1%positive); ("B", 2%positive)].

Definition sys_AB : Sys.t MockWatcher.t unit :=
  Sys.mk (fun l => MockWatcher.mk
                     (WatcherConfig.mk "test" "test-env"
                        (bool_decide (l = 1%positive)) ∅)
                     false None) tt.

(** The registry of [service_osc] with a running GHCi watcher as well:
    the OSC watcher, whose socket fails to close, comes first. *)
Definition manager_running : WatcherManager.t :=
  WatcherManager.set_running true manager_two.

Definition sys_running : Sys.t Concrete unit :=
  Sys.mk (fun l => if decide (l = 1%positive)
                   then COSC osc_running
                   else CGHCi (GHCiWatcher.Start world0 (Some WatcherService.handler)
                                 GHCiWatcher.NewGHCiWatcher tt).1.1) tt.

(** Two commits in storage, the later one listed first. *)
Definition commit_a : StoredCommit.t :=
  StoredCommit.mk "a3f1c9" "" 100 "first" "livecoder" "play 60"
    (ExecutionMetadata.mk "main" "sonicpi" 0%float 0 true "" "sonic-pi").

Definition commit_b : StoredCommit.t :=
  StoredCommit.mk "b7e204" "a3f1c9" 200 "second" "livecoder" "play 72"
    (ExecutionMetadata.mk "main" "sonicpi" 0%float 0 true "" "sonic-pi").

(** A disk on which the repository directory exists, the index file
    does not, the two commits can be read and every write succeeds. *)
Definition disk0 : Store unit := {|
  RepoDirExists := fun _ e => (true, e);
  ReadIndexFile := fun _ e => (NotExist "no such file or directory", e);
  UnmarshalIndex := fun _ => Err "unexpected end of JSON input";
  Now := fun e => (300, e);
  NowString := fun e => ("300", e);
  GenerateHash := fun text => "sha1:" +:+ text;
  WriteCommit := fun _ e => (None, e);
  ReadCommit := fun hash e =>
    (if String.eqb hash "a3f1c9" then Ok commit_a
     else if String.eqb hash "b7e204" then Ok commit_b
     else Err "commit not found", e);
  ListCommits := fun _ e => (["b7e204"; "a3f1c9"], None, e);
  SaveIndex := fun _ e => (None, e);
  WriteHead := fun _ e => (None, e);
  WritePerformance := fun _ e => (None, e)
|}.

(** The index of the two commits and a repository that has loaded it. *)
Definition index_ab : Index.t :=
  Index.mk [Index.entry_of commit_a; Index.entry_of commit_b] "/repo".

Definition repo_ab : Repository.t :=
  Repository.mk "/repo" (Some "/repo") (Some index_ab) None.

(** A walk that shows one buffer file, changed since [walk_first]. *)
Definition walk_one : list Visit :=
  [ mkVisit "/ws/workspace_0" None (Ok 20) (Ok "play 60") ].

(** A service that is not running, with the OSC watcher enabled in its
    configuration and the two watchers of [manager_two] registered;
    the OSC watcher listens on the free port. *)
Definition service_ready : WatcherService.t (list (string * string)) string :=
  WatcherService.mk manager_two (WatcherService.configManager service_enabled)
    [] false true (Some "Auto-commit: ") 0 0 0.

Definition sys_free : Sys.t Concrete unit :=
  Sys.mk (fun l => if decide (l = 1%positive)
                   then COSC (OSCWatcher.NewOSCWatcher 4559 "")
                   else CGHCi GHCiWatcher.NewGHCiWatcher) tt.

(** The GHCi watcher after [Start], and after it has then read a line
    that evaluates a pattern on the first connection. *)
Definition ghci_running : GHCiWatcher.t :=
  (GHCiWatcher.Start world0 (Some WatcherService.handler)
     GHCiWatcher.NewGHCiWatcher tt).1.1.

Definition ghci_playing : GHCiWatcher.t :=
  (GHCiWatcher.processOutputLine lib0 1000 "d1 $ s bd" ghci_running).1.

(** Library functions that find a tempo of 140 in every text. *)
Definition lib_tempo : GoLib := {|
  TrimSpace := fun s => s;
  FindStringSubmatch := fun _ _ => ["bpm 140"; "140"];
  ParseFloat := fun _ => Some 140%float;
  Split := fun s _ => [s];
  Seconds := fun _ => 0%float;
  int64_of_float := fun _ => 0;
  format_float4 := fun _ => "0.0000";
  format_clock := fun _ => "00:00:00";
  format_duration := fun _ => "1s"
|}.

(** Two entries that hold the same option map: the configuration of
    [sonicpi-osc] is read with [GetWatcherConfig] and stored again
    under [backup] with [SetWatcherConfig]. *)
Definition shared_osc : SharedOptions.Config :=
  SharedOptions.mkConfig "sonicpi" "sonic-pi" false (Some 1%positive).

Definition shared_base : SharedOptions.t :=
  SharedOptions.mk (<["sonicpi-osc" := shared_osc]> ∅)
    (<[1%positive := <["osc_port" := "4559"]> ∅]> ∅).

Definition shared_two : SharedOptions.t :=
  match SharedOptions.GetWatcherConfig "sonicpi-osc" shared_base with
  | Some config => SharedOptions.SetWatcherConfig "backup" config shared_base
  | None => shared_base
  end.

End Fixtures.

(** * Properties *)

(** ** Strings and the character classes *)

Module StringFacts.
Import Strings Regexp.

Lemma app_cons (a : ascii) (s t : string) :
  String a s +:+ t = String a (s +:+ t).
Proof. reflexivity. Qed.

Lemma app_nil_r (s : string) : s +:+ "" = s.
Proof. induction s as [|a s IH]; [done | by rewrite app_cons, IH]. Qed.

Lemma app_assoc (s t u : string) : (s +:+ t) +:+ u = s +:+ (t +:+ u).
Proof. induction s as [|a s IH]; [done | by rewrite !app_cons, IH]. Qed.

Lemma app_snoc (s t : string) (c : ascii) :
  (s +:+ String c "") +:+ t = s +:+ String c t.
Proof. by rewrite app_assoc. Qed.

Lemma ascii_eqb_true (a b : ascii) : Ascii.eqb a b = true <-> a = b.
Proof. apply Ascii.eqb_eq. Qed.

Lemma HasPrefix_spec (p s : string) :
  HasPrefix s p = true <-> exists post, s = p +:+ post.
Proof.
  revert s. induction p as [|a p IH]; intros s; simpl.
  - split; [intros _; exists s; reflexivity | done].
  - destruct s as [|b s].
    + split; [done | intros [post Hpost]; discriminate].
    + destruct (Ascii.eqb a b) eqn:Hab.
      * apply ascii_eqb_true in Hab as ->. rewrite IH. split.
        -- intros [post ->]. exists post. reflexivity.
        -- intros [post Hpost]. exists post. rewrite app_cons in Hpost.
           by injection Hpost.
      * split; [done |]. intros [post Hpost]. rewrite app_cons in Hpost.
        injection Hpost as -> _. by rewrite Ascii.eqb_refl in Hab.
Qed.

Lemma Contains_spec (sub s : string) :
  Contains s sub = true <-> substring sub s.
Proof.
  unfold substring. induction s as [|a s IH].
  - simpl. destruct (HasPrefix "" sub) eqn:Hp.
    + split; [intros _ | done]. apply HasPrefix_spec in Hp as [post Hpost].
      by exists "", post.
    + split; [done |]. intros ([|b pre] & post & Heq); [|discriminate].
      assert (HasPrefix "" sub = true) as Hp'
        by (apply HasPrefix_spec; by exists post).
      congruence.
  - cbn [Contains]. destruct (HasPrefix (String a s) sub) eqn:Hp.
    + split; [intros _ | done]. apply HasPrefix_spec in Hp as [post Hpost].
      by exists "", post.
    + rewrite IH. split.
      * intros (pre & post & ->). by exists (String a pre), post.
      * intros ([|b pre] & post & Heq).
        -- assert (HasPrefix (String a s) sub = true) as Hp'
             by (apply HasPrefix_spec; by exists post).
           congruence.
        -- injection Heq as -> ->. by exists pre, post.
Qed.

Lemma is_digit_word (c : ascii) : is_digit c = true -> is_word c = true.
Proof. unfold is_word. by intros ->. Qed.

Lemma span_digits_app (s ds tl : string) :
  span_digits s = (ds, tl) -> s = ds +:+ tl /\ all_digits ds = true.
Proof.
  revert ds tl. induction s as [|c s IH]; intros ds tl; simpl.
  - by intros [= <- <-].
  - destruct (is_digit c) eqn:Hc.
    + destruct (span_digits s) as [ds' tl'] eqn:Hs. intros [= <- <-].
      destruct (IH _ _ eq_refl) as [-> Hall]. simpl. by rewrite Hc.
    + by intros [= <- <-].
Qed.

Lemma span_digits_unique (ds post : string) :
  all_digits ds = true -> starts_nonword post = true ->
  span_digits (ds +:+ post) = (ds, post).
Proof.
  intros Hall Hpost. induction ds as [|c ds IH]; simpl in *.
  - destruct post as [|b post]; [done |]. simpl in *.
    destruct (is_digit b) eqn:Hb; [|done].
    apply is_digit_word in Hb. by rewrite Hb in Hpost.
  - apply andb_prop in Hall as [Hc Hall]. by rewrite Hc, IH.
Qed.

Lemma ends_nonword_snoc (pre : string) (c : ascii) :
  ends_nonword (pre +:+ String c "") = negb (is_word c).
Proof.
  induction pre as [|a pre IH]; [done |].
  change (String a pre +:+ String c "") with (String a (pre +:+ String c "")).
  destruct pre as [|b pre]; [done |]. exact IH.
Qed.

End StringFacts.

(** ** The GHCi watcher's connection extraction *)

Module TidalFacts.
Import Strings Regexp Tidal StringFacts.

Lemma match_connection_here_Some (s m : string) :
  match_connection_here s = Some m ->
  exists ds post, s = String "d" ds +:+ post /\ m = String "d" ds /\
    ds <> "" /\ all_digits ds = true /\ starts_nonword post = true.
Proof.
  destruct s as [|c rest]; [done |]. simpl.
  destruct (Ascii.eqb c "d") eqn:Hc; [|done].
  apply ascii_eqb_true in Hc as ->.
  destruct (span_digits rest) as [ds tl] eqn:Hs.
  destruct (span_digits_app _ _ _ Hs) as [-> Hall].
  destruct ds as [|a ds]; [done |].
  destruct (starts_nonword tl) eqn:Htl; [|done].
  intros [= <-]. by exists (String a ds), tl.
Qed.

Lemma match_connection_here_marker (ds post : string) :
  ds <> "" -> all_digits ds = true -> starts_nonword post = true ->
  match_connection_here (String "d" ds +:+ post) = Some (String "d" ds).
Proof.
  intros Hne Hall Hpost. simpl.
  rewrite (span_digits_unique _ _ Hall Hpost).
  destruct ds; [done |]. by rewrite Hpost.
Qed.

Lemma find_connection_step (pre : string) (c : ascii) (rest : string) :
  find_connection (is_word c) rest =
  find_connection (negb (ends_nonword (pre +:+ String c ""))) rest.
Proof. by rewrite ends_nonword_snoc, negb_involutive. Qed.

Lemma find_connection_Some (s : string) : forall pre m,
  find_connection (negb (ends_nonword pre)) s = Some m ->
  exists p ds post, s = p +:+ String "d" ds +:+ post /\ m = String "d" ds /\
    marker_at (pre +:+ p) ds post.
Proof.
  induction s as [|c rest IH]; intros pre m; [done |].
  cbn [find_connection].
  destruct (ends_nonword pre) eqn:Hpre; cbn [negb];
    [destruct (match_connection_here (String c rest)) as [m'|] eqn:Hm |].
  - intros [= <-].
    destruct (match_connection_here_Some _ _ Hm)
      as (ds & post & Heq & -> & Hne & Hall & Hpost).
    exists "", ds, post. rewrite app_nil_r. by repeat split.
  - rewrite (find_connection_step pre). intros Hf.
    destruct (IH _ _ Hf) as (p & ds & post & -> & -> & Hmk).
    exists (String c p), ds, post. by rewrite app_snoc in Hmk.
  - rewrite (find_connection_step pre). intros Hf.
    destruct (IH _ _ Hf) as (p & ds & post & -> & -> & Hmk).
    exists (String c p), ds, post. by rewrite app_snoc in Hmk.
Qed.

(** The match found is a marker of the text, and no marker starts
    before it. *)
Lemma find_connection_leftmost (s : string) : forall pre m,
  find_connection (negb (ends_nonword pre)) s = Some m ->
  exists p ds post, s = p +:+ String "d" ds +:+ post /\ m = String "d" ds /\
    marker_at (pre +:+ p) ds post /\
    forall p' ds' post', s = p' +:+ String "d" ds' +:+ post' ->
      marker_at (pre +:+ p') ds' post' ->
      (String.length p <= String.length p')%nat.
Proof.
  induction s as [|c rest IH]; intros pre m; [done |].
  cbn [find_connection].
  destruct (ends_nonword pre) eqn:Hpre; cbn [negb];
    [destruct (match_connection_here (String c rest)) as [m'|] eqn:Hm |].
  - intros [= <-].
    destruct (match_connection_here_Some _ _ Hm)
      as (ds & post & Heq & -> & Hne & Hall & Hpost).
    exists "", ds, post. rewrite app_nil_r.
    repeat split; try done. intros; cbn; lia.
  - rewrite (find_connection_step pre). intros Hf.
    destruct (IH _ _ Hf) as (p & ds & post & -> & -> & Hmk & Hleft).
    exists (String c p), ds, post. rewrite app_snoc in Hmk.
    repeat split; try done; try apply Hmk.
    intros [|a p'] ds' post' Heq Hmk'.
    + exfalso. change (String c (p +:+ String "d" ds +:+ post)
                       = String "d" ds' +:+ post') in Heq.
      destruct Hmk' as (Hne' & Hall' & _ & Hpost').
      rewrite Heq in Hm.
      by rewrite (match_connection_here_marker _ _ Hne' Hall' Hpost') in Hm.
    + injection Heq as <- Heq. cbn. apply le_n_S.
      apply (Hleft p' ds' post' Heq). by rewrite app_snoc.
  - rewrite (find_connection_step pre). intros Hf.
    destruct (IH _ _ Hf) as (p & ds & post & -> & -> & Hmk & Hleft).
    exists (String c p), ds, post. rewrite app_snoc in Hmk.
    repeat split; try done; try apply Hmk.
    intros [|a p'] ds' post' Heq Hmk'.
    + exfalso. destruct Hmk' as (_ & _ & Hpre' & _).
      rewrite app_nil_r in Hpre'. congruence.
    + injection Heq as <- Heq. cbn. apply le_n_S.
      apply (Hleft p' ds' post' Heq). by rewrite app_snoc.
Qed.

Lemma find_connection_None (s : string) : forall pre,
  find_connection (negb (ends_nonword pre)) s = None ->
  forall p ds post, s = p +:+ String "d" ds +:+ post ->
    ~ marker_at (pre +:+ p) ds post.
Proof.
  induction s as [|c rest IH]; intros pre Hf p ds post Heq Hmk.
  - by destruct p.
  - cbn [find_connection] in Hf. destruct p as [|a p].
    + change (String c rest = String "d" ds +:+ post) in Heq.
      rewrite app_nil_r in Hmk. destruct Hmk as (Hne & Hall & Hpre & Hpost).
      rewrite Hpre, Heq in Hf. cbn [negb] in Hf.
      by rewrite (match_connection_here_marker _ _ Hne Hall Hpost) in Hf.
    + injection Heq as -> ->.
      assert (find_connection (is_word a)
                (p +:+ String "d" ds +:+ post) = None) as Hf'.
      { destruct (if negb (ends_nonword pre) then None
                  else match_connection_here _); [done | exact Hf]. }
      rewrite (find_connection_step pre) in Hf'.
      apply (IH _ Hf' p ds post eq_refl). by rewrite app_snoc.
Qed.

(** The search decides the presence of a marker. *)
Lemma find_connection_has_marker (s : string) :
  has_marker s <-> exists m, find_connection false s = Some m.
Proof.
  split.
  - intros (pre & ds & post & Heq & Hmk).
    destruct (find_connection false s) as [m|] eqn:Hf; [by exists m |].
    exfalso. by apply (find_connection_None s "" Hf pre ds post Heq).
  - intros [m Hf].
    destruct (find_connection_Some s "" m Hf) as (p & ds & post & Heq & _ & Hmk).
    by exists p, ds, post.
Qed.

Lemma find_connection_no_marker (s : string) :
  find_connection false s = None -> ~ has_marker s.
Proof. intros Hf [m Hm]%find_connection_has_marker. congruence. Qed.

Lemma extractConnection_found (s m : string) :
  find_connection false s = Some m -> extractConnection s = m.
Proof. unfold extractConnection, connection_submatch. by intros ->. Qed.

Lemma extractConnection_not_found (s : string) :
  find_connection false s = None ->
  extractConnection s = if Contains s "hush" then "all" else "unknown".
Proof. unfold extractConnection, connection_submatch. by intros ->. Qed.

End TidalFacts.

Example extractConnection_d1 : Tidal.extractConnection "d1 $ sound bd" = "d1".
Proof. reflexivity. Qed.

Example extractConnection_hush : Tidal.extractConnection "hush" = "all".
Proof. reflexivity. Qed.

Example extractConnection_leftmost :
  Tidal.extractConnection "xd1 d2x d12, silence" = "d12".
Proof. reflexivity. Qed.

Example extractConnection_unknown : Tidal.extractConnection "silence d_1" = "unknown".
Proof. reflexivity. Qed.

(** C4, as the specification states it, fails: on the text [d1 $ hush],
    which contains the stop-all marker, [extractConnection] returns [d1]
    and not [all], because the numbered-pattern search comes first. *)
Lemma extractConnection_hush_after_marker :
  ~ (forall content : string,
       Strings.substring "hush" content -> Tidal.extractConnection content = "all").
Proof.
  intros Hall. specialize (Hall "d1 $ hush").
  assert (Strings.substring "hush" "d1 $ hush") as Hsub
    by (exists "d1 $ ", ""; reflexivity).
  apply Hall in Hsub. vm_compute in Hsub. discriminate.
Qed.

(** C4, amended: [extractConnection] returns the first numbered-pattern
    marker of the text when the text has one; when it has none it returns
    [all] for a text containing [hush] and [unknown] for a text that does
    not. *)
Theorem extractConnection_cases (content : string) :
  (Tidal.has_marker content ->
     exists pre ds post,
       content = pre +:+ String "d" ds +:+ post /\
       Tidal.marker_at pre ds post /\
       (forall pre' ds' post',
          content = pre' +:+ String "d" ds' +:+ post' ->
          Tidal.marker_at pre' ds' post' ->
          (String.length pre <= String.length pre')%nat) /\
       Tidal.extractConnection content = String "d" ds) /\
  (~ Tidal.has_marker content -> Strings.substring "hush" content ->
     Tidal.extractConnection content = "all") /\
  (~ Tidal.has_marker content -> ~ Strings.substring "hush" content ->
     Tidal.extractConnection content = "unknown").
Proof.
  destruct (Tidal.find_connection false content) as [m|] eqn:Hf.
  - assert (Tidal.has_marker content) as Hm
      by (apply TidalFacts.find_connection_has_marker; eauto).
    split; [intros _ | split; intros Hn; by destruct Hn].
    destruct (TidalFacts.find_connection_leftmost content "" m Hf)
      as (p & ds & post & Heq & -> & Hmk & Hleft).
    exists p, ds, post. by rewrite (TidalFacts.extractConnection_found _ _ Hf).
  - pose proof (TidalFacts.find_connection_no_marker _ Hf) as Hn.
    rewrite (TidalFacts.extractConnection_not_found _ Hf).
    split; [intros Hm; by destruct Hn |].
    split; intros _ Hsub.
    + apply StringFacts.Contains_spec in Hsub. by rewrite Hsub.
    + destruct (Strings.Contains content "hush") eqn:Hc; [|done].
      apply StringFacts.Contains_spec in Hc. by destruct Hsub.
Qed.

Lemma extractConnection_cases_witness :
  Tidal.extractConnection "hush" = "all" /\
  Tidal.extractConnection "silence" = "unknown" /\
  exists pre ds post,
    "d1 $ hush" = pre +:+ String "d" ds +:+ post /\
    Tidal.marker_at pre ds post /\
    (forall pre' ds' post',
       "d1 $ hush" = pre' +:+ String "d" ds' +:+ post' ->
       Tidal.marker_at pre' ds' post' ->
       (String.length pre <= String.length pre')%nat) /\
    Tidal.extractConnection "d1 $ hush" = String "d" ds.
Proof.
  split; [|split].
  - apply (extractConnection_cases "hush").
    + apply TidalFacts.find_connection_no_marker. reflexivity.
    + exists "", "". reflexivity.
  - apply (extractConnection_cases "silence").
    + apply TidalFacts.find_connection_no_marker. reflexivity.
    + intros Hsub%StringFacts.Contains_spec. vm_compute in Hsub. discriminate.
  - apply (extractConnection_cases "d1 $ hush").
    apply TidalFacts.find_connection_has_marker. exists "d1". reflexivity.
Defined.

(** ** Ranging over a map *)

Module RangeFacts.

Lemma range_order_map_to_list {V : Type} (m : gmap string V) :
  range_order m (map_to_list m).
Proof. by unfold range_order. Qed.

Lemma range_order_elem_of {V : Type} (m : gmap string V)
    (order : list (string * V)) (k : string) (v : V) :
  range_order m order -> ((k, v) ∈ order <-> m !! k = Some v).
Proof. unfold range_order. intros ->. apply elem_of_map_to_list. Qed.

Lemma range_filter_length {V : Type} (P : string * V -> Prop)
    `{!forall x, Decision (P x)} (m : gmap string V) (order : list (string * V)) :
  range_order m order -> length (filter P order) = size (filter P m).
Proof.
  unfold range_order. intros Hord.
  rewrite Hord, map_filter_alt, map_size_list_to_map; [done |].
  apply (sublist_NoDup _ ((map_to_list m).*1)); [apply NoDup_fst_map_to_list |].
  apply fmap_sublist, sublist_filter.
Qed.

End RangeFacts.

(** ** The service *)

Module ServiceFacts.
Import WatcherService.

Lemma int64_incr_succ (z : Z) :
  - 2 ^ 63 <= z < 2 ^ 63 - 1 -> int64_incr z = z + 1.
Proof.
  intros Hz. unfold int64_incr, int64_wrap.
  rewrite Z.mod_small; lia.
Qed.

Lemma int64_incr_range (z : Z) : int64_range (int64_incr z).
Proof.
  unfold int64_range, int64_incr, int64_wrap.
  pose proof (Z.mod_pos_bound (z + 1 + 2 ^ 63) (2 ^ 64)). lia.
Qed.

Lemma int64_incr_max : int64_incr (2 ^ 63 - 1) = - 2 ^ 63.
Proof. reflexivity. Qed.

Section Handle.
Context {Repo Template : Type} (ext : Collaborators Repo Template) (lib : GoLib).

Lemma createAutoCommit_made (event : ExecutionEvent.t)
    (ws : WatcherService.t Repo Template) :
  autoCommit ws = true ->
  (commit_made ext lib event ws <->
   exists ws', createAutoCommit ext lib event ws = Some (ws', None)).
Proof.
  intros Hauto. unfold commit_made, createAutoCommit, generateCommitMessage.
  destruct (commitMessageTmpl ws) as [tmpl|].
  2:{ split; [intros (_ & ? & ? & ? & _); done | intros [? ?]; done]. }
  destruct (Execute ext tmpl (template_data lib event)) as [message|e] eqn:Hex.
  2:{ split; [|intros [? ?]; done].
      intros (_ & tmpl' & message' & [= <-] & Hex' & _). congruence. }
  destruct (Commit ext (repository ws) (ExecutionEvent.Content event) message
              (ExecutionEvent.ToExecutionMetadata event)) as [repo' r] eqn:Hc.
  destruct r as [e|].
  - split; [|intros [? ?]; done].
    intros (_ & tmpl' & message' & [= <-] & Hex' & Hc').
    rewrite Hex in Hex'. injection Hex' as <-. by rewrite Hc in Hc'.
  - split; [eauto |]. intros _. split; [done |].
    exists tmpl, message. by rewrite Hex, Hc.
Qed.

Lemma createAutoCommit_counters (event : ExecutionEvent.t)
    (ws ws' : WatcherService.t Repo Template) (r : option error) :
  createAutoCommit ext lib event ws = Some (ws', r) ->
  totalExecutions ws' = totalExecutions ws /\
  totalCommits ws' = totalCommits ws /\
  lastExecution ws' = lastExecution ws /\
  autoCommit ws' = autoCommit ws.
Proof.
  unfold createAutoCommit.
  destruct (generateCommitMessage ext lib event ws) as [[message|e]|]; [| |done].
  - destruct (Commit ext _ _ _ _) as [repo' [e|]]; by intros [= <- <-].
  - by intros [= <- <-].
Qed.

End Handle.

End ServiceFacts.

Section Service.
Import WatcherService.

Section HandleExecutionEvent.
Context {Repo Template : Type} (ext : Collaborators Repo Template) (lib : GoLib).

(** C1. One call of [handleExecutionEvent] increments the total-executions
    counter once (in [int64] arithmetic, hence by one below the largest
    [int64]) and records the event's timestamp, whatever the auto-commit
    flag; it increments the total-commits counter when auto-commit is on,
    the template renders and [Commit] succeeds, and leaves it unchanged
    otherwise. *)
Theorem handleExecutionEvent_counters (event : ExecutionEvent.t)
    (ws : WatcherService.t Repo Template) :
  let ws' := (handleExecutionEvent ext lib event ws).1.1 in
  totalExecutions ws' = int64_incr (totalExecutions ws) /\
  lastExecution ws' = ExecutionEvent.Timestamp event /\
  (commit_made ext lib event ws -> totalCommits ws' = int64_incr (totalCommits ws)) /\
  (~ commit_made ext lib event ws -> totalCommits ws' = totalCommits ws) /\
  (- 2 ^ 63 <= totalExecutions ws < 2 ^ 63 - 1 ->
     totalExecutions ws' = totalExecutions ws + 1) /\
  (commit_made ext lib event ws -> - 2 ^ 63 <= totalCommits ws < 2 ^ 63 - 1 ->
     totalCommits ws' = totalCommits ws + 1).
Proof.
  set (ws1 := mk (manager ws) (configManager ws) (repository ws) (running ws)
                 (autoCommit ws) (commitMessageTmpl ws)
                 (int64_incr (totalExecutions ws)) (totalCommits ws)
                 (ExecutionEvent.Timestamp event)).
  assert (commit_made ext lib event ws1 <-> commit_made ext lib event ws) as Hsame
    by reflexivity.
  assert (let ws' := (handleExecutionEvent ext lib event ws).1.1 in
          totalExecutions ws' = int64_incr (totalExecutions ws) /\
          lastExecution ws' = ExecutionEvent.Timestamp event /\
          (commit_made ext lib event ws -> totalCommits ws' = int64_incr (totalCommits ws)) /\
          (~ commit_made ext lib event ws -> totalCommits ws' = totalCommits ws)) as Hmain.
  { unfold handleExecutionEvent. fold ws1.
    assert (autoCommit ws1 = autoCommit ws) as Ha by reflexivity.
    assert (totalExecutions ws1 = int64_incr (totalExecutions ws)) as He1 by reflexivity.
    assert (totalCommits ws1 = totalCommits ws) as Hc1 by reflexivity.
    assert (lastExecution ws1 = ExecutionEvent.Timestamp event) as Hl1 by reflexivity.
    clearbody ws1. rewrite <- He1, <- Hc1, <- Hl1.
    destruct (autoCommit ws1) eqn:Hauto.
    - pose proof (ServiceFacts.createAutoCommit_made ext lib event ws1 Hauto) as Hmade.
      destruct (createAutoCommit ext lib event ws1) as [[ws2 r]|] eqn:Hc.
      + destruct (ServiceFacts.createAutoCommit_counters ext lib _ _ _ _ Hc)
          as (He & Hcm & Hl & _).
        destruct r as [e|]; cbn.
        * rewrite He, Hcm, Hl. repeat split; try done.
          intros Hm%Hsame%Hmade. by destruct Hm.
        * rewrite He, Hcm, Hl. repeat split; try done.
          intros Hn. destruct Hn. apply Hsame, Hmade. eauto.
      + cbn. repeat split; try done.
        intros Hm%Hsame%Hmade. by destruct Hm.
    - cbn. repeat split; try done. intros [Hm _]. congruence. }
  cbv zeta in *. destruct Hmain as (He & Hl & Hc1 & Hc2).
  repeat split; try done.
  - intros Hr. rewrite He. by apply ServiceFacts.int64_incr_succ.
  - intros Hm Hr. rewrite (Hc1 Hm). by apply ServiceFacts.int64_incr_succ.
Qed.
End HandleExecutionEvent.

Lemma handleExecutionEvent_counters_witness :
  let ws' := (handleExecutionEvent Fixtures.store0 Fixtures.lib0
                Fixtures.event0 Fixtures.service0).1.1 in
  totalExecutions ws' = 1 /\ totalCommits ws' = 1 /\ lastExecution ws' = 77.
Proof.
  destruct (handleExecutionEvent_counters Fixtures.store0 Fixtures.lib0
              Fixtures.event0 Fixtures.service0) as (_ & Hl & _ & _ & He & Hc).
  split; [|split].
  - rewrite He; [reflexivity | vm_compute; split; congruence].
  - rewrite Hc; [reflexivity | | vm_compute; split; congruence].
    split; [reflexivity |].
    exists "Auto-commit: ", "Auto-commit: sonicpi". repeat split; reflexivity.
  - exact Hl.
Defined.

(** The tests of the package: one event, auto-commit on and off. *)
Example handleExecutionEvent_test :
  let ws' := (handleExecutionEvent Fixtures.store0 Fixtures.lib0
                Fixtures.event0 Fixtures.service0).1.1 in
  (totalExecutions ws', totalCommits ws', repository ws')
  = (1, 1, [("test code", "Auto-commit: sonicpi")]).
Proof. reflexivity. Qed.

Example handleExecutionEvent_before_Initialize :
  handleExecutionEvent Fixtures.store0 Fixtures.lib0 Fixtures.event0
    (NewWatcherService (Template := string) [] "watchers.json")
  = (mk (WatcherManager.SetCallback (Some handler) WatcherManager.NewWatcherManager)
        (ConfigManager.NewConfigManager "watchers.json") [] false true None 1 0 77,
     Panics,
     ["Execution detected: sonicpi/test-buffer - test code"]).
Proof. reflexivity. Qed.

(** C2, as the specification states it, fails: the registry holds a
    running OSC watcher whose socket fails to close; [StopAll] stops the
    watcher and returns the error, and [Stop] returns before it clears the
    flag. *)
Lemma Stop_error_keeps_running :
  running Fixtures.service_osc = true /\
  let '(err, ws', σ', calls) :=
    Stop (EW := Concrete_ExecutionWatcher Fixtures.world0)
         [("sonicpi-osc", 1%positive)] Fixtures.service_osc Fixtures.sys_osc in
  err = Some ("failed to stop watchers: failed to stop watcher sonicpi-osc: "
              +:+ "use of closed network connection") /\
  running ws' = true /\
  ConcreteWatcher.IsRunning (Sys.objs σ' 1%positive) = false.
Proof. vm_compute. repeat split. Qed.

(** C2, amended: on a running service, [Stop] clears the running flag
    when the manager's [StopAll] returns no error; when [StopAll] returns
    an error, [Stop] returns it wrapped and the service's flag stays true.
    The manager's own flag is false in both cases. *)
Theorem Stop_running_flag {Repo Template W E : Type} `{EW : !ExecutionWatcher W E}
    (order : list (string * loc)) (ws : WatcherService.t Repo Template)
    (σ : Sys.t W E) :
  running ws = true ->
  let '(err, ws', σ', calls) := Stop order ws σ in
  let '(err0, wm0, σ0, calls0) := WatcherManager.StopAll order (manager ws) σ in
  σ' = σ0 /\ calls = calls0 /\
  WatcherManager.running (manager ws') = false /\
  match err0 with
  | None => err = None /\ running ws' = false
  | Some e => err = Some (wrap_error "failed to stop watchers: " e) /\
              running ws' = true
  end.
Proof.
  intros Hrun. unfold Stop. rewrite Hrun. cbn [negb].
  unfold WatcherManager.StopAll.
  destruct (WatcherManager.StopAll_range order None σ) as [[err0 σ0] calls0].
  destruct err0 as [e|]; cbn; by rewrite ?Hrun.
Qed.

Lemma Stop_running_flag_witness :
  running Fixtures.service_osc = true /\
  let '(err, ws', σ', calls) :=
    Stop (EW := Concrete_ExecutionWatcher Fixtures.world0)
         [("sonicpi-osc", 1%positive)] Fixtures.service_osc Fixtures.sys_osc in
  let '(err0, wm0, σ0, calls0) :=
    WatcherManager.StopAll (EW := Concrete_ExecutionWatcher Fixtures.world0)
      [("sonicpi-osc", 1%positive)] (manager Fixtures.service_osc) Fixtures.sys_osc in
  σ' = σ0 /\ calls = calls0 /\
  WatcherManager.running (manager ws') = false /\
  match err0 with
  | None => err = None /\ running ws' = false
  | Some e => err = Some (wrap_error "failed to stop watchers: " e) /\
              running ws' = true
  end.
Proof.
  split; [reflexivity |].
  apply (Stop_running_flag (EW := Concrete_ExecutionWatcher Fixtures.world0)
           [("sonicpi-osc", 1%positive)] Fixtures.service_osc Fixtures.sys_osc).
  reflexivity.
Defined.

(** C10. [GetStats] reports as [ActiveWatchers] the number of entries of
    the Config Manager whose [Enabled] is true: the value is the same
    whatever the running flag and the manager (with its watchers) are. *)
Theorem GetStats_ActiveWatchers {Repo Template : Type}
    (order : list (string * WatcherConfig.t)) (ws : WatcherService.t Repo Template) :
  range_order (GlobalConfig.Watchers (ConfigManager.config (configManager ws))) order ->
  forall (b : bool) (wm : WatcherManager.t),
    ServiceStats.ActiveWatchers (GetStats order (set_running b (set_manager wm ws))) =
    Z.of_nat (size (filter (fun nc : string * WatcherConfig.t =>
                              WatcherConfig.Enabled nc.2 = true)
                      (GlobalConfig.Watchers (ConfigManager.config (configManager ws))))).
Proof.
  intros Hord b wm. unfold GetStats, ConfigManager.GetEnabledWatchers. cbn.
  by rewrite length_fmap, (RangeFacts.range_filter_length _ _ _ Hord).
Qed.

Lemma GetStats_ActiveWatchers_witness :
  ServiceStats.ActiveWatchers
    (GetStats (map_to_list (GlobalConfig.Watchers
                 (ConfigManager.config (configManager Fixtures.service_enabled))))
       (set_running false
          (set_manager WatcherManager.NewWatcherManager Fixtures.service_enabled)))
  = 1.
Proof.
  rewrite (GetStats_ActiveWatchers _ Fixtures.service_enabled);
    [reflexivity | apply RangeFacts.range_order_map_to_list].
Defined.

End Service.

(** ** The three watchers *)

(** C8. For each of the three watchers, [Start] on a running watcher
    returns an error and changes nothing: the watcher, with its callback,
    is the same afterwards, and no call to the outside was made. *)
Theorem Start_already_running {E : Type} (out : Outside E)
    (cb : option Callback) (c : Concrete) (e : E) :
  ConcreteWatcher.IsRunning c = true ->
  ConcreteWatcher.Start out cb c e = (c, e, Some (ConcreteWatcher.already_running c)).
Proof.
  destruct c as [w|w|w]; cbn; intros Hrun.
  - unfold OSCWatcher.Start, OSCWatcher.IsRunning in *. by rewrite Hrun.
  - unfold FileWatcher.Start, FileWatcher.IsRunning in *. by rewrite Hrun.
  - unfold GHCiWatcher.Start, GHCiWatcher.IsRunning in *. by rewrite Hrun.
Qed.

Lemma Start_already_running_witness :
  ConcreteWatcher.Start Fixtures.world0 (Some (Func 9)) (COSC Fixtures.osc_running) tt
  = (COSC Fixtures.osc_running, tt, Some "watcher is already running").
Proof.
  apply (Start_already_running Fixtures.world0 (Some (Func 9))
           (COSC Fixtures.osc_running) tt).
  reflexivity.
Defined.

Example Start_already_running_file :
  let w := (FileWatcher.Start Fixtures.world_files (Some (Func 1))
              (FileWatcher.NewFileWatcher "/ws") tt).1.1 in
  FileWatcher.Start Fixtures.world_files (Some (Func 2)) w tt
  = (w, tt, Some "file watcher is already running").
Proof. reflexivity. Qed.

Example Start_already_running_ghci :
  let w := (GHCiWatcher.Start Fixtures.world0 (Some (Func 1))
              GHCiWatcher.NewGHCiWatcher tt).1.1 in
  GHCiWatcher.IsRunning w = true /\
  GHCiWatcher.Start Fixtures.world0 (Some (Func 2)) w tt
  = (w, tt, Some "GHCi watcher is already running").
Proof. split; reflexivity. Qed.

(** ** The file poller *)

Module FileFacts.
Import FileWatcher.

Lemma check_visit_callback (w : t) (v : Visit) :
  callback (check_visit w v).1 = callback w /\
  config (check_visit w v).1 = config w /\
  running (check_visit w v).1 = running w.
Proof.
  unfold check_visit.
  destruct (walk_err v); [done |].
  destruct (isSonicPiFile (path v)); [|done]. cbn [negb].
  destruct (info v) as [t1|]; [|done].
  destruct (lastModified w !! path v) as [t0|]; [|done].
  by destruct (After t1 t0).
Qed.

(** A visit of another path leaves a file's record alone and emits
    nothing about the file. *)
Lemma check_visit_other (w : t) (v : Visit) (p : string) :
  path v <> p ->
  lastModified (check_visit w v).1 !! p = lastModified w !! p /\
  filter (about p) (check_visit w v).2 = [].
Proof.
  intros Hne. unfold check_visit.
  destruct (walk_err v); [done |].
  destruct (isSonicPiFile (path v)); [|done]. cbn [negb].
  destruct (info v) as [t1|]; [|done].
  destruct (lastModified w !! path v) as [t0|]; cbn.
  - destruct (After t1 t0); [|done]. cbn. rewrite lookup_insert_ne by done.
    split; [done |]. destruct (callback w); [|done]. unfold invoke.
    rewrite filter_cons_False; [done |].
    unfold about, createExecutionEvent. by destruct (read v).
  - by rewrite lookup_insert_ne.
Qed.

Lemma checkForChanges_cons (v : Visit) (walk : list Visit) (w : t) :
  checkForChanges (v :: walk) w =
  ((checkForChanges walk (check_visit w v).1).1,
   (check_visit w v).2 ++ (checkForChanges walk (check_visit w v).1).2).
Proof.
  cbn [checkForChanges]. destruct (check_visit w v) as [w1 out1].
  cbn [fst snd]. by destruct (checkForChanges walk w1).
Qed.

Lemma checkForChanges_callback (walk : list Visit) (w : t) :
  callback (checkForChanges walk w).1 = callback w.
Proof.
  revert w. induction walk as [|v walk IH]; intros w; [done |].
  rewrite checkForChanges_cons. cbn [fst]. rewrite IH.
  apply check_visit_callback.
Qed.

(** A visit that comes with an error does nothing. *)
Lemma check_visit_skipped (w : t) (v : Visit) :
  walk_err v <> None -> check_visit w v = (w, []).
Proof. unfold check_visit. by destruct (walk_err v). Qed.

Lemma heeded_cons (v : Visit) (walk : list Visit) :
  heeded (v :: walk) =
  if decide (walk_err v = None) then v :: heeded walk else heeded walk.
Proof.
  unfold heeded. destruct (decide (walk_err v = None)) as [Hv|Hv].
  - by rewrite filter_cons_True.
  - by rewrite filter_cons_False.
Qed.

Lemma checkForChanges_other (walk : list Visit) (w : t) (p : string) :
  p ∉ path <$> heeded walk ->
  lastModified (checkForChanges walk w).1 !! p = lastModified w !! p /\
  filter (about p) (checkForChanges walk w).2 = [].
Proof.
  revert w. induction walk as [|v walk IH]; intros w Hp; [done |].
  rewrite checkForChanges_cons. cbn [fst snd].
  rewrite heeded_cons in Hp. destruct (decide (walk_err v = None)) as [Hv|Hv].
  - rewrite fmap_cons, not_elem_of_cons in Hp. destruct Hp as [Hne Hp].
    destruct (check_visit_other w v p) as [Hl Hf]; [done |].
    destruct (IH (check_visit w v).1 Hp) as [Hl' Hf'].
    by rewrite Hl', Hl, filter_app, Hf, Hf'.
  - rewrite (check_visit_skipped w v Hv). cbn [fst snd app]. by apply IH.
Qed.

(** The visit of a known file whose time has advanced. *)
Lemma check_visit_modified (w : t) (v : Visit) (t0 t1 : Time) :
  walk_err v = None -> isSonicPiFile (path v) = true -> info v = Ok t1 ->
  lastModified w !! path v = Some t0 -> t0 < t1 ->
  lastModified (check_visit w v).1 !! path v = Some t1 /\
  (check_visit w v).2 =
    invoke (callback w) (createExecutionEvent (path v) t1 (read v)).
Proof.
  intros Herr Hrel Hinfo Hknown Hlt. unfold check_visit.
  rewrite Herr, Hrel, Hinfo, Hknown. cbn [negb].
  unfold After. destruct (Z.ltb_spec t0 t1); [|lia]. cbn.
  by rewrite lookup_insert_eq.
Qed.

(** The visit of a file seen for the first time. *)
Lemma check_visit_first (w : t) (v : Visit) :
  lastModified w !! path v = None ->
  (check_visit w v).2 = [] /\
  forall t1, walk_err v = None -> isSonicPiFile (path v) = true ->
    info v = Ok t1 -> lastModified (check_visit w v).1 !! path v = Some t1.
Proof.
  intros Hnew. unfold check_visit. rewrite Hnew.
  destruct (walk_err v); [done |].
  destruct (isSonicPiFile (path v)); [|done]. cbn [negb].
  destruct (info v) as [t|]; [|done]. cbn. split; [done |].
  intros t1 _ _ [= <-]. by rewrite lookup_insert_eq.
Qed.

Lemma about_created (p : string) (t1 : Time) (r : result string) (cb : Callback) :
  about p (cb, createExecutionEvent p t1 r).
Proof. unfold about, createExecutionEvent. by destruct r. Qed.

Lemma Timestamp_created (p : string) (t1 : Time) (r : result string) :
  ExecutionEvent.Timestamp (createExecutionEvent p t1 r) = t1.
Proof. unfold createExecutionEvent. by destruct r. Qed.

(** The walk, cut at the one heeded visit of a path. *)
Lemma walk_split (walk : list Visit) (v : Visit) :
  visits_once walk -> v ∈ walk -> walk_err v = None ->
  exists before after, walk = before ++ v :: after /\
    (path v ∉ path <$> heeded before) /\ (path v ∉ path <$> heeded after).
Proof.
  unfold visits_once. intros Hnd Hin Herr.
  apply list_elem_of_split in Hin as (before & after & ->).
  exists before, after. split; [done |].
  unfold heeded in *. rewrite filter_app, filter_cons_True in Hnd by done.
  rewrite fmap_app, fmap_cons in Hnd.
  apply NoDup_app in Hnd as (_ & Hdisj & Hnd).
  apply NoDup_cons in Hnd as [Hafter _]. split; [|done].
  intros Hb. apply (Hdisj _ Hb). left.
Qed.

Lemma checkForChanges_app (l1 l2 : list Visit) (w : t) :
  checkForChanges (l1 ++ l2) w =
  ((checkForChanges l2 (checkForChanges l1 w).1).1,
   (checkForChanges l1 w).2 ++ (checkForChanges l2 (checkForChanges l1 w).1).2).
Proof.
  revert w. induction l1 as [|v l1 IH]; intros w.
  - cbn. by destruct (checkForChanges l2 w).
  - rewrite <- app_comm_cons, !checkForChanges_cons, IH. cbn [fst snd].
    by rewrite app_assoc.
Qed.

Lemma scan_visit_relevant (w : t) (v : Visit) :
  known_relevant w -> known_relevant (scan_visit w v).
Proof.
  intros Hw. unfold scan_visit.
  destruct (walk_err v); [done |].
  destruct (isSonicPiFile (path v)) eqn:Hrel; [|done].
  destruct (info v) as [t1|]; [|done].
  intros p t0. cbn. destruct (decide (path v = p)) as [<-|Hne]; [done |].
  rewrite lookup_insert_ne by done. apply Hw.
Qed.

Lemma scanWorkspaceFiles_relevant (walk : list Visit) (w : t) :
  known_relevant w -> known_relevant (scanWorkspaceFiles walk w).
Proof.
  unfold scanWorkspaceFiles. revert w.
  induction walk as [|v walk IH]; intros w Hw; [done |].
  cbn. by apply IH, scan_visit_relevant.
Qed.

Lemma check_visit_relevant (w : t) (v : Visit) :
  known_relevant w -> known_relevant (check_visit w v).1.
Proof.
  intros Hw. unfold check_visit.
  destruct (walk_err v); [done |].
  destruct (isSonicPiFile (path v)) eqn:Hrel; [|done]. cbn [negb].
  destruct (info v) as [t1|]; [|done].
  assert (known_relevant
            (set_lastModified (<[path v := t1]> (lastModified w)) w)) as Hins.
  { intros p t0. cbn. destruct (decide (path v = p)) as [<-|Hne]; [done |].
    rewrite lookup_insert_ne by done. apply Hw. }
  destruct (lastModified w !! path v) as [t0|]; [|done].
  by destruct (After t1 t0).
Qed.

Lemma checkForChanges_relevant (walk : list Visit) (w : t) :
  known_relevant w -> known_relevant (checkForChanges walk w).1.
Proof.
  revert w. induction walk as [|v walk IH]; intros w Hw; [done |].
  rewrite checkForChanges_cons. by apply IH, check_visit_relevant.
Qed.

Lemma Start_relevant {E : Type} (out : Outside E) (cb : option Callback)
    (w : t) (e : E) :
  known_relevant w -> known_relevant (Start out cb w e).1.1.
Proof.
  intros Hw. unfold Start. destruct (running w); [done |].
  destruct (Stat_IsNotExist out (workspacePath w) e) as [[] e1]; [done |].
  cbn [workspacePath]. destruct (WalkDir out (workspacePath w) e1) as [walk e2].
  by apply scanWorkspaceFiles_relevant.
Qed.

(** The scan changes the recorded times and nothing else. *)
Lemma scan_only_records (walk : list Visit) (w : t) :
  scanWorkspaceFiles walk w =
  set_lastModified (lastModified (scanWorkspaceFiles walk w)) w.
Proof.
  unfold scanWorkspaceFiles. revert w.
  induction walk as [|v walk IH]; intros w; [by destruct w |].
  cbn [fold_left]. rewrite IH. unfold scan_visit.
  destruct (walk_err v); [done |].
  destruct (isSonicPiFile (path v)); [|done].
  by destruct (info v).
Qed.

Lemma reachable_relevant (lib : GoLib) (c : Concrete) :
  ConcreteWatcher.reachable lib c ->
  match c with CFile w => known_relevant w | _ => True end.
Proof.
  induction 1 as [c Hfresh | c c' _ IH Hstep].
  - destruct Hfresh; [done | | done]. intros p t0. by cbn.
  - destruct Hstep as [E out cb c e | E out c e | | | | | | | | | k v c];
      try done.
    + destruct c as [w|w|w]; cbn.
      * by destruct (OSCWatcher.Start out cb w e) as [[? ?] ?].
      * pose proof (Start_relevant out cb w e IH) as Hs.
        by destruct (Start out cb w e) as [[? ?] ?].
      * by destruct (GHCiWatcher.Start out cb w e) as [[? ?] ?].
    + destruct c as [w|w|w]; cbn.
      * by destruct (OSCWatcher.Stop out w e) as [[? ?] ?].
      * unfold Stop. by destruct (running w).
      * by destruct (GHCiWatcher.Stop w).
    + by apply checkForChanges_relevant.
    + by destruct c.
Qed.

End FileFacts.

Section Poller.
Import FileWatcher.

(** C5. A file known from a prior scan, whose modification time on a
    later tick is past the recorded one, gets exactly one event on that
    tick, and the event's [Timestamp] is the new modification time. The
    walk hands each path over once without an error, and a callback is
    stored. *)
Theorem checkForChanges_modified (lib : GoLib) (w : FileWatcher.t)
    (walk : list Visit) (v : Visit) (t0 t1 : Time) (cb : Callback) :
  ConcreteWatcher.reachable lib (CFile w) ->
  visits_once walk ->
  v ∈ walk -> walk_err v = None -> info v = Ok t1 ->
  lastModified w !! path v = Some t0 -> t0 < t1 ->
  callback w = Some cb ->
  let '(w', emitted) := checkForChanges walk w in
  exists event,
    filter (about (path v)) emitted = [(cb, event)] /\
    ExecutionEvent.Timestamp event = t1 /\
    event = createExecutionEvent (path v) t1 (read v) /\
    lastModified w' !! path v = Some t1.
Proof.
  intros Hreach Hnd Hin Herr Hinfo Hknown Hlt Hcb.
  pose proof (FileFacts.reachable_relevant lib _ Hreach _ _ Hknown) as Hrel.
  destruct (FileFacts.walk_split walk v Hnd Hin Herr)
    as (before & after & -> & Hb & Ha).
  rewrite FileFacts.checkForChanges_app, FileFacts.checkForChanges_cons.
  cbn [fst snd].
  destruct (FileFacts.checkForChanges_other before w (path v) Hb) as [Hl1 Hf1].
  set (w1 := (checkForChanges before w).1) in *.
  assert (callback w1 = Some cb) as Hcb1
    by (unfold w1; by rewrite FileFacts.checkForChanges_callback).
  rewrite Hknown in Hl1.
  destruct (FileFacts.check_visit_modified w1 v t0 t1 Herr Hrel Hinfo Hl1 Hlt)
    as [Hl2 Hout].
  set (w2 := (check_visit w1 v).1) in *.
  destruct (FileFacts.checkForChanges_other after w2 (path v) Ha) as [Hl3 Hf3].
  exists (createExecutionEvent (path v) t1 (read v)).
  rewrite !filter_app, Hf1, Hf3, Hout, Hcb1. cbn [invoke app].
  rewrite filter_cons_True by apply FileFacts.about_created.
  rewrite app_nil_r, Hl3, Hl2.
  by rewrite FileFacts.Timestamp_created.
Qed.

Lemma checkForChanges_modified_witness :
  let '(w', emitted) := checkForChanges Fixtures.walk_changed Fixtures.file_started in
  exists event,
    filter (about "/ws/workspace_0") emitted = [(Func 1, event)] /\
    ExecutionEvent.Timestamp event = 20 /\
    event = createExecutionEvent "/ws/workspace_0" 20 (Ok "play 60") /\
    lastModified w' !! "/ws/workspace_0" = Some 20.
Proof.
  apply (checkForChanges_modified Fixtures.lib0 Fixtures.file_started
           Fixtures.walk_changed
           (mkVisit "/ws/workspace_0" None (Ok 20) (Ok "play 60")) 10 20 (Func 1)).
  - apply (ConcreteWatcher.reach_step _
             (CFile (FileWatcher.NewFileWatcher "/ws"))).
    + apply ConcreteWatcher.reach_fresh, ConcreteWatcher.fresh_file.
    + apply (ConcreteWatcher.step_Start Fixtures.lib0 Fixtures.world_files
               (Some (Func 1)) (CFile (FileWatcher.NewFileWatcher "/ws")) tt).
  - apply (bool_decide_unpack _). vm_compute. exact I.
  - do 3 right. left.
  - reflexivity.
  - reflexivity.
  - reflexivity.
  - reflexivity.
  - reflexivity.
Defined.

(** C6. The poller emits nothing about a file on the scan that first
    observes it: the initial scan changes nothing but the recorded times,
    and a tick that meets a file absent from the recorded map records its
    time and emits no event about it. The walk hands each path over once
    without an error. *)
Theorem first_scan_silent (w : FileWatcher.t) (walk : list Visit) (p : string) :
  (forall first : list Visit,
     scanWorkspaceFiles first w =
     set_lastModified (lastModified (scanWorkspaceFiles first w)) w) /\
  (visits_once walk -> lastModified w !! p = None ->
   let '(w', emitted) := checkForChanges walk w in
   filter (about p) emitted = [] /\
   forall v t1, v ∈ walk -> path v = p -> walk_err v = None ->
     isSonicPiFile p = true -> info v = Ok t1 ->
     lastModified w' !! p = Some t1).
Proof.
  split.
  - intros first. apply FileFacts.scan_only_records.
  - intros Hnd Hnew.
    destruct (checkForChanges walk w) as [w' emitted] eqn:Hrun.
    destruct (decide (p ∈ path <$> heeded walk)) as [Hin|Hout].
    + apply list_elem_of_fmap in Hin as (v & -> & Hin).
      apply list_elem_of_filter in Hin as [Hverr Hin].
      destruct (FileFacts.walk_split walk v Hnd Hin Hverr)
        as (before & after & -> & Hb & Ha).
      rewrite FileFacts.checkForChanges_app, FileFacts.checkForChanges_cons in Hrun.
      cbn [fst snd] in Hrun. injection Hrun as <- <-.
      destruct (FileFacts.checkForChanges_other before w (path v) Hb) as [Hl1 Hf1].
      set (w1 := (checkForChanges before w).1) in *.
      rewrite Hnew in Hl1.
      destruct (FileFacts.check_visit_first w1 v Hl1) as [Hout Hrec].
      set (w2 := (check_visit w1 v).1) in *.
      destruct (FileFacts.checkForChanges_other after w2 (path v) Ha) as [Hl3 Hf3].
      split.
      * by rewrite !filter_app, Hf1, Hf3, Hout.
      * intros v' t1 Hin' Hpath Herr Hrel Hinfo. rewrite Hl3.
        assert (v' = v) as ->.
        { apply elem_of_app in Hin' as [Hin'|Hin'].
          - destruct Hb. rewrite <- Hpath. apply list_elem_of_fmap. exists v'.
            split; [done |]. by apply list_elem_of_filter.
          - apply elem_of_cons in Hin' as [->|Hin']; [done |].
            destruct Ha. rewrite <- Hpath. apply list_elem_of_fmap. exists v'.
            split; [done |]. by apply list_elem_of_filter. }
        by apply Hrec.
    + destruct (FileFacts.checkForChanges_other walk w p Hout) as [Hl Hf].
      rewrite Hrun in Hl, Hf. cbn [fst snd] in *. split; [done |].
      intros v t1 Hin Hpath Herr _ _. destruct Hout.
      apply list_elem_of_fmap. exists v. split; [done |].
      by apply list_elem_of_filter.
Qed.

Lemma first_scan_silent_witness :
  let '(w', emitted) :=
    checkForChanges Fixtures.walk_changed (FileWatcher.NewFileWatcher "/ws") in
  filter (about "/ws/workspace_0") emitted = [] /\
  lastModified w' !! "/ws/workspace_0" = Some 20.
Proof.
  destruct (first_scan_silent (FileWatcher.NewFileWatcher "/ws")
              Fixtures.walk_changed "/ws/workspace_0") as [_ Htick].
  destruct (checkForChanges Fixtures.walk_changed (FileWatcher.NewFileWatcher "/ws"))
    as [w' emitted] eqn:Hrun.
  destruct Htick as [Hnone Hrec].
  - apply (bool_decide_unpack _). vm_compute. exact I.
  - reflexivity.
  - split; [exact Hnone |].
    apply (Hrec (mkVisit "/ws/workspace_0" None (Ok 20) (Ok "play 60")));
      try reflexivity.
    do 3 right. left.
Defined.

(** A session of the poller: nothing at the first scan, nothing while the
    file is untouched, one event when it changes. *)
Example poller_session :
  let w0 := Fixtures.file_started in
  let '(w1, out1) := checkForChanges Fixtures.walk_first w0 in
  let '(w2, out2) := checkForChanges Fixtures.walk_changed w1 in
  let '(w3, out3) := checkForChanges Fixtures.walk_changed w2 in
  out1 = [] /\ out3 = [] /\
  out2 = [(Func 1, createExecutionEvent "/ws/workspace_0" 20 (Ok "play 60"))].
Proof. vm_compute. repeat split. Qed.
End Poller.

(** ** The manager *)

Module ManagerFacts.
Import WatcherManager.

Section Interface.
Context {W E : Type} `{EW : !ExecutionWatcher W E}.
Implicit Types (σ : Sys.t W E) (l : loc) (order : list (string * loc)).

Lemma call_Start_other cb l l' σ :
  l <> l' -> Sys.objs (call_Start cb l σ).1 l' = Sys.objs σ l'.
Proof.
  intros Hne. unfold call_Start.
  destruct (Start cb (Sys.objs σ l) (Sys.env σ)) as [[w' e'] r]. cbn.
  by rewrite fn_lookup_insert_ne.
Qed.

Lemma call_Stop_other l l' σ :
  l <> l' -> Sys.objs (call_Stop l σ).1 l' = Sys.objs σ l'.
Proof.
  intros Hne. unfold call_Stop.
  destruct (Stop (Sys.objs σ l) (Sys.env σ)) as [[w' e'] r]. cbn.
  by rewrite fn_lookup_insert_ne.
Qed.

Lemma StartAll_range_cons cb name l rest sa σ :
  StartAll_range cb ((name, l) :: rest) sa σ =
  if enabled σ l then
    match (call_Start (Some cb) l σ).2 with
    | Some err =>
        (Err (wrap_error ("failed to start watcher " +:+ name +:+ ": ") err),
         (call_Start (Some cb) l σ).1, [mkCall MStart name l (Some err)])
    | None =>
        let r := StartAll_range cb rest true (call_Start (Some cb) l σ).1 in
        (r.1.1, r.1.2, mkCall MStart name l None :: r.2)
    end
  else StartAll_range cb rest sa σ.
Proof.
  cbn [StartAll_range]. unfold enabled.
  destruct (WatcherConfig.Enabled _); [|done].
  destruct (call_Start (Some cb) l σ) as [σ1 [err|]]; [done |]. cbn.
  by destruct (StartAll_range cb rest true σ1) as [[res σ2] calls].
Qed.

(** Only watchers enabled at the outset are started. *)
Lemma StartAll_range_calls cb order : forall sa σ,
  Forall (fun c => method c = MStart /\ (call_name c, target c) ∈ order /\
                   enabled σ (target c) = true)
         (StartAll_range cb order sa σ).2.
Proof.
  induction order as [|[name l] rest IH]; intros sa σ; [by constructor |].
  rewrite StartAll_range_cons. destruct (enabled σ l) eqn:Hen.
  - assert (Forall (fun c => method c = MStart /\
              (call_name c, target c) ∈ (name, l) :: rest /\
              enabled σ (target c) = true)
              (StartAll_range cb rest true (call_Start (Some cb) l σ).1).2) as Hrest.
    { eapply Forall_impl; [apply IH |]. intros c (Hm & Hin & Hc).
      split; [done |]. split; [by right |].
      destruct (decide (l = target c)) as [<-|Hne]; [done |].
      unfold enabled in *. by rewrite call_Start_other in Hc. }
    destruct (call_Start (Some cb) l σ).2; cbn.
    + constructor; [|constructor]. cbn. split; [done |]. split; [left | done].
    + constructor; [|done]. cbn. split; [done |]. split; [left | done].
  - eapply Forall_impl; [apply IH |]. intros c (Hm & Hin & Hc).
    split; [done |]. split; [by right | done].
Qed.

(** A watcher that is not enabled is left as it was. *)
Lemma StartAll_range_disabled cb order l : forall sa σ,
  enabled σ l = false ->
  Sys.objs (StartAll_range cb order sa σ).1.2 l = Sys.objs σ l.
Proof.
  induction order as [|[name l0] rest IH]; intros sa σ Hdis; [done |].
  rewrite StartAll_range_cons. destruct (enabled σ l0) eqn:Hen; [|by apply IH].
  assert (l0 <> l) as Hne by congruence.
  pose proof (call_Start_other (Some cb) l0 l σ Hne) as Hsame.
  destruct (call_Start (Some cb) l0 σ) as [σ1 [err|]]; cbn in *; [done |].
  rewrite IH; [done |]. unfold enabled in *. by rewrite Hsame.
Qed.

(** When the loop ends without an error, every watcher that was
    enabled has been started, and [startedAny] tells whether one was. *)
Lemma StartAll_range_Ok cb order : forall sa σ sa',
  (StartAll_range cb order sa σ).1.1 = Ok sa' ->
  Forall (fun c => outcome c = None) (StartAll_range cb order sa σ).2 /\
  sa' = sa || bool_decide ((StartAll_range cb order sa σ).2 <> []) /\
  forall name l, (name, l) ∈ order -> enabled σ l = true ->
    exists c, c ∈ (StartAll_range cb order sa σ).2 /\ target c = l.
Proof.
  induction order as [|[name0 l0] rest IH]; intros sa σ sa'.
  - cbn. intros [= <-]. split; [done |]. split; [by rewrite orb_false_r |].
    intros name l Hin. by apply elem_of_nil in Hin.
  - rewrite StartAll_range_cons. destruct (enabled σ l0) eqn:Hen.
    + pose proof (fun l' => call_Start_other (Some cb) l0 l' σ) as Hother.
      destruct (call_Start (Some cb) l0 σ) as [σ1 [err|]]; cbn in *; [done |].
      intros Hok. destruct (IH true σ1 sa' Hok) as (Hnone & Hsa & Hall).
      split; [by constructor |]. split.
      { rewrite Hsa. by rewrite orb_true_r. }
      intros name l Hin Hl. apply elem_of_cons in Hin as [[= -> ->]|Hin].
      * eexists. split; [left | done].
      * destruct (decide (l0 = l)) as [<-|Hne].
        { eexists. split; [left | done]. }
        destruct (Hall name l Hin) as (c & Hc & Ht).
        { unfold enabled in *. by rewrite Hother. }
        exists c. split; [by right | done].
    + intros Hok. destruct (IH sa σ sa' Hok) as (Hnone & Hsa & Hall).
      split; [done |]. split; [done |].
      intros name l Hin Hl. apply elem_of_cons in Hin as [[= -> ->]|Hin].
      * congruence.
      * by apply (Hall name l).
Qed.

(** When the loop ends with an error, the last call is the one that
    failed, and the loop went no further. *)
Lemma StartAll_range_Err cb order : forall sa σ e,
  (StartAll_range cb order sa σ).1.1 = Err e ->
  exists before name l cause after,
    order = before ++ (name, l) :: after /\
    last (StartAll_range cb order sa σ).2 = Some (mkCall MStart name l (Some cause)) /\
    e = wrap_error ("failed to start watcher " +:+ name +:+ ": ") cause.
Proof.
  induction order as [|[name0 l0] rest IH]; intros sa σ e; [done |].
  rewrite StartAll_range_cons. destruct (enabled σ l0) eqn:Hen.
  - destruct (call_Start (Some cb) l0 σ) as [σ1 [err|]]; cbn.
    + intros [= <-]. by exists [], name0, l0, err, rest.
    + intros Herr.
      destruct (IH true σ1 e Herr)
        as (before & name & l & cause & after & -> & Hlast & ->).
      exists ((name0, l0) :: before), name, l, cause, after.
      split; [done |]. split; [|done].
      destruct (StartAll_range cb (before ++ (name, l) :: after) true σ1).2;
        [done | by rewrite last_cons, Hlast].
  - intros Herr.
    destruct (IH sa σ e Herr)
      as (before & name & l & cause & after & -> & Hlast & ->).
    by exists ((name0, l0) :: before), name, l, cause, after.
Qed.

Lemma StopAll_range_cons name l rest lastError σ :
  StopAll_range ((name, l) :: rest) lastError σ =
  if is_running σ l then
    let s := call_Stop l σ in
    let lastError' :=
      match s.2 with
      | Some err =>
          Some (wrap_error ("failed to stop watcher " +:+ name +:+ ": ") err)
      | None => lastError
      end in
    let r := StopAll_range rest lastError' s.1 in
    (r.1.1, r.1.2, mkCall MStop name l s.2 :: r.2)
  else StopAll_range rest lastError σ.
Proof.
  cbn [StopAll_range]. destruct (is_running σ l) eqn:Hrun;
    unfold is_running in Hrun; rewrite Hrun; [|done].
  destruct (call_Stop l σ) as [σ1 r]. cbn.
  by destruct (StopAll_range rest _ σ1) as [[res σ2] calls].
Qed.

(** Only watchers running at the outset are stopped. *)
Lemma StopAll_range_calls order : forall lastError σ,
  Forall (fun c => method c = MStop /\ (call_name c, target c) ∈ order /\
                   is_running σ (target c) = true)
         (StopAll_range order lastError σ).2.
Proof.
  induction order as [|[name l] rest IH]; intros lastError σ; [by constructor |].
  rewrite StopAll_range_cons. destruct (is_running σ l) eqn:Hrun.
  - cbn. constructor.
    + cbn. split; [done |]. split; [left | done].
    + eapply Forall_impl; [apply IH |]. intros c (Hm & Hin & Hc).
      split; [done |]. split; [by right |].
      destruct (decide (l = target c)) as [<-|Hne]; [done |].
      unfold is_running in *. by rewrite call_Stop_other in Hc.
  - eapply Forall_impl; [apply IH |]. intros c (Hm & Hin & Hc).
    split; [done |]. split; [by right | done].
Qed.

(** Every watcher that was running is stopped, whatever the earlier
    calls returned. *)
Lemma StopAll_range_all order : forall lastError σ name l,
  (name, l) ∈ order -> is_running σ l = true ->
  exists c, c ∈ (StopAll_range order lastError σ).2 /\ target c = l.
Proof.
  induction order as [|[name0 l0] rest IH]; intros lastError σ name l Hin Hl.
  - by apply elem_of_nil in Hin.
  - rewrite StopAll_range_cons. destruct (is_running σ l0) eqn:Hrun.
    + cbn. destruct (decide (l0 = l)) as [<-|Hne].
      { eexists. split; [left | done]. }
      apply elem_of_cons in Hin as [[= -> ->]|Hin]; [done |].
      match goal with
      | |- context [StopAll_range rest ?le ?s] =>
          destruct (IH le s name l Hin) as (c & Hc & Ht)
      end.
      { unfold is_running in *. by rewrite call_Stop_other. }
      exists c. split; [right; exact Hc | done].
    + apply elem_of_cons in Hin as [[= -> ->]|Hin]; [congruence |].
      by apply (IH lastError σ name l).
Qed.

(** The error returned is that of the last call that failed. *)
Lemma StopAll_range_error order : forall lastError σ,
  (StopAll_range order lastError σ).1.1 =
  match last_failure (StopAll_range order lastError σ).2 with
  | Some e => Some e
  | None => lastError
  end.
Proof.
  induction order as [|[name l] rest IH]; intros lastError σ; [done |].
  rewrite StopAll_range_cons. destruct (is_running σ l); [|apply IH].
  cbn. rewrite IH. unfold last_failure. cbn [omap].
  destruct (call_Stop l σ) as [σ1 [err|]]; cbn; [|done].
  rewrite last_cons. by destruct (last _).
Qed.

Lemma last_failure_none (calls : list Call) :
  Forall (fun c => outcome c = None) calls -> last_failure calls = None.
Proof.
  unfold last_failure. induction 1 as [|c calls Hc _ IH]; [done |].
  cbn. unfold stop_error at 1. by rewrite Hc.
Qed.

Lemma call_Start_same cb l σ :
  Sys.objs (call_Start cb l σ).1 l = (Start cb (Sys.objs σ l) (Sys.env σ)).1.1.
Proof.
  unfold call_Start.
  destruct (Start cb (Sys.objs σ l) (Sys.env σ)) as [[w' e'] r]. cbn.
  by rewrite fn_lookup_insert.
Qed.

(** When every registered watcher satisfies an invariant that [Start]
    keeps and that implies [Enabled], the loop skips no entry: it calls
    [Start] entry after entry until a call fails. *)
Lemma StartAll_range_entries (P : W -> Prop) :
  (forall w, P w -> WatcherConfig.Enabled (GetConfig w) = true) ->
  (forall cb w e, P w -> P (Start cb w e).1.1) ->
  forall cb order sa σ,
    (forall name l, (name, l) ∈ order -> P (Sys.objs σ l)) ->
    match (StartAll_range cb order sa σ).1.1 with
    | Ok _ => entries (StartAll_range cb order sa σ).2 = order
    | Err _ =>
        exists before name l after,
          order = before ++ (name, l) :: after /\
          entries (StartAll_range cb order sa σ).2 = before ++ [(name, l)]
    end.
Proof.
  intros Hen Hstep cb order.
  induction order as [|[name0 l0] rest IH]; intros sa σ HP; [done |].
  rewrite StartAll_range_cons.
  assert (enabled σ l0 = true) as ->.
  { apply Hen, (HP name0). left. }
  pose proof (call_Start_same (Some cb) l0 σ) as Hsame.
  pose proof (fun l' => call_Start_other (Some cb) l0 l' σ) as Hother.
  destruct (call_Start (Some cb) l0 σ) as [σ1 [err|]]; cbn [fst snd] in *.
  - by exists [], name0, l0, rest.
  - assert (forall name l, (name, l) ∈ rest -> P (Sys.objs σ1 l)) as HP1.
    { intros name l Hin. destruct (decide (l0 = l)) as [<-|Hne].
      - rewrite Hsame. apply Hstep, (HP name0). left.
      - rewrite Hother by done. apply (HP name). by right. }
    specialize (IH true σ1 HP1). cbn.
    destruct (StartAll_range cb rest true σ1) as [[[sa'|e] σ2] calls];
      cbn [fst snd] in *.
    + by rewrite <- IH.
    + destruct IH as (before & name & l & after & -> & Hcalls).
      exists ((name0, l0) :: before), name, l, after.
      split; [done |]. cbn. by rewrite <- Hcalls.
Qed.
End Interface.
End ManagerFacts.

(** ** The calls of a loop and the state it leaves *)

Module TraceFacts.
Import WatcherManager.

Section Interface.
Context {W E : Type} `{EW : !ExecutionWatcher W E}.
Implicit Types (σ : Sys.t W E) (l : loc) (order : list (string * loc)).

Lemma perform_Start cb name l r σ :
  CallLog.perform cb (mkCall MStart name l r) σ = call_Start cb l σ.
Proof. done. Qed.

Lemma perform_Stop cb name l r σ :
  CallLog.perform cb (mkCall MStop name l r) σ = call_Stop l σ.
Proof. done. Qed.

Lemma records_nil cb σ : CallLog.records cb [] σ σ.
Proof. done. Qed.

Lemma records_cons cb c rest σ σ' :
  outcome c = (CallLog.perform cb c σ).2 ->
  CallLog.records cb rest (CallLog.perform cb c σ).1 σ' ->
  CallLog.records cb (c :: rest) σ σ'.
Proof.
  unfold CallLog.records. cbn [CallLog.replay]. intros Hc Hrest.
  destruct (CallLog.perform cb c σ) as [σ1 r]. cbn [fst snd] in *.
  rewrite Hrest. cbn. by rewrite Hc.
Qed.

Lemma perform_other cb c σ l :
  l <> target c -> Sys.objs (CallLog.perform cb c σ).1 l = Sys.objs σ l.
Proof.
  intros Hne. unfold CallLog.perform.
  destruct (match method c with
            | MStart => Start cb (Sys.objs σ (target c)) (Sys.env σ)
            | MStop => Stop (Sys.objs σ (target c)) (Sys.env σ)
            end) as [[w' e'] r].
  cbn. by rewrite fn_lookup_insert_ne.
Qed.

(** An object that no call of the log is made on is left as it was. *)
Lemma records_untouched cb calls : forall σ σ' l,
  CallLog.records cb calls σ σ' -> l ∉ target <$> calls ->
  Sys.objs σ' l = Sys.objs σ l.
Proof.
  unfold CallLog.records.
  induction calls as [|c rest IH]; intros σ σ' l; cbn [CallLog.replay].
  - by intros [= <-].
  - destruct (CallLog.perform cb c σ) as [σ1 r] eqn:Hc.
    destruct (CallLog.replay cb rest σ1) as [σ2 rs] eqn:Hrest.
    cbn. intros [= <- -> Hrs] [Hne Hnot]%not_elem_of_cons.
    rewrite (IH σ1 σ2 l); [|by rewrite Hrest, Hrs | done].
    replace σ1 with (CallLog.perform cb c σ).1 by (by rewrite Hc).
    by apply perform_other.
Qed.

(** [StartAll]'s loop: its log is a true record; the calls are made
    in the order of the range, each on an entry of it, and all but a
    failing last one return no error. *)
Lemma StartAll_range_trace cb order : forall sa σ,
  CallLog.records (Some cb) (StartAll_range cb order sa σ).2 σ
    (StartAll_range cb order sa σ).1.2 /\
  match (StartAll_range cb order sa σ).1.1 with
  | Ok _ =>
      sublist (entries (StartAll_range cb order sa σ).2) order /\
      Forall (fun c => outcome c = None) (StartAll_range cb order sa σ).2
  | Err e =>
      exists before name l cause after started,
        order = before ++ (name, l) :: after /\
        (StartAll_range cb order sa σ).2
        = started ++ [mkCall MStart name l (Some cause)] /\
        sublist (entries started) before /\
        Forall (fun c => outcome c = None) started /\
        e = wrap_error ("failed to start watcher " +:+ name +:+ ": ") cause
  end.
Proof.
  induction order as [|[name0 l0] rest IH]; intros sa σ.
  { split; [done |]. by split. }
  rewrite ManagerFacts.StartAll_range_cons. destruct (enabled σ l0).
  - destruct (call_Start (Some cb) l0 σ) as [σ1 [err|]] eqn:Hcall; cbn [fst snd].
    + split.
      * apply records_cons; rewrite perform_Start, Hcall; done.
      * by exists [], name0, l0, err, rest, [].
    + destruct (IH true σ1) as [Hrec Hrest]. cbn zeta. cbn [fst snd]. split.
      * apply records_cons; rewrite perform_Start, Hcall; done.
      * destruct (StartAll_range cb rest true σ1) as [[[sa'|e] σ2] calls];
          cbn [fst snd] in *.
        -- destruct Hrest as [Hsub Hall]. split; [|by constructor].
           cbn. by apply sublist_skip.
        -- destruct Hrest
             as (before & name & l & cause & after & started & -> & -> & Hsub & Hall & ->).
           exists ((name0, l0) :: before), name, l, cause, after,
             (mkCall MStart name0 l0 None :: started).
           split_and!; try done.
           ++ cbn. by apply sublist_skip.
           ++ by constructor.
  - destruct (IH sa σ) as [Hrec Hrest]. split; [done |].
    destruct (StartAll_range cb rest sa σ) as [[[sa'|e] σ2] calls];
      cbn [fst snd] in *.
    + destruct Hrest as [Hsub Hall]. split; [by apply sublist_cons | done].
    + destruct Hrest
        as (before & name & l & cause & after & started & -> & -> & Hsub & Hall & ->).
      exists ((name0, l0) :: before), name, l, cause, after, started.
      split_and!; try done. by apply sublist_cons.
Qed.

(** [StopAll]'s loop: its log is a true record, and its calls are
    made in the order of the range, each on an entry of it. *)
Lemma StopAll_range_trace cb order : forall lastError σ,
  CallLog.records cb (StopAll_range order lastError σ).2 σ
    (StopAll_range order lastError σ).1.2 /\
  sublist (entries (StopAll_range order lastError σ).2) order.
Proof.
  induction order as [|[name0 l0] rest IH]; intros lastError σ.
  { by split. }
  rewrite ManagerFacts.StopAll_range_cons. destruct (is_running σ l0).
  - cbn zeta. cbn [fst snd].
    match goal with
    | |- context [StopAll_range rest ?le ?s] => destruct (IH le s) as [Hrec Hsub]
    end.
    split.
    + apply records_cons; rewrite perform_Stop; done.
    + cbn. by apply sublist_skip.
  - destruct (IH lastError σ) as [Hrec Hsub]. split; [done |].
    by apply sublist_cons.
Qed.

End Interface.
End TraceFacts.

Section Manager.
Import WatcherManager.
Context {W E : Type} `{EW : !ExecutionWatcher W E}.

(** C3, amended. Without a callback [StartAll] returns an error at once
    and calls nothing. With one, it calls [Start] only on registered
    watchers whose configuration is enabled, and a watcher that is not
    enabled is left exactly as it was, hence never made Running. The loop
    ends at the first [Start] that fails: when [StartAll] returns no error
    every enabled registered watcher has been started, and when it returns
    one its last call is the [Start] that failed, made on an entry of the
    range, with the calls before it made on entries that come earlier.
    The calls are what happened: made again in their order from the state
    at the outset they return what the log says and lead to the state
    [StartAll] leaves, and an object none of them is made on is as it
    was. *)
Theorem StartAll_enabled_only (order : list (string * loc)) (wm : WatcherManager.t)
    (σ : Sys.t W E) :
  range_order (watchers wm) order ->
  let '(err, wm', σ', calls) := StartAll order wm σ in
  CallLog.records (callback wm) calls σ σ' /\
  (forall l, l ∉ target <$> calls -> Sys.objs σ' l = Sys.objs σ l) /\
  (callback wm = None ->
     err = Some "no callback function set" /\ wm' = wm /\ σ' = σ /\ calls = []) /\
  (forall c, c ∈ calls ->
     method c = MStart /\ watchers wm !! call_name c = Some (target c) /\
     enabled σ (target c) = true) /\
  (forall l, enabled σ l = false -> Sys.objs σ' l = Sys.objs σ l) /\
  (callback wm <> None -> err = None ->
     running wm' = bool_decide (calls <> []) /\
     Forall (fun c => outcome c = None) calls /\
     forall name l, watchers wm !! name = Some l -> enabled σ l = true ->
       exists c, c ∈ calls /\ target c = l /\ outcome c = None) /\
  (forall e, callback wm <> None -> err = Some e ->
     wm' = wm /\
     exists before name l cause after started,
       watchers wm !! name = Some l /\
       order = before ++ (name, l) :: after /\
       calls = started ++ [mkCall MStart name l (Some cause)] /\
       sublist (entries started) before /\
       Forall (fun c => outcome c = None) started /\
       e = wrap_error ("failed to start watcher " +:+ name +:+ ": ") cause).
Proof.
  intros Hord. unfold StartAll. destruct (callback wm) as [cb|] eqn:Hcb.
  - pose proof (ManagerFacts.StartAll_range_calls cb order false σ) as Hcalls.
    pose proof (fun l => ManagerFacts.StartAll_range_disabled cb order l false σ) as Hdis.
    pose proof (ManagerFacts.StartAll_range_Ok cb order false σ) as Hok.
    destruct (TraceFacts.StartAll_range_trace cb order false σ) as [Hrec Htrace].
    destruct (StartAll_range cb order false σ) as [[[sa|e] σ'] calls];
      cbn [fst snd] in *.
    + split; [done |].
      split; [intros l; by apply (TraceFacts.records_untouched (Some cb) calls) |].
      split; [done |]. split.
      { intros c Hc. rewrite Forall_forall in Hcalls.
        destruct (Hcalls c Hc) as (Hm & Hin & Hen).
        by rewrite <- (RangeFacts.range_order_elem_of _ _ _ _ Hord). }
      split; [exact Hdis |].
      split; [|done]. intros _ _.
      destruct (Hok sa eq_refl) as (Hnone & -> & Hall). split; [done |].
      split; [done |].
      intros name l Hreg Hen.
      destruct (Hall name l) as (c & Hc & Ht); [|done |].
      { by apply (RangeFacts.range_order_elem_of _ _ _ _ Hord). }
      exists c. rewrite Forall_forall in Hnone. auto.
    + split; [done |].
      split; [intros l; by apply (TraceFacts.records_untouched (Some cb) calls) |].
      split; [done |]. split.
      { intros c Hc. rewrite Forall_forall in Hcalls.
        destruct (Hcalls c Hc) as (Hm & Hin & Hen).
        by rewrite <- (RangeFacts.range_order_elem_of _ _ _ _ Hord). }
      split; [exact Hdis |].
      split; [done |]. intros e' _ [= <-]. split; [done |].
      destruct Htrace
        as (before & name & l & cause & after & started & Ho & Hc & Hsub & Hall & He).
      exists before, name, l, cause, after, started. split_and!; try done.
      apply (RangeFacts.range_order_elem_of _ _ _ _ Hord). rewrite Ho.
      apply elem_of_app. right. left.
  - split; [done |]. split; [done |].
    split; [done |]. split; [intros c Hc; by apply elem_of_nil in Hc |].
    split; [done |]. split; [done |]. by intros e Hn.
Qed.

(** C7. [StopAll] calls [Stop] on every registered watcher that is
    running, and on no other, whatever the earlier calls returned; it
    clears the manager's running flag and returns the error of the last
    [Stop] that failed, [nil] when none did. The calls are what happened:
    made again in their order from the state at the outset they return
    what the log says and lead to the state [StopAll] leaves, and an
    object none of them is made on is as it was. *)
Theorem StopAll_continues (order : list (string * loc)) (wm : WatcherManager.t)
    (σ : Sys.t W E) :
  range_order (watchers wm) order ->
  let '(err, wm', σ', calls) := StopAll order wm σ in
  CallLog.records (callback wm) calls σ σ' /\
  (forall l, l ∉ target <$> calls -> Sys.objs σ' l = Sys.objs σ l) /\
  sublist (entries calls) order /\
  running wm' = false /\
  (forall name l, watchers wm !! name = Some l -> is_running σ l = true ->
     exists c, c ∈ calls /\ method c = MStop /\ target c = l) /\
  (forall c, c ∈ calls ->
     method c = MStop /\ watchers wm !! call_name c = Some (target c) /\
     is_running σ (target c) = true) /\
  err = last_failure calls /\
  (Forall (fun c => outcome c = None) calls -> err = None).
Proof.
  intros Hord. unfold StopAll.
  pose proof (ManagerFacts.StopAll_range_calls order None σ) as Hcalls.
  pose proof (ManagerFacts.StopAll_range_all order None σ) as Hall.
  pose proof (ManagerFacts.StopAll_range_error order None σ) as Herr.
  destruct (TraceFacts.StopAll_range_trace (callback wm) order None σ) as [Hrec Hsub].
  destruct (StopAll_range order None σ) as [[err σ'] calls]; cbn [fst snd] in *.
  rewrite Forall_forall in Hcalls.
  assert (err = last_failure calls) as -> by (rewrite Herr; by destruct (last_failure _)).
  split; [done |].
  split; [intros l; by apply (TraceFacts.records_untouched (callback wm) calls) |].
  split; [done |].
  split; [done |]. split.
  { intros name l Hreg Hrun.
    destruct (Hall name l) as (c & Hc & Ht); [|done |].
    { by apply (RangeFacts.range_order_elem_of _ _ _ _ Hord). }
    exists c. destruct (Hcalls c Hc) as (Hm & _). auto. }
  split.
  { intros c Hc. destruct (Hcalls c Hc) as (Hm & Hin & Hrun).
    by rewrite <- (RangeFacts.range_order_elem_of _ _ _ _ Hord). }
  split; [done |]. apply ManagerFacts.last_failure_none.
Qed.

End Manager.

(** ** The watchers keep their configuration enabled *)

Module ConcreteFacts.
Import ConcreteWatcher.

Lemma osc_Start_config {E : Type} (out : Outside E) cb w e :
  OSCWatcher.config (OSCWatcher.Start out cb w e).1.1 = OSCWatcher.config w.
Proof.
  unfold OSCWatcher.Start. destruct (OSCWatcher.running w); [done |].
  destruct (time_Now out e) as [now e1].
  destruct (ResolveUDPAddr out _ e1) as [[err|] e2]; [done |].
  cbn [OSCWatcher.oscPort].
  by destruct (ListenUDP out (OSCWatcher.oscPort w) e2) as [[c|err] e3].
Qed.

Lemma osc_Stop_config {E : Type} (out : Outside E) w e :
  OSCWatcher.config (OSCWatcher.Stop out w e).1.1 = OSCWatcher.config w.
Proof.
  unfold OSCWatcher.Stop. destruct (OSCWatcher.running w); [|done]. cbn.
  destruct (OSCWatcher.conn w) as [c|]; [|done].
  by destruct (Close out c e).
Qed.

Lemma osc_process_line_config lib now clock w line :
  OSCWatcher.config (OSCWatcher.process_line lib now clock w line).1
  = OSCWatcher.config w.
Proof.
  unfold OSCWatcher.process_line.
  destruct (String.eqb _ ""); [done |].
  destruct (OSCWatcher.isExecutionMessage _); [done |].
  destruct (OSCWatcher.isBPMMessage _); [|done].
  unfold OSCWatcher.updateBPM. cbn. by repeat case_match.
Qed.

Lemma osc_message_config lib now clock message w :
  OSCWatcher.config (OSCWatcher.processOSCMessage lib now clock message w).1
  = OSCWatcher.config w.
Proof.
  unfold OSCWatcher.processOSCMessage.
  generalize (@nil Emitted) as out. revert w.
  induction (Split lib message newline) as [|line lines IH]; intros w out; [done |].
  cbn [fold_left fst snd].
  pose proof (osc_process_line_config lib now clock w line) as Hline.
  destruct (OSCWatcher.process_line lib now clock w line) as [w1 out1].
  cbn in *. by rewrite IH.
Qed.

Lemma file_Start_config {E : Type} (out : Outside E) cb w e :
  FileWatcher.config (FileWatcher.Start out cb w e).1.1 = FileWatcher.config w.
Proof.
  unfold FileWatcher.Start. destruct (FileWatcher.running w); [done |].
  destruct (Stat_IsNotExist out _ e) as [[] e1]; [done |].
  cbn [FileWatcher.workspacePath].
  destruct (WalkDir out _ e1) as [walk e2]. cbn.
  by rewrite FileFacts.scan_only_records.
Qed.

Lemma file_tick_config walk w :
  FileWatcher.config (FileWatcher.checkForChanges walk w).1 = FileWatcher.config w.
Proof.
  revert w. induction walk as [|v walk IH]; intros w; [done |].
  rewrite FileFacts.checkForChanges_cons. cbn [fst]. rewrite IH.
  apply FileFacts.check_visit_callback.
Qed.

Lemma ghci_Start_config {E : Type} (out : Outside E) cb w e :
  GHCiWatcher.config (GHCiWatcher.Start out cb w e).1.1 = GHCiWatcher.config w.
Proof.
  unfold GHCiWatcher.Start. destruct (GHCiWatcher.running w); [done |].
  destruct (time_Now out e) as [now e1]. cbn.
  destruct (StdinPipe out _ e1) as [[pin|err] e2]; [|done].
  destruct (StdoutPipe out _ e2) as [[pout|err] e3]; [|done].
  destruct (StderrPipe out _ e3) as [[perr|err] e4]; [|done].
  by destruct (CmdStart out _ e4) as [[pid|err] e5].
Qed.

Lemma ghci_sendCommand_config io command w :
  GHCiWatcher.config (GHCiWatcher.sendCommand io command w).1 = GHCiWatcher.config w.
Proof. unfold GHCiWatcher.sendCommand. by destruct (GHCiWatcher.stdin w). Qed.

Lemma ghci_initialize_config ios w :
  GHCiWatcher.config (GHCiWatcher.initializeTidal ios w) = GHCiWatcher.config w.
Proof.
  unfold GHCiWatcher.initializeTidal. revert w.
  induction (imap _ GHCiWatcher.initCommands) as [|ci cmds IH]; intros w; [done |].
  cbn [fold_left]. by rewrite IH, ghci_sendCommand_config.
Qed.

Lemma ghci_updateCPS_config lib line w :
  GHCiWatcher.config (GHCiWatcher.updateCPS lib line w) = GHCiWatcher.config w.
Proof.
  unfold GHCiWatcher.updateCPS. cbn. by repeat case_match.
Qed.

Lemma ghci_event_config lib now content success msg w :
  GHCiWatcher.config
    (GHCiWatcher.createPatternExecutionEvent lib now content success msg w).1
  = GHCiWatcher.config w.
Proof.
  unfold GHCiWatcher.createPatternExecutionEvent. cbn.
  by destruct (success && negb _).
Qed.

Lemma ghci_output_config lib now line w :
  GHCiWatcher.config (GHCiWatcher.processOutputLine lib now line w).1
  = GHCiWatcher.config w.
Proof.
  unfold GHCiWatcher.processOutputLine.
  destruct (String.eqb _ "" || _); [done |].
  destruct (GHCiWatcher.isPatternEvaluation _).
  - pose proof (ghci_event_config lib now (TrimSpace lib line) true "" w) as Hev.
    destruct (GHCiWatcher.createPatternExecutionEvent _ _ _ _ _ _) as [w1 event].
    cbn in *. destruct (GHCiWatcher.isCPSChange _); [|done].
    by rewrite ghci_updateCPS_config.
  - cbn. destruct (GHCiWatcher.isCPSChange _); [|done].
    by rewrite ghci_updateCPS_config.
Qed.

Lemma ghci_error_config lib now line w :
  GHCiWatcher.config (GHCiWatcher.processErrorLine lib now line w).1
  = GHCiWatcher.config w.
Proof.
  unfold GHCiWatcher.processErrorLine.
  destruct (String.eqb _ ""); [done |].
  pose proof (ghci_event_config lib now (TrimSpace lib line) false
                (TrimSpace lib line) w) as Hev.
  by destruct (GHCiWatcher.createPatternExecutionEvent _ _ _ _ _ _) as [w1 event].
Qed.

Lemma ghci_ExecutePattern_config io pattern w :
  GHCiWatcher.config (GHCiWatcher.ExecutePattern io pattern w).1
  = GHCiWatcher.config w.
Proof.
  unfold GHCiWatcher.ExecutePattern. destruct (negb _); [done |].
  apply ghci_sendCommand_config.
Qed.

(** No step touches the [Enabled] field. *)
Lemma step_Enabled (lib : GoLib) (c c' : Concrete) :
  step lib c c' ->
  WatcherConfig.Enabled (GetConfig c') = WatcherConfig.Enabled (GetConfig c).
Proof.
  destruct 1 as [E out cb c e | E out c e | now clock message w | walk w
                 | interval w | ios w | now line w | now line w
                 | io pattern w | io w | k v c].
  - destruct c as [w|w|w]; cbn.
    + pose proof (osc_Start_config out cb w e) as Hc.
      destruct (OSCWatcher.Start out cb w e) as [[w' e'] r]. cbn in *.
      unfold OSCWatcher.GetConfig. by rewrite Hc.
    + pose proof (file_Start_config out cb w e) as Hc.
      destruct (FileWatcher.Start out cb w e) as [[w' e'] r]. cbn in *.
      unfold FileWatcher.GetConfig. by rewrite Hc.
    + pose proof (ghci_Start_config out cb w e) as Hc.
      destruct (GHCiWatcher.Start out cb w e) as [[w' e'] r]. cbn in *.
      unfold GHCiWatcher.GetConfig. by rewrite Hc.
  - destruct c as [w|w|w]; cbn.
    + pose proof (osc_Stop_config out w e) as Hc.
      destruct (OSCWatcher.Stop out w e) as [[w' e'] r]. cbn in *.
      unfold OSCWatcher.GetConfig. by rewrite Hc.
    + unfold FileWatcher.Stop. by destruct (FileWatcher.running w).
    + unfold GHCiWatcher.Stop. by destruct (GHCiWatcher.running w).
  - unfold GetConfig, OSCWatcher.GetConfig. by rewrite osc_message_config.
  - unfold GetConfig, FileWatcher.GetConfig. by rewrite file_tick_config.
  - done.
  - unfold GetConfig, GHCiWatcher.GetConfig. by rewrite ghci_initialize_config.
  - unfold GetConfig, GHCiWatcher.GetConfig. by rewrite ghci_output_config.
  - unfold GetConfig, GHCiWatcher.GetConfig. by rewrite ghci_error_config.
  - unfold GetConfig, GHCiWatcher.GetConfig. by rewrite ghci_ExecutePattern_config.
  - unfold GetConfig, GHCiWatcher.GetConfig, GHCiWatcher.Hush.
    by rewrite ghci_ExecutePattern_config.
  - by destruct c.
Qed.

Lemma fresh_Enabled (c : Concrete) :
  fresh c -> WatcherConfig.Enabled (GetConfig c) = true.
Proof. by destruct 1. Qed.

Lemma reachable_Enabled (lib : GoLib) (c : Concrete) :
  reachable lib c -> WatcherConfig.Enabled (GetConfig c) = true.
Proof.
  induction 1 as [c Hfresh | c c' _ IH Hstep].
  - by apply fresh_Enabled.
  - by rewrite (step_Enabled lib c c' Hstep).
Qed.

Lemma createWatcher_fresh (name : string) (config : WatcherConfig.t) (c : Concrete) :
  WatcherService.createWatcher name config = Some (Ok c) -> fresh c.
Proof.
  unfold WatcherService.createWatcher.
  destruct (String.eqb name "sonicpi-osc").
  { intros [= <-]. constructor. }
  destruct (String.eqb name "sonicpi-files").
  { unfold WatcherService.createSonicPiFileWatcher.
    destruct (String.eqb _ ""); [done |]. intros [= <-]. constructor. }
  destruct (String.eqb name "tidal-ghci"); [|done].
  intros [= <-]. constructor.
Qed.

End ConcreteFacts.

(** ** What [Start] and [Stop] do to the three watchers *)

Module WatcherFacts.
Import ConcreteFields.

Section WithOutside.
Context {E : Type} (out : Outside E).

Lemma osc_Start_stopped cb w e :
  OSCWatcher.running w = false ->
  let '(w', e', r) := OSCWatcher.Start out cb w e in
  OSCWatcher.callback w' = cb /\
  OSCWatcher.config w' = OSCWatcher.config w /\
  (r = None <-> OSCWatcher.running w' = true) /\
  (OSCWatcher.running w' = true -> is_Some (OSCWatcher.conn w')).
Proof.
  intros Hrun. unfold OSCWatcher.Start. rewrite Hrun.
  destruct (time_Now out e) as [now e1].
  destruct (ResolveUDPAddr out _ e1) as [[err|] e2]; cbn.
  { rewrite ?Hrun. by split_and!. }
  destruct (ListenUDP out _ e2) as [[c|err] e3]; cbn.
  - by split_and!.
  - rewrite ?Hrun. by split_and!.
Qed.

Lemma file_Start_stopped cb w e :
  FileWatcher.running w = false ->
  let '(w', e', r) := FileWatcher.Start out cb w e in
  FileWatcher.config w' = FileWatcher.config w /\
  (r = None <-> FileWatcher.running w' = true) /\
  (r = None -> FileWatcher.callback w' = cb /\
               FileWatcher.stopChan w' = Some FileWatcher.Open) /\
  (r <> None -> w' = w).
Proof.
  intros Hrun. unfold FileWatcher.Start. rewrite Hrun.
  destruct (Stat_IsNotExist out _ e) as [[|] e1]; cbn.
  { rewrite ?Hrun. by split_and!. }
  destruct (WalkDir out _ e1) as [walk e2].
  rewrite FileFacts.scan_only_records. cbn. by split_and!.
Qed.

Lemma ghci_Start_stopped cb w e :
  GHCiWatcher.running w = false ->
  let '(w', e', r) := GHCiWatcher.Start out cb w e in
  GHCiWatcher.callback w' = cb /\
  GHCiWatcher.config w' = GHCiWatcher.config w /\
  GHCiWatcher.lastPatterns w' = GHCiWatcher.lastPatterns w /\
  (r = None <-> GHCiWatcher.running w' = true) /\
  (GHCiWatcher.running w' = true -> holds_resources (CGHCi w')).
Proof.
  intros Hrun. unfold GHCiWatcher.Start. rewrite Hrun.
  destruct (time_Now out e) as [now e1].
  destruct (StdinPipe out _ e1) as [[pin|err] e2]; cbn;
    [|rewrite ?Hrun; by split_and!].
  destruct (StdoutPipe out _ e2) as [[pout|err] e3]; cbn;
    [|rewrite ?Hrun; by split_and!].
  destruct (StderrPipe out _ e3) as [[perr|err] e4]; cbn;
    [|rewrite ?Hrun; by split_and!].
  destruct (CmdStart out _ e4) as [[pid|err] e5]; cbn;
    [|rewrite ?Hrun; by split_and!].
  split_and!; try done. intros _. split_and!; try by eexists.
  by eexists _, _.
Qed.

Lemma osc_Stop_spec w e :
  let '(w', e', r) := OSCWatcher.Stop out w e in
  OSCWatcher.running w' = false /\
  OSCWatcher.config w' = OSCWatcher.config w /\
  OSCWatcher.callback w' = OSCWatcher.callback w /\
  OSCWatcher.conn w' = OSCWatcher.conn w /\
  (OSCWatcher.running w = false -> w' = w /\ e' = e /\ r = None).
Proof.
  unfold OSCWatcher.Stop. destruct (OSCWatcher.running w) eqn:Hrun; cbn; [|done].
  destruct (OSCWatcher.conn w) as [c|]; [|done].
  by destruct (Close out c e).
Qed.

(** What [Start] gives on a watcher that is not running. *)
Lemma Start_stopped cb c e :
  ConcreteWatcher.IsRunning c = false ->
  let '(c', e', r) := ConcreteWatcher.Start out cb c e in
  ConcreteWatcher.GetConfig c' = ConcreteWatcher.GetConfig c /\
  (r = None <-> ConcreteWatcher.IsRunning c' = true) /\
  (ConcreteWatcher.IsRunning c' = true -> holds_resources c') /\
  (r = None -> callback c' = cb) /\
  (r <> None -> match c with CFile _ => c' = c | _ => callback c' = cb end).
Proof.
  destruct c as [w|w|w]; cbn; intros Hrun.
  - pose proof (osc_Start_stopped cb w e Hrun) as H.
    destruct (OSCWatcher.Start out cb w e) as [[w' e'] r].
    destruct H as (Hcb & Hc & Hr & Hh). by split_and!.
  - pose proof (file_Start_stopped cb w e Hrun) as H.
    destruct (FileWatcher.Start out cb w e) as [[w' e'] r].
    destruct H as (Hc & Hr & Hok & Herr). cbn. split_and!; try done.
    + intros Hw. apply Hok. by apply Hr.
    + intros Hn. by apply Hok.
    + intros Hn. f_equal. by apply Herr.
  - pose proof (ghci_Start_stopped cb w e Hrun) as H.
    destruct (GHCiWatcher.Start out cb w e) as [[w' e'] r].
    destruct H as (Hcb & Hc & _ & Hr & Hh). by split_and!.
Qed.

(** [Start] on a running watcher returns it as it is. *)
Lemma Start_running cb c e :
  ConcreteWatcher.IsRunning c = true ->
  (ConcreteWatcher.Start out cb c e).1 = (c, e) /\
  is_Some (ConcreteWatcher.Start out cb c e).2.
Proof.
  destruct c as [w|w|w]; cbn; intros Hrun.
  - unfold OSCWatcher.Start. unfold OSCWatcher.IsRunning in Hrun. by rewrite Hrun.
  - unfold FileWatcher.Start. unfold FileWatcher.IsRunning in Hrun. by rewrite Hrun.
  - unfold GHCiWatcher.Start. unfold GHCiWatcher.IsRunning in Hrun. by rewrite Hrun.
Qed.

Lemma Stop_spec c e :
  let '(c', e', r) := ConcreteWatcher.Stop out c e in
  ConcreteWatcher.IsRunning c' = false /\
  ConcreteWatcher.GetConfig c' = ConcreteWatcher.GetConfig c /\
  callback c' = callback c /\
  (ConcreteWatcher.IsRunning c = false -> c' = c /\ e' = e /\ r = None) /\
  (r <> None -> exists w, c = COSC w).
Proof.
  destruct c as [w|w|w]; cbn.
  - pose proof (osc_Stop_spec w e) as H.
    destruct (OSCWatcher.Stop out w e) as [[w' e'] r].
    destruct H as (Hr & Hc & Hcb & _ & Hid). split_and!; try done; [|by eexists].
    intros Hrun. destruct (Hid Hrun) as (-> & -> & ->). done.
  - unfold FileWatcher.Stop, FileWatcher.IsRunning.
    destruct (FileWatcher.running w) eqn:Hrun; cbn; by split_and!.
  - unfold GHCiWatcher.Stop, GHCiWatcher.IsRunning.
    destruct (GHCiWatcher.running w) eqn:Hrun; cbn; by split_and!.
Qed.

End WithOutside.
End WatcherFacts.

(** ** The manager's loops over the three watchers *)

Module RunFacts.

Section WithOutside.
Context {E : Type} (out : Outside E).
Implicit Types (σ : Sys.t Concrete E) (l : loc).

#[local] Abbreviation EWc := (Concrete_ExecutionWatcher out).

Lemma call_Start_keeps_running cb l0 σ l :
  is_running (EW := EWc) σ l = true ->
  is_running (EW := EWc) (WatcherManager.call_Start (EW := EWc) cb l0 σ).1 l = true.
Proof.
  intros Hrun. unfold is_running.
  destruct (decide (l0 = l)) as [->|Hne].
  - rewrite ManagerFacts.call_Start_same. cbn.
    by rewrite (proj1 (WatcherFacts.Start_running out cb _ _ Hrun)).
  - by rewrite ManagerFacts.call_Start_other.
Qed.

Lemma call_Start_started cb l σ :
  (WatcherManager.call_Start (EW := EWc) cb l σ).2 = None ->
  is_running (EW := EWc) (WatcherManager.call_Start (EW := EWc) cb l σ).1 l = true.
Proof.
  unfold is_running. rewrite ManagerFacts.call_Start_same.
  unfold WatcherManager.call_Start. cbn.
  destruct (ConcreteWatcher.IsRunning (Sys.objs σ l)) eqn:Hrun.
  - destruct (WatcherFacts.Start_running out cb _ (Sys.env σ) Hrun) as [_ [err Herr]].
    destruct (ConcreteWatcher.Start out cb (Sys.objs σ l) (Sys.env σ)) as [[c' e'] r].
    cbn in *. congruence.
  - pose proof (WatcherFacts.Start_stopped out cb _ (Sys.env σ) Hrun) as H.
    destruct (ConcreteWatcher.Start out cb (Sys.objs σ l) (Sys.env σ)) as [[c' e'] r].
    destruct H as (_ & Hr & _). cbn. intros ->. by apply Hr.
Qed.

Lemma StartAll_range_running cb order : forall sa σ,
  (forall l, is_running (EW := EWc) σ l = true ->
             is_running (EW := EWc) (WatcherManager.StartAll_range (EW := EWc) cb order sa σ).1.2 l = true) /\
  Forall (fun c => outcome c = None ->
            is_running (EW := EWc) (WatcherManager.StartAll_range (EW := EWc) cb order sa σ).1.2 (target c)
            = true)
         (WatcherManager.StartAll_range (EW := EWc) cb order sa σ).2.
Proof.
  induction order as [|[name l0] rest IH]; intros sa σ; [by split |].
  rewrite ManagerFacts.StartAll_range_cons.
  destruct (enabled (EW := EWc) σ l0); [|apply IH].
  destruct (WatcherManager.call_Start (EW := EWc) (Some cb) l0 σ).2 as [err|] eqn:Hr; cbn.
  - split; [intros l; apply call_Start_keeps_running |].
    by constructor.
  - destruct (IH true (WatcherManager.call_Start (EW := EWc) (Some cb) l0 σ).1) as [Hkeep Hall].
    split.
    + intros l Hl. by apply Hkeep, call_Start_keeps_running.
    + constructor; [|done]. cbn. intros _. by apply Hkeep, call_Start_started.
Qed.

Lemma call_Stop_stopped l0 σ l :
  l = l0 \/ is_running (EW := EWc) σ l = false ->
  is_running (EW := EWc) (WatcherManager.call_Stop (EW := EWc) l0 σ).1 l = false.
Proof.
  intros Hl. unfold is_running.
  destruct (decide (l0 = l)) as [->|Hne].
  - unfold WatcherManager.call_Stop. cbn.
    pose proof (WatcherFacts.Stop_spec out (Sys.objs σ l) (Sys.env σ)) as H.
    destruct (ConcreteWatcher.Stop out (Sys.objs σ l) (Sys.env σ)) as [[c' e'] r].
    destruct H as (Hr & _). cbn. by rewrite fn_lookup_insert.
  - rewrite ManagerFacts.call_Stop_other by done.
    destruct Hl as [->|Hl]; done.
Qed.

Lemma StopAll_range_stopped order : forall lastError σ,
  (forall l, is_running (EW := EWc) σ l = false ->
             is_running (EW := EWc) (WatcherManager.StopAll_range (EW := EWc) order lastError σ).1.2 l = false) /\
  (forall name l, (name, l) ∈ order ->
             is_running (EW := EWc) (WatcherManager.StopAll_range (EW := EWc) order lastError σ).1.2 l = false).
Proof.
  induction order as [|[name l0] rest IH]; intros lastError σ.
  { split; [done | by intros ? ? ?%elem_of_nil]. }
  rewrite ManagerFacts.StopAll_range_cons.
  destruct (is_running (EW := EWc) σ l0) eqn:Hrun; cbn.
  - match goal with
    | |- context [WatcherManager.StopAll_range rest ?le ?s] =>
        destruct (IH le s) as [Hkeep Hall]
    end.
    split.
    + intros l Hl. apply Hkeep, call_Stop_stopped. by right.
    + intros n l [[= -> ->]|Hin]%elem_of_cons; [|by apply (Hall n)].
      apply Hkeep, call_Stop_stopped. by left.
  - destruct (IH lastError σ) as [Hkeep Hall]. split; [done |].
    intros n l [[= -> ->]|Hin]%elem_of_cons; [by apply Hkeep | by apply (Hall n)].
Qed.

Lemma StopAll_range_idle order : forall lastError σ,
  (forall name l, (name, l) ∈ order -> is_running (EW := EWc) σ l = false) ->
  WatcherManager.StopAll_range (EW := EWc) order lastError σ = (lastError, σ, []).
Proof.
  induction order as [|[name l0] rest IH]; intros lastError σ Hall; [done |].
  rewrite ManagerFacts.StopAll_range_cons.
  rewrite (Hall name l0) by left. apply IH.
  intros n l Hin. apply (Hall n). by right.
Qed.

End WithOutside.
End RunFacts.

(** C9, amended. The configuration a watcher returns has [Enabled] true
    when the watcher is built, whatever the configuration it is built
    from, and no method or loop step changes the field. [StartAll]
    therefore skips no registered watcher: it calls [Start] entry after
    entry, on all of them when no call fails, and up to the first failing
    call otherwise. The Config Manager is not consulted. The calls are
    what happened: made again in their order from the state at the
    outset they return what the log says and lead to the state [StartAll]
    leaves. So when [StartAll] returns no error every registered watcher
    is running; when it returns one the watchers of the entries before
    the failing one are running, and a watcher behind no entry up to the
    failing one is as it was. *)
Theorem concrete_watchers_always_enabled (lib : GoLib) :
  (forall c, ConcreteWatcher.reachable lib c ->
     WatcherConfig.Enabled (ConcreteWatcher.GetConfig c) = true) /\
  (forall name config c,
     WatcherService.createWatcher name config = Some (Ok c) ->
     ConcreteWatcher.reachable lib c) /\
  (forall (E : Type) (out : Outside E) (order : list (string * loc))
          (wm : WatcherManager.t) (σ : Sys.t Concrete E) (cb : Callback),
     range_order (WatcherManager.watchers wm) order ->
     WatcherManager.callback wm = Some cb ->
     (forall name l, WatcherManager.watchers wm !! name = Some l ->
        ConcreteWatcher.reachable lib (Sys.objs σ l)) ->
     let '(err, wm', σ', calls) :=
       WatcherManager.StartAll (EW := Concrete_ExecutionWatcher out) order wm σ in
     CallLog.records (EW := Concrete_ExecutionWatcher out) (Some cb) calls σ σ' /\
     (err = None ->
        entries calls = order /\
        Forall (fun c => outcome c = None) calls /\
        forall name l, WatcherManager.watchers wm !! name = Some l ->
          is_running (EW := Concrete_ExecutionWatcher out) σ' l = true) /\
     (forall e, err = Some e ->
        exists before name l after cause,
          order = before ++ (name, l) :: after /\
          entries calls = before ++ [(name, l)] /\
          last calls = Some (mkCall MStart name l (Some cause)) /\
          (forall name' l', (name', l') ∈ before ->
             is_running (EW := Concrete_ExecutionWatcher out) σ' l' = true) /\
          (forall l', l' ∉ before.*2 -> l' <> l ->
             Sys.objs σ' l' = Sys.objs σ l'))).
Proof.
  split; [apply ConcreteFacts.reachable_Enabled |].
  split.
  { intros name config c Hc. apply ConcreteWatcher.reach_fresh.
    by apply (ConcreteFacts.createWatcher_fresh name config). }
  intros E out order wm σ cb Hord Hcb Hreach.
  unfold WatcherManager.StartAll. rewrite Hcb.
  pose proof (ManagerFacts.StartAll_range_entries
                (EW := Concrete_ExecutionWatcher out)
                (ConcreteWatcher.reachable lib)
                (ConcreteFacts.reachable_Enabled lib)) as Hent.
  specialize (Hent (fun cb w e H =>
    ConcreteWatcher.reach_step lib w _ H (ConcreteWatcher.step_Start lib out cb w e))).
  specialize (Hent cb order false σ).
  destruct (TraceFacts.StartAll_range_trace
              (EW := Concrete_ExecutionWatcher out) cb order false σ) as [Hrec Htrace].
  destruct (RunFacts.StartAll_range_running out cb order false σ) as [_ Hrunning].
  rewrite Forall_forall in Hrunning.
  destruct (WatcherManager.StartAll_range cb order false σ)
    as [[[sa|e] σ'] calls]; cbn [fst snd] in *.
  - split; [done |]. split; [|done]. intros _.
    assert (entries calls = order) as Hcalls.
    { apply Hent. intros name l Hin.
      apply (Hreach name). by apply (RangeFacts.range_order_elem_of _ _ _ _ Hord). }
    destruct Htrace as [_ Hnone]. split; [done |]. split; [done |].
    intros name l Hreg.
    apply (RangeFacts.range_order_elem_of _ _ _ _ Hord) in Hreg.
    rewrite <- Hcalls in Hreg.
    apply list_elem_of_fmap in Hreg as (c & [= -> ->] & Hc).
    rewrite Forall_forall in Hnone. by apply Hrunning, Hnone.
  - split; [done |]. split; [done |]. intros e' [= <-].
    destruct Hent as (before & name & l & after & Ho & Hcalls).
    { intros name l Hin.
      apply (Hreach name). by apply (RangeFacts.range_order_elem_of _ _ _ _ Hord). }
    destruct Htrace
      as (before' & name' & l' & cause & after' & started & _ & -> & _ & Hnone & _).
    unfold entries in Hcalls. rewrite fmap_app in Hcalls. cbn in Hcalls.
    apply app_inj_tail in Hcalls as [Hstarted [= -> ->]].
    exists before, name, l, after, cause. split; [done |]. split.
    { unfold entries. rewrite fmap_app. cbn. by rewrite Hstarted. }
    split; [apply last_snoc |]. split.
    + intros n0 l0 Hin. rewrite <- Hstarted in Hin.
      apply list_elem_of_fmap in Hin as (c & [= -> ->] & Hc).
      rewrite Forall_forall in Hnone.
      apply Hrunning; [apply elem_of_app; by left | by apply Hnone].
    + intros l0 Hnot Hne.
      apply (TraceFacts.records_untouched (EW := Concrete_ExecutionWatcher out)
               (Some cb) (started ++ [mkCall MStart name l (Some cause)])); [done |].
      rewrite fmap_app. cbn. intros [Hin|Hin%list_elem_of_singleton]%elem_of_app;
        [|done].
      apply Hnot. rewrite <- Hstarted.
      apply list_elem_of_fmap in Hin as (c & -> & Hc).
      apply list_elem_of_fmap. exists (call_name c, target c). split; [done |].
      apply list_elem_of_fmap. by exists c.
Qed.

(** ** Runs of the manager *)

Section Runs.
Import Fixtures.

(** C3, as the specification states it, fails: the registry holds the OSC
    watcher on a port that is taken and the GHCi watcher, both enabled, and
    the loop meets the OSC watcher first. Its [Start] fails, [StartAll]
    returns that error, and [Start] is never called on the GHCi watcher,
    which stays stopped. *)
Lemma StartAll_stops_at_first_failure :
  range_order (WatcherManager.watchers manager_two) order_two /\
  WatcherManager.watchers manager_two !! "tidal-ghci" = Some 2%positive /\
  enabled (EW := Concrete_ExecutionWatcher world0) sys_two 2%positive = true /\
  let '(err, wm', σ', calls) :=
    WatcherManager.StartAll (EW := Concrete_ExecutionWatcher world0)
      order_two manager_two sys_two in
  err = Some ("failed to start watcher sonicpi-osc: "
              +:+ "failed to listen on UDP port 4560: bind: address already in use") /\
  entries calls = [("sonicpi-osc", 1%positive)] /\
  is_running (EW := Concrete_ExecutionWatcher world0) σ' 2%positive = false.
Proof.
  split; [apply (bool_decide_unpack _); vm_compute; exact I |].
  vm_compute. repeat split.
Qed.

(** C9, as the specification states it, fails in its last part: the
    registry holds the file watcher of a workspace that does not exist and
    the GHCi watcher, and the loop meets the file watcher first. Its [Start] fails
    and [StartAll] returns without an attempt to start the GHCi watcher. *)
Lemma StartAll_never_reaches_second_watcher :
  range_order (WatcherManager.watchers manager_files) order_files /\
  WatcherManager.watchers manager_files !! "tidal-ghci" = Some 2%positive /\
  ConcreteWatcher.reachable lib0 (Sys.objs sys_files 2%positive) /\
  let '(err, wm', σ', calls) :=
    WatcherManager.StartAll (EW := Concrete_ExecutionWatcher world0)
      order_files manager_files sys_files in
  err = Some ("failed to start watcher sonicpi-files: "
              +:+ "workspace path does not exist: /missing") /\
  entries calls = [("sonicpi-files", 1%positive)] /\
  Sys.objs σ' 2%positive = CGHCi GHCiWatcher.NewGHCiWatcher.
Proof.
  split; [apply (bool_decide_unpack _); vm_compute; exact I |].
  split; [reflexivity |].
  split; [apply ConcreteWatcher.reach_fresh; constructor |].
  vm_compute. repeat split.
Qed.

(** The end-to-end scenario: [A] enabled and [B] disabled. *)
Example StartAll_StopAll_end_to_end :
  let '(err, wm1, σ1, calls1) :=
    WatcherManager.StartAll order_AB manager_AB sys_AB in
  let '(err', wm2, σ2, calls2) := WatcherManager.StopAll order_AB wm1 σ1 in
  err = None /\
  MockWatcher.IsRunning (Sys.objs σ1 1%positive) = true /\
  MockWatcher.IsRunning (Sys.objs σ1 2%positive) = false /\
  WatcherManager.IsRunning wm1 = true /\
  err' = None /\
  MockWatcher.IsRunning (Sys.objs σ2 1%positive) = false /\
  MockWatcher.IsRunning (Sys.objs σ2 2%positive) = false /\
  WatcherManager.IsRunning wm2 = false.
Proof. vm_compute. repeat split. Qed.

(** The first [Stop] fails and the second watcher is stopped all the
    same. *)
Example StopAll_goes_on_after_failure :
  let '(err, wm', σ', calls) :=
    WatcherManager.StopAll (EW := Concrete_ExecutionWatcher world0)
      order_two manager_running sys_running in
  err = Some ("failed to stop watcher sonicpi-osc: use of closed network connection") /\
  entries calls = order_two /\
  ConcreteWatcher.IsRunning (Sys.objs σ' 1%positive) = false /\
  ConcreteWatcher.IsRunning (Sys.objs σ' 2%positive) = false /\
  WatcherManager.IsRunning wm' = false.
Proof. vm_compute. repeat split. Qed.

Lemma StartAll_enabled_only_witness :
  let '(err, wm', σ', calls) :=
    WatcherManager.StartAll order_AB manager_AB sys_AB in
  CallLog.records (Some (Func 7)) calls sys_AB σ' /\
  Sys.objs σ' 2%positive = Sys.objs sys_AB 2%positive /\
  forall c, c ∈ calls -> enabled sys_AB (target c) = true.
Proof.
  pose proof (StartAll_enabled_only order_AB manager_AB sys_AB) as H.
  destruct (WatcherManager.StartAll order_AB manager_AB sys_AB)
    as [[[err wm'] σ'] calls].
  destruct H as (Hrec & _ & _ & Hcalls & Hdis & _).
  - apply (bool_decide_unpack _). vm_compute. exact I.
  - split; [exact Hrec |].
    split; [by apply Hdis | intros c Hc; by apply Hcalls].
Defined.

Lemma StopAll_continues_witness :
  let '(err, wm', σ', calls) :=
    WatcherManager.StopAll (EW := Concrete_ExecutionWatcher world0)
      order_two manager_running sys_running in
  CallLog.records (EW := Concrete_ExecutionWatcher world0)
    (Some WatcherService.handler) calls sys_running σ' /\
  WatcherManager.running wm' = false /\ err = last_failure calls /\
  exists c, c ∈ calls /\ method c = MStop /\ target c = 2%positive.
Proof.
  pose proof (StopAll_continues (EW := Concrete_ExecutionWatcher world0)
                order_two manager_running sys_running) as H.
  destruct (WatcherManager.StopAll order_two manager_running sys_running)
    as [[[err wm'] σ'] calls].
  destruct H as (Hrec & _ & _ & Hrun & Hall & _ & Herr & _).
  - apply (bool_decide_unpack _). vm_compute. exact I.
  - split; [exact Hrec |].
    split; [done |]. split; [done |]. by apply (Hall "tidal-ghci").
Defined.

Lemma concrete_watchers_always_enabled_witness :
  WatcherConfig.Enabled
    (ConcreteWatcher.GetConfig (CFile (FileWatcher.SetPollInterval lib0 5 file_started)))
  = true /\
  let '(err, wm', σ', calls) :=
    WatcherManager.StartAll (EW := Concrete_ExecutionWatcher world_files)
      order_two manager_two sys_two in
  CallLog.records (EW := Concrete_ExecutionWatcher world_files)
    (Some WatcherService.handler) calls sys_two σ' /\
  (err = None ->
     entries calls = order_two /\
     is_running (EW := Concrete_ExecutionWatcher world_files) σ' 2%positive = true).
Proof.
  destruct (concrete_watchers_always_enabled lib0) as (Hen & _ & Hall).
  split.
  - apply Hen.
    apply (ConcreteWatcher.reach_step _ (CFile file_started));
      [|apply ConcreteWatcher.file_SetPollInterval].
    apply (ConcreteWatcher.reach_step _ (CFile (FileWatcher.NewFileWatcher "/ws")));
      [apply ConcreteWatcher.reach_fresh; constructor |].
    apply (ConcreteWatcher.step_Start lib0 world_files (Some (Func 1))
             (CFile (FileWatcher.NewFileWatcher "/ws")) tt).
  - specialize (Hall unit world_files order_two manager_two sys_two
                  WatcherService.handler).
    destruct (WatcherManager.StartAll order_two manager_two sys_two)
      as [[[err wm'] σ'] calls].
    destruct Hall as (Hrec & Hok & _).
    + apply (bool_decide_unpack _). vm_compute. exact I.
    + reflexivity.
    + intros name l _. apply ConcreteWatcher.reach_fresh. cbn.
      destruct (decide (l = 1%positive)); constructor.
    + split; [exact Hrec |]. intros Herr.
      destruct (Hok Herr) as (Hent & _ & Hrun). split; [exact Hent |].
      apply (Hrun "tidal-ghci"). by vm_compute.
Defined.

End Runs.

(** * Further properties of the code *)

Import Fixtures.

(** ** The configuration manager *)

Module ConfigFacts.
Import ConfigManager.

Lemma set_Watchers_same (c : GlobalConfig.t) :
  GlobalConfig.set_Watchers (GlobalConfig.Watchers c) c = c.
Proof. by destruct c. Qed.

Lemma SetWatcherConfig_same (name : string) (c : WatcherConfig.t) (cm : t) :
  GlobalConfig.Watchers (config cm) !! name = Some c ->
  SetWatcherConfig name c cm = cm.
Proof.
  intros Hc. unfold SetWatcherConfig. rewrite (insert_id _ _ _ Hc).
  rewrite set_Watchers_same. by destruct cm.
Qed.

Lemma range_names_NoDup {V : Type} (m : gmap string V) (order : list (string * V)) :
  range_order m order -> NoDup order.*1.
Proof. unfold range_order. intros ->. apply NoDup_fst_map_to_list. Qed.

Lemma contains_elem_of (slice : list string) (item : string) :
  Watch.contains slice item = true <-> item ∈ slice.
Proof.
  induction slice as [|s rest IH]; cbn.
  - split; [done | by intros ?%elem_of_nil].
  - destruct (String.eqb s item) eqn:Heq.
    + apply String.eqb_eq in Heq as ->. split; [left | done].
    + apply String.eqb_neq in Heq. rewrite IH, elem_of_cons.
      split; [by right | by intros [<-|?]].
Qed.

Lemma elem_of_GetEnabledWatchers (m : gmap string WatcherConfig.t)
    (order : list (string * WatcherConfig.t)) (name : string) :
  range_order m order ->
  (name ∈ GetEnabledWatchers order <->
   exists c, m !! name = Some c /\ WatcherConfig.Enabled c = true).
Proof.
  intros Hord. unfold GetEnabledWatchers. rewrite list_elem_of_fmap. split.
  - intros ([n c] & -> & [Hen Hin]%list_elem_of_filter). exists c.
    split; [|done]. by apply (RangeFacts.range_order_elem_of _ _ _ _ Hord).
  - intros (c & Hc & Hen). exists (name, c). split; [done |].
    apply list_elem_of_filter. split; [done |].
    by apply (RangeFacts.range_order_elem_of _ _ _ _ Hord).
Qed.

Lemma GetEnabledWatchers_NoDup (m : gmap string WatcherConfig.t)
    (order : list (string * WatcherConfig.t)) :
  range_order m order -> NoDup (GetEnabledWatchers order).
Proof.
  intros Hord. apply (sublist_NoDup _ order.*1); [by apply (range_names_NoDup m) |].
  apply fmap_sublist, sublist_filter.
Qed.

End ConfigFacts.

(** X1. [EnableWatcher] and [DisableWatcher] of the configuration manager
    return the not-found error for a name that has no configuration and
    change nothing; for a configured name they return no error and set
    that watcher's [Enabled], leaving its other fields, the other
    watchers, the path and the rest of the global configuration as they
    were. When the flag already has the value, the manager is unchanged. *)
Theorem EnableWatcher_DisableWatcher (name : string) (cm : ConfigManager.t) :
  match ConfigManager.GetWatcherConfig name cm with
  | None =>
      ConfigManager.EnableWatcher name cm =
        (cm, Some ("watcher '" +:+ name +:+ "' not found")) /\
      ConfigManager.DisableWatcher name cm =
        (cm, Some ("watcher '" +:+ name +:+ "' not found"))
  | Some c =>
      forall (b : bool) (cm' : ConfigManager.t) (err : option error),
      (if b then ConfigManager.EnableWatcher name cm
       else ConfigManager.DisableWatcher name cm) = (cm', err) ->
      err = None /\
      ConfigManager.GetWatcherConfig name cm' =
        Some (WatcherConfig.mk (WatcherConfig.Language c) (WatcherConfig.Environment c)
                b (WatcherConfig.Options c)) /\
      (forall other, other <> name ->
         ConfigManager.GetWatcherConfig other cm' =
         ConfigManager.GetWatcherConfig other cm) /\
      ConfigManager.configPath cm' = ConfigManager.configPath cm /\
      GlobalConfig.set_Watchers (GlobalConfig.Watchers (ConfigManager.config cm))
        (ConfigManager.config cm') = ConfigManager.config cm /\
      (WatcherConfig.Enabled c = b -> cm' = cm)
  end.
Proof.
  unfold ConfigManager.GetWatcherConfig.
  destruct (GlobalConfig.Watchers (ConfigManager.config cm) !! name) as [c|] eqn:Hc.
  - intros b cm' err Hrun.
    assert ((cm', err) =
            (ConfigManager.SetWatcherConfig name (WatcherConfig.set_Enabled b c) cm, None))
      as [= -> ->].
    { rewrite <- Hrun.
      destruct b; unfold ConfigManager.EnableWatcher, ConfigManager.DisableWatcher;
        by rewrite Hc. }
    split; [done |]. split.
    { cbn. by rewrite lookup_insert_eq. }
    split.
    { intros other Hne. cbn. by rewrite lookup_insert_ne. }
    split; [done |]. split.
    { cbn. by destruct (ConfigManager.config cm). }
    intros <-. apply ConfigFacts.SetWatcherConfig_same.
    rewrite Hc. by destruct c.
  - unfold ConfigManager.EnableWatcher, ConfigManager.DisableWatcher. by rewrite Hc.
Qed.

Lemma EnableWatcher_DisableWatcher_witness :
  ConfigManager.GetWatcherConfig "tidal-ghci"
    (ConfigManager.EnableWatcher "tidal-ghci" (ConfigManager.NewConfigManager "w.json")).1
  = Some (WatcherConfig.mk "tidal" "tidal-cycles" true
            (<["ghci_command" := "ghci"]> (<["boot_file" := "BootTidal.hs"]> ∅))).
Proof.
  pose proof (EnableWatcher_DisableWatcher "tidal-ghci"
                (ConfigManager.NewConfigManager "w.json")) as H.
  cbn in H.
  destruct (H true _ _ eq_refl) as (_ & Hget & _). exact Hget.
Defined.

(** X2. [SetWatcherOption] returns the not-found error for a watcher that
    has no configuration and changes nothing. Otherwise the option reads
    back with the value set, the watcher's other options, its language,
    environment and enabled flag are as before, and so is the entry of
    every other watcher. But the write goes through the map: another
    watcher whose entry holds the same map reads the new value too, and
    only the options of a watcher that does not share the map are as
    before. *)
Theorem SetWatcherOption_reads_back (watcherName optionName optionValue : string)
    (cm : SharedOptions.t) :
  SharedOptions.allocated cm ->
  match SharedOptions.GetWatcherConfig watcherName cm with
  | None =>
      SharedOptions.SetWatcherOption watcherName optionName optionValue cm =
        (cm, Some ("watcher '" +:+ watcherName +:+ "' not found"))
  | Some c =>
      exists cm' c',
        SharedOptions.SetWatcherOption watcherName optionName optionValue cm =
          (cm', None) /\
        SharedOptions.allocated cm' /\
        SharedOptions.GetWatcherConfig watcherName cm' = Some c' /\
        SharedOptions.options cm' c' =
          <[optionName := optionValue]> (SharedOptions.options cm c) /\
        SharedOptions.Language c' = SharedOptions.Language c /\
        SharedOptions.Environment c' = SharedOptions.Environment c /\
        SharedOptions.Enabled c' = SharedOptions.Enabled c /\
        (forall other, other <> watcherName ->
           SharedOptions.GetWatcherConfig other cm' =
           SharedOptions.GetWatcherConfig other cm) /\
        (forall other c2, other <> watcherName ->
           SharedOptions.GetWatcherConfig other cm = Some c2 ->
           SharedOptions.options cm' c2 =
             if SharedOptions.shared c c2
             then <[optionName := optionValue]> (SharedOptions.options cm c2)
             else SharedOptions.options cm c2)
  end.
Proof.
  intros Halloc.
  unfold SharedOptions.GetWatcherConfig, SharedOptions.SetWatcherOption.
  destruct (SharedOptions.Watchers cm !! watcherName) as [c|] eqn:Hc; [|done].
  assert (forall c2 l2 other, SharedOptions.Watchers cm !! other = Some c2 ->
            SharedOptions.Options c2 = Some l2 ->
            l2 <> SharedOptions.make cm) as Hfresh.
  { intros c2 l2 other Hc2 Hl2 ->.
    destruct (Halloc other c2 _ Hc2 Hl2) as [m Hm].
    apply (is_fresh (dom (SharedOptions.maps cm))).
    apply elem_of_dom. by exists m. }
  destruct (SharedOptions.Options c) as [l|] eqn:Hl.
  - eexists _, _. split; [done |]. cbn [SharedOptions.Watchers SharedOptions.maps].
    split_and!.
    + intros name config l0 Hn Hl0. cbn in *.
      destruct (decide (l = l0)) as [<-|Hne].
      { rewrite lookup_insert_eq. by eexists. }
      rewrite lookup_insert_ne by done.
      destruct (decide (watcherName = name)) as [<-|Hname].
      { rewrite lookup_insert_eq in Hn. injection Hn as <-. cbn in Hl0. congruence. }
      rewrite lookup_insert_ne in Hn by done. by apply (Halloc name config).
    + by rewrite lookup_insert_eq.
    + unfold SharedOptions.options. cbn. by rewrite lookup_insert_eq, Hl.
    + done.
    + done.
    + done.
    + intros other Hne. by rewrite lookup_insert_ne.
    + intros other c2 Hne Hc2. unfold SharedOptions.options, SharedOptions.shared.
      rewrite Hl. cbn. destruct (SharedOptions.Options c2) as [l2|]; [|done].
      case_bool_decide as Hshare.
      * subst l2. by rewrite lookup_insert_eq.
      * by rewrite lookup_insert_ne.
  - eexists _, _. split; [done |]. cbn [SharedOptions.Watchers SharedOptions.maps].
    split_and!.
    + intros name config l0 Hn Hl0. cbn in *.
      destruct (decide (SharedOptions.make cm = l0)) as [<-|Hne].
      { rewrite lookup_insert_eq. by eexists. }
      rewrite !lookup_insert_ne by done.
      destruct (decide (watcherName = name)) as [<-|Hname].
      { rewrite lookup_insert_eq in Hn. injection Hn as <-. cbn in Hl0. congruence. }
      rewrite lookup_insert_ne in Hn by done. by apply (Halloc name config).
    + by rewrite lookup_insert_eq.
    + unfold SharedOptions.options. cbn. by rewrite !lookup_insert_eq, Hl.
    + done.
    + done.
    + done.
    + intros other Hne. by rewrite lookup_insert_ne.
    + intros other c2 Hne Hc2. unfold SharedOptions.options, SharedOptions.shared.
      rewrite Hl. cbn. destruct (SharedOptions.Options c2) as [l2|] eqn:Hl2; [|done].
      rewrite !lookup_insert_ne; [done | |];
        intros Heq; by apply (Hfresh c2 l2 other).
Qed.

Lemma SetWatcherOption_reads_back_witness :
  SharedOptions.options shared_two shared_osc !! "osc_port" = Some "4559" /\
  SharedOptions.GetWatcherConfig "backup"
    (SharedOptions.SetWatcherOption "sonicpi-osc" "osc_port" "4560" shared_two).1
  = Some shared_osc /\
  SharedOptions.options
    (SharedOptions.SetWatcherOption "sonicpi-osc" "osc_port" "4560" shared_two).1
    shared_osc !! "osc_port" = Some "4560".
Proof.
  split; [reflexivity |].
  pose proof (SetWatcherOption_reads_back "sonicpi-osc" "osc_port" "4560" shared_two)
    as H.
  change (SharedOptions.GetWatcherConfig "sonicpi-osc" shared_two)
    with (Some shared_osc) in H.
  destruct H as (cm' & c' & Heq & _ & _ & _ & _ & _ & _ & Hentry & Hshared).
  { intros name config l Hn Hl.
    assert (config = shared_osc) as ->.
    { change (SharedOptions.Watchers shared_two)
        with (<["backup" := shared_osc]>
                (<["sonicpi-osc" := shared_osc]> (∅ : gmap string SharedOptions.Config)))
        in Hn.
      apply lookup_insert_Some in Hn as [[_ <-]|[_ Hn]]; [done |].
      apply lookup_insert_Some in Hn as [[_ <-]|[_ Hn]]; [done |].
      by rewrite lookup_empty in Hn. }
    injection Hl as <-. by eexists. }
  rewrite Heq. cbn [fst]. split.
  - rewrite (Hentry "backup") by done. reflexivity.
  - rewrite (Hshared "backup" shared_osc); [| done | reflexivity].
    change (SharedOptions.shared shared_osc shared_osc) with true. cbn match.
    by rewrite lookup_insert_eq.
Defined.

(** X3. In whatever order the map of watcher configurations is ranged
    over, [GetEnabledWatchers] lists each name at most once, and the
    [contains] of the watch command finds a name in the list exactly when
    the name has a configuration whose [Enabled] is true; hence the
    status the watch command prints. *)
Theorem GetEnabledWatchers_contains (cm : ConfigManager.t)
    (order : list (string * WatcherConfig.t)) (name : string) :
  range_order (GlobalConfig.Watchers (ConfigManager.config cm)) order ->
  NoDup (ConfigManager.GetEnabledWatchers order) /\
  (Watch.contains (ConfigManager.GetEnabledWatchers order) name = true <->
   exists c, ConfigManager.GetWatcherConfig name cm = Some c /\
             WatcherConfig.Enabled c = true) /\
  Watch.status (ConfigManager.GetEnabledWatchers order) name =
    match ConfigManager.GetWatcherConfig name cm with
    | Some c => if WatcherConfig.Enabled c then "enabled" else "disabled"
    | None => "disabled"
    end.
Proof.
  intros Hord.
  pose proof (ConfigFacts.elem_of_GetEnabledWatchers _ _ name Hord) as Hin.
  rewrite <- ConfigFacts.contains_elem_of in Hin.
  split; [by apply (ConfigFacts.GetEnabledWatchers_NoDup _ _ Hord) |].
  split; [exact Hin |].
  unfold Watch.status, ConfigManager.GetWatcherConfig.
  destruct (Watch.contains _ name).
  - destruct Hin as [Hin _]. destruct (Hin eq_refl) as (c & -> & ->). done.
  - destruct (GlobalConfig.Watchers (ConfigManager.config cm) !! name) as [c|]; [|done].
    destruct (WatcherConfig.Enabled c) eqn:Hen; [|done].
    destruct Hin as [_ Hin]. by discriminate Hin; eauto.
Qed.

Lemma GetEnabledWatchers_contains_witness :
  Watch.status
    (ConfigManager.GetEnabledWatchers
       (map_to_list (GlobalConfig.Watchers DefaultGlobalConfig))) "sonicpi-osc"
  = "disabled".
Proof.
  destruct (GetEnabledWatchers_contains (ConfigManager.NewConfigManager "w.json")
              (map_to_list (GlobalConfig.Watchers DefaultGlobalConfig)) "sonicpi-osc")
    as (_ & _ & Hst); [apply RangeFacts.range_order_map_to_list |].
  exact Hst.
Defined.

Module ValidateFacts.
Import ConfigManager.

Section WithOutside.
Context {E : Type} (out : Outside E).

(** Only the file watcher's configuration is checked against the disk. *)
Lemma validateWatcherConfig_pure (name : string) (c : WatcherConfig.t) (e e0 : E) :
  name <> "sonicpi-files" ->
  (validateWatcherConfig out name c e).2 = e /\
  (validateWatcherConfig out name c e).1 = (validateWatcherConfig out name c e0).1.
Proof.
  intros Hne. unfold validateWatcherConfig.
  destruct (String.eqb (WatcherConfig.Language c) ""); [done |].
  destruct (String.eqb (WatcherConfig.Environment c) ""); [done |].
  destruct (String.eqb name "sonicpi-osc"); [done |].
  destruct (String.eqb name "sonicpi-files") eqn:Hf;
    [by apply String.eqb_eq in Hf |].
  by destruct (String.eqb name "tidal-ghci").
Qed.

Lemma ValidateConfig_range_None (order : list (string * WatcherConfig.t)) :
  forall e : E,
  NoDup order.*1 ->
  ((ValidateConfig_range out order e).1 = None <->
   forall name c, (name, c) ∈ order -> (validateWatcherConfig out name c e).1 = None).
Proof.
  induction order as [|[n c] rest IH]; intros e Hnd.
  { split; [by intros _ ? ? ?%elem_of_nil | done]. }
  cbn [ValidateConfig_range]. cbn in Hnd. apply NoDup_cons in Hnd as [Hn Hnd].
  destruct (validateWatcherConfig out n c e) as [[err|] e'] eqn:Hv.
  { split; [done |]. intros Hall.
    specialize (Hall n c (list_elem_of_here _ _)). by rewrite Hv in Hall. }
  rewrite (IH e' Hnd). split.
  - intros Hall name c0 [[= -> ->]|Hin]%elem_of_cons; [by rewrite Hv |].
    destruct (decide (n = "sonicpi-files")) as [->|Hnf].
    + assert (name <> "sonicpi-files") as Hne.
      { intros ->. apply Hn. apply list_elem_of_fmap. by exists ("sonicpi-files", c0). }
      rewrite (proj2 (validateWatcherConfig_pure name c0 e e' Hne)). by apply Hall.
    + pose proof (proj1 (validateWatcherConfig_pure n c e e Hnf)) as He.
      rewrite Hv in He. cbn in He. subst e'. by apply Hall.
  - intros Hall name c0 Hin.
    destruct (decide (n = "sonicpi-files")) as [->|Hnf].
    + assert (name <> "sonicpi-files") as Hne.
      { intros ->. apply Hn. apply list_elem_of_fmap. by exists ("sonicpi-files", c0). }
      rewrite (proj2 (validateWatcherConfig_pure name c0 e' e Hne)).
      apply Hall. by right.
    + pose proof (proj1 (validateWatcherConfig_pure n c e e Hnf)) as He.
      rewrite Hv in He. cbn in He. subst e'. apply Hall. by right.
Qed.

Lemma validateWatcherConfig_None (name : string) (c : WatcherConfig.t) (e : E) :
  (validateWatcherConfig out name c e).1 = None <->
  WatcherConfig.Language c <> "" /\ WatcherConfig.Environment c <> "" /\
  (name = "sonicpi-osc" -> WatcherConfig.Options c !! "osc_port" <> Some "") /\
  (name = "tidal-ghci" -> WatcherConfig.Options c !! "ghci_command" <> Some "") /\
  (name = "sonicpi-files" ->
     forall p, WatcherConfig.Options c !! "workspace_path" = Some p -> p <> "" ->
       (Stat_IsNotExist out p e).1 = false).
Proof.
  unfold validateWatcherConfig.
  destruct (String.eqb (WatcherConfig.Language c) "") eqn:Hl.
  { apply String.eqb_eq in Hl. split; [done | by intros [? _]]. }
  destruct (String.eqb (WatcherConfig.Environment c) "") eqn:Hv.
  { apply String.eqb_eq in Hv. split; [done | by intros (_ & ? & _)]. }
  apply String.eqb_neq in Hl, Hv.
  destruct (String.eqb name "sonicpi-osc") eqn:Hosc.
  { apply String.eqb_eq in Hosc as ->. unfold validateSonicPiOSCConfig. cbn.
    destruct (WatcherConfig.Options c !! "osc_port") as [portStr|] eqn:Hp.
    - destruct (String.eqb portStr "") eqn:He.
      + apply String.eqb_eq in He as ->.
        split; [done |]. intros (_ & _ & Hport & _). by destruct Hport.
      + apply String.eqb_neq in He. split; [|done]. intros _.
        repeat split; try done. by intros _ [= ?].
    - split; [|done]. intros _. by repeat split. }
  destruct (String.eqb name "sonicpi-files") eqn:Hfiles.
  { apply String.eqb_eq in Hfiles as ->. unfold validateSonicPiFilesConfig.
    destruct (WatcherConfig.Options c !! "workspace_path") as [p|] eqn:Hp.
    - destruct (String.eqb p "") eqn:He; cbn [negb].
      + apply String.eqb_eq in He as ->. split; [|done]. intros _.
        repeat split; try done. by intros _ p [= <-].
      + apply String.eqb_neq in He.
        destruct (Stat_IsNotExist out p e) as [notExist e'] eqn:Hs.
        destruct notExist; cbn.
        * split; [done |]. intros (_ & _ & _ & _ & Hf).
          specialize (Hf eq_refl p eq_refl He). by rewrite Hs in Hf.
        * split; [|done]. intros _. repeat split; try done.
          intros _ p' [= <-] _. by rewrite Hs.
    - split; [|done]. intros _. by repeat split. }
  destruct (String.eqb name "tidal-ghci") eqn:Hghci.
  { apply String.eqb_eq in Hghci as ->. unfold validateTidalGHCiConfig. cbn.
    destruct (WatcherConfig.Options c !! "ghci_command") as [ghciCmd|] eqn:Hp.
    - destruct (String.eqb ghciCmd "") eqn:He.
      + apply String.eqb_eq in He as ->.
        split; [done |]. intros (_ & _ & _ & Hcmd & _). by destruct Hcmd.
      + apply String.eqb_neq in He. split; [|done]. intros _.
        repeat split; try done. by intros _ [= ?].
    - split; [|done]. intros _. by repeat split. }
  apply String.eqb_neq in Hosc, Hfiles, Hghci. cbn. split; [|done].
  intros _. by repeat split.
Qed.

End WithOutside.
End ValidateFacts.

(** X4. [ValidateConfig] accepts a configuration exactly when the log
    level is one of debug, info, warn and error, and every watcher
    configuration has a language and an environment, the OSC watcher's
    port and the GHCi watcher's command are not set to the empty text,
    and the file watcher's workspace path, when set and not empty,
    exists. The verdict is the same in whatever order the watchers are
    ranged over. An invalid log level is reported first, before the disk
    is looked at. *)
Theorem ValidateConfig_accepts {E : Type} (out : Outside E) (cm : ConfigManager.t)
    (order : list (string * WatcherConfig.t)) (e : E) :
  range_order (GlobalConfig.Watchers (ConfigManager.config cm)) order ->
  ((ConfigManager.ValidateConfig out order cm e).1 = None <->
   GlobalConfig.LogLevel (ConfigManager.config cm) ∈ ["debug"; "info"; "warn"; "error"] /\
   forall name c, ConfigManager.GetWatcherConfig name cm = Some c ->
     WatcherConfig.Language c <> "" /\ WatcherConfig.Environment c <> "" /\
     (name = "sonicpi-osc" -> WatcherConfig.Options c !! "osc_port" <> Some "") /\
     (name = "tidal-ghci" -> WatcherConfig.Options c !! "ghci_command" <> Some "") /\
     (name = "sonicpi-files" ->
        forall p, WatcherConfig.Options c !! "workspace_path" = Some p -> p <> "" ->
          (Stat_IsNotExist out p e).1 = false)) /\
  (GlobalConfig.LogLevel (ConfigManager.config cm) ∉ ["debug"; "info"; "warn"; "error"] ->
   ConfigManager.ValidateConfig out order cm e =
     (Some ("invalid log level: " +:+ GlobalConfig.LogLevel (ConfigManager.config cm)), e)).
Proof.
  intros Hord. unfold ConfigManager.ValidateConfig.
  assert (existsb (String.eqb (GlobalConfig.LogLevel (ConfigManager.config cm)))
            ConfigManager.validLogLevels = true <->
          GlobalConfig.LogLevel (ConfigManager.config cm)
            ∈ ["debug"; "info"; "warn"; "error"]) as Hlevel.
  { rewrite existsb_exists. unfold ConfigManager.validLogLevels. split.
    - intros (x & Hin & ->%String.eqb_eq). by apply list_elem_of_In.
    - intros Hin. eexists. split; [by apply list_elem_of_In |]. apply String.eqb_refl. }
  destruct (existsb _ _).
  - split; [|intros Hn; destruct Hn; by apply Hlevel].
    rewrite (ValidateFacts.ValidateConfig_range_None out order e
               (ConfigFacts.range_names_NoDup _ _ Hord)).
    split.
    + intros Hall. split; [by apply Hlevel |]. intros name c Hc.
      apply (ValidateFacts.validateWatcherConfig_None out). apply Hall.
      by apply (RangeFacts.range_order_elem_of _ _ _ _ Hord).
    + intros [_ Hall] name c Hin.
      apply (ValidateFacts.validateWatcherConfig_None out). apply Hall.
      by apply (RangeFacts.range_order_elem_of _ _ _ _ Hord).
  - split; [|done]. split; [done |]. intros [Hin _]. by apply Hlevel in Hin.
Qed.

Lemma ValidateConfig_accepts_witness :
  ConfigManager.ValidateConfig world0
    (map_to_list (GlobalConfig.Watchers DefaultGlobalConfig))
    (ConfigManager.UpdateConfig
       (GlobalConfig.mk (GlobalConfig.Watchers DefaultGlobalConfig)
          "sonicpi" true "" "" "verbose")
       (ConfigManager.NewConfigManager "w.json")) tt
  = (Some "invalid log level: verbose", tt).
Proof.
  destruct (ValidateConfig_accepts world0
              (ConfigManager.UpdateConfig
                 (GlobalConfig.mk (GlobalConfig.Watchers DefaultGlobalConfig)
                    "sonicpi" true "" "" "verbose")
                 (ConfigManager.NewConfigManager "w.json"))
              (map_to_list (GlobalConfig.Watchers DefaultGlobalConfig)) tt)
    as [_ Hbad]; [apply RangeFacts.range_order_map_to_list |].
  apply Hbad. apply (bool_decide_unpack _). vm_compute. exact I.
Defined.

(** ** The service: starting and stopping *)

Module StartFacts.
Import WatcherService.

Section Interface.
Context {Repo Template W E : Type} `{EW : !ExecutionWatcher W E}.
Implicit Types (ws : WatcherService.t Repo Template) (σ : Sys.t W E).

Lemma Start_range_cons name rest ws σ :
  Start_range (name :: rest) ws σ =
  match WatcherManager.GetWatcher name (manager ws) with
  | Some l =>
      let s := WatcherManager.call_Start (WatcherManager.callback (manager ws)) l σ in
      match s.2 with
      | Some err =>
          (Some (wrap_error ("failed to start watcher " +:+ name +:+ ": ") err),
           s.1, [mkCall MStart name l (Some err)])
      | None =>
          let r := Start_range rest ws s.1 in
          (r.1.1, r.1.2, mkCall MStart name l None :: r.2)
      end
  | None => Start_range rest ws σ
  end.
Proof.
  cbn [Start_range].
  destruct (WatcherManager.GetWatcher name (manager ws)) as [l|]; [|done].
  destruct (WatcherManager.call_Start _ l σ) as [σ1 [err|]]; [done |].
  cbn. by destruct (Start_range rest ws σ1) as [[res σ2] calls].
Qed.

Lemma Start_range_calls names ws : forall σ,
  Forall (fun c => method c = MStart /\ call_name c ∈ names /\
                   WatcherManager.GetWatcher (call_name c) (manager ws)
                   = Some (target c))
         (Start_range names ws σ).2.
Proof.
  induction names as [|name rest IH]; intros σ; [by constructor |].
  rewrite Start_range_cons.
  destruct (WatcherManager.GetWatcher name (manager ws)) as [l|] eqn:Hl.
  - cbn zeta.
    destruct (WatcherManager.call_Start _ l σ).2 as [err|]; cbn.
    + constructor; [|constructor]. cbn. split; [done |]. split; [left | done].
    + constructor; [cbn; split; [done |]; split; [left | done] |].
      eapply Forall_impl; [apply IH |]. intros c (? & ? & ?).
      split; [done |]. split; [by right | done].
  - eapply Forall_impl; [apply IH |]. intros c (? & ? & ?).
    split; [done |]. split; [by right | done].
Qed.

Lemma Start_range_None names ws : forall σ,
  (Start_range names ws σ).1.1 = None ->
  Forall (fun c => outcome c = None) (Start_range names ws σ).2 /\
  forall name l, name ∈ names ->
    WatcherManager.GetWatcher name (manager ws) = Some l ->
    exists c, c ∈ (Start_range names ws σ).2 /\ call_name c = name /\ target c = l.
Proof.
  induction names as [|name rest IH]; intros σ.
  { intros _. split; [constructor | by intros ? ? ?%elem_of_nil]. }
  rewrite Start_range_cons.
  destruct (WatcherManager.GetWatcher name (manager ws)) as [l|] eqn:Hl.
  - cbn zeta.
    destruct (WatcherManager.call_Start _ l σ).2 as [err|]; cbn; [done |].
    intros Hres. destruct (IH _ Hres) as [Hall Hex]. split; [by constructor |].
    intros name' l' [->|Hin]%elem_of_cons Hl'.
    + rewrite Hl in Hl'. injection Hl' as <-. eexists. split; [left | done].
    + destruct (Hex name' l' Hin Hl') as (c & Hc & ? & ?).
      exists c. split; [by right | done].
  - intros Hres. destruct (IH _ Hres) as [Hall Hex]. split; [done |].
    intros name' l' [->|Hin]%elem_of_cons Hl'; [congruence |]. by apply Hex.
Qed.

Lemma Start_range_Some names ws : forall σ e,
  (Start_range names ws σ).1.1 = Some e ->
  exists before name l cause,
    (Start_range names ws σ).2 = before ++ [mkCall MStart name l (Some cause)] /\
    Forall (fun c => outcome c = None) before /\
    name ∈ names /\
    WatcherManager.GetWatcher name (manager ws) = Some l /\
    e = wrap_error ("failed to start watcher " +:+ name +:+ ": ") cause.
Proof.
  induction names as [|name rest IH]; intros σ e; [done |].
  rewrite Start_range_cons.
  destruct (WatcherManager.GetWatcher name (manager ws)) as [l|] eqn:Hl.
  - cbn zeta.
    destruct (WatcherManager.call_Start _ l σ).2 as [err|]; cbn.
    + intros [= <-]. exists [], name, l, err.
      split; [done |]. split; [constructor |]. split; [left | done].
    + intros Hres.
      destruct (IH _ _ Hres) as (before & n & l' & cause & -> & Hb & Hin & Hl' & ->).
      exists (mkCall MStart name l None :: before), n, l', cause.
      split; [done |]. split; [by constructor |]. split; [by right | done].
  - intros Hres.
    destruct (IH _ _ Hres) as (before & n & l' & cause & -> & Hb & Hin & Hl' & ->).
    exists before, n, l', cause.
    split; [done |]. split; [done |]. split; [by right | done].
Qed.

(** The log of the loop is a true record of what it did. *)
Lemma Start_range_records names ws : forall σ,
  CallLog.records (WatcherManager.callback (manager ws))
    (Start_range names ws σ).2 σ (Start_range names ws σ).1.2.
Proof.
  induction names as [|name rest IH]; intros σ; [done |].
  rewrite Start_range_cons.
  destruct (WatcherManager.GetWatcher name (manager ws)) as [l|]; [|apply IH].
  cbn zeta.
  destruct (WatcherManager.call_Start _ l σ) as [σ1 [err|]] eqn:Hcall;
    cbn [fst snd].
  - apply TraceFacts.records_cons; rewrite TraceFacts.perform_Start, Hcall; done.
  - apply TraceFacts.records_cons; rewrite TraceFacts.perform_Start, Hcall;
      [done |]. apply IH.
Qed.

End Interface.
End StartFacts.

(** X5. [Start] of the service refuses a running service and changes
    nothing. Otherwise it calls [Start], with the manager's callback,
    only on watchers that the configuration manager has enabled and the
    manager has registered: an enabled name with no registered watcher
    is passed over without an error. When no call fails every such
    watcher has been called and the service is running, even if nothing
    was called; at the first call that fails [Start] returns that error
    and leaves the service not running, and a [Stop] that follows does
    nothing. The manager, with its own running flag, is never changed.
    The calls are what happened: made again in their order from the
    state at the outset they return what the log says and lead to the
    state [Start] leaves, and an object none of them is made on is as it
    was. *)
Theorem Service_Start_enabled_registered {Repo Template W E : Type}
    `{EW : !ExecutionWatcher W E}
    (order : list (string * WatcherConfig.t)) (ws : WatcherService.t Repo Template)
    (σ : Sys.t W E) :
  range_order
    (GlobalConfig.Watchers (ConfigManager.config (WatcherService.configManager ws)))
    order ->
  let '(err, ws', σ', calls) := WatcherService.Start order ws σ in
  WatcherService.manager ws' = WatcherService.manager ws /\
  CallLog.records (WatcherManager.callback (WatcherService.manager ws)) calls σ σ' /\
  (forall l, l ∉ target <$> calls -> Sys.objs σ' l = Sys.objs σ l) /\
  (WatcherService.running ws = true ->
     err = Some "watcher service is already running" /\
     ws' = ws /\ σ' = σ /\ calls = []) /\
  (forall c, c ∈ calls ->
     method c = MStart /\
     WatcherManager.GetWatcher (call_name c) (WatcherService.manager ws) = Some (target c) /\
     exists config,
       WatcherService.GetWatcherConfig (call_name c) ws = Some config /\
       WatcherConfig.Enabled config = true) /\
  (WatcherService.running ws = false -> err = None ->
     WatcherService.running ws' = true /\
     Forall (fun c => outcome c = None) calls /\
     forall name config l,
       WatcherService.GetWatcherConfig name ws = Some config ->
       WatcherConfig.Enabled config = true ->
       WatcherManager.GetWatcher name (WatcherService.manager ws) = Some l ->
       exists c, c ∈ calls /\ call_name c = name /\ target c = l) /\
  (forall e, WatcherService.running ws = false -> err = Some e ->
     ws' = ws /\
     (forall order', WatcherService.Stop order' ws' σ' = (None, ws', σ', [])) /\
     exists before name l cause,
       calls = before ++ [mkCall MStart name l (Some cause)] /\
       Forall (fun c => outcome c = None) before /\
       e = wrap_error ("failed to start watcher " +:+ name +:+ ": ") cause).
Proof.
  intros Hord. unfold WatcherService.Start.
  destruct (WatcherService.running ws) eqn:Hrun.
  { split; [done |]. split; [done |]. split; [done |]. split; [done |].
    split; [by intros c ?%elem_of_nil |].
    split; [done |]. by intros e [=]. }
  pose proof (StartFacts.Start_range_calls
                (ConfigManager.GetEnabledWatchers order) ws σ) as Hcalls.
  pose proof (StartFacts.Start_range_None
                (ConfigManager.GetEnabledWatchers order) ws σ) as Hnone.
  pose proof (StartFacts.Start_range_Some
                (ConfigManager.GetEnabledWatchers order) ws σ) as Hsome.
  pose proof (StartFacts.Start_range_records
                (ConfigManager.GetEnabledWatchers order) ws σ) as Hrec.
  destruct (WatcherService.Start_range (ConfigManager.GetEnabledWatchers order) ws σ)
    as [[[e|] σ'] calls]; cbn [fst snd] in *.
  - split; [done |]. split; [done |].
    split; [intros l; by apply (TraceFacts.records_untouched
                                  (WatcherManager.callback (WatcherService.manager ws)) calls) |].
    split; [done |]. split.
    { intros c Hc. rewrite Forall_forall in Hcalls.
      destruct (Hcalls c Hc) as (Hm & Hin & Hl). split; [done |]. split; [done |].
      by apply (ConfigFacts.elem_of_GetEnabledWatchers _ _ _ Hord). }
    split; [done |]. intros e' _ [= <-]. split; [done |]. split.
    { intros order'. unfold WatcherService.Stop. by rewrite Hrun. }
    destruct (Hsome e eq_refl) as (before & name & l & cause & -> & Hb & _ & _ & ->).
    by exists before, name, l, cause.
  - split; [done |]. split; [done |].
    split; [intros l; by apply (TraceFacts.records_untouched
                                  (WatcherManager.callback (WatcherService.manager ws)) calls) |].
    split; [done |]. split.
    { intros c Hc. rewrite Forall_forall in Hcalls.
      destruct (Hcalls c Hc) as (Hm & Hin & Hl). split; [done |]. split; [done |].
      by apply (ConfigFacts.elem_of_GetEnabledWatchers _ _ _ Hord). }
    split; [|done]. intros _ _. split; [done |].
    destruct (Hnone eq_refl) as [Hall Hex]. split; [done |].
    intros name config l Hc Hen Hl. apply Hex; [|done].
    apply (ConfigFacts.elem_of_GetEnabledWatchers _ _ _ Hord). eauto.
Qed.

Lemma Service_Start_enabled_registered_witness :
  let '(err, ws', σ', calls) :=
    WatcherService.Start (EW := Concrete_ExecutionWatcher world0)
      (map_to_list (GlobalConfig.Watchers
         (ConfigManager.config (WatcherService.configManager service_ready))))
      service_ready sys_free in
  err = None /\
  CallLog.records (EW := Concrete_ExecutionWatcher world0)
    (Some WatcherService.handler) calls sys_free σ' /\
  exists c, c ∈ calls /\ call_name c = "sonicpi-osc" /\ target c = 1%positive.
Proof.
  pose proof (Service_Start_enabled_registered (EW := Concrete_ExecutionWatcher world0)
                (map_to_list (GlobalConfig.Watchers
                   (ConfigManager.config (WatcherService.configManager service_ready))))
                service_ready sys_free
                (RangeFacts.range_order_map_to_list _)) as H.
  assert ((WatcherService.Start (EW := Concrete_ExecutionWatcher world0)
             (map_to_list (GlobalConfig.Watchers
                (ConfigManager.config (WatcherService.configManager service_ready))))
             service_ready sys_free).1.1.1 = None) as Herr
    by (vm_compute; reflexivity).
  destruct (WatcherService.Start _ service_ready sys_free) as [[[err ws'] σ'] calls].
  cbn [fst] in Herr. destruct H as (_ & Hrec & _ & _ & _ & Hok & _).
  split; [exact Herr |]. split; [exact Hrec |].
  destruct (Hok eq_refl Herr) as (_ & _ & Hall).
  eapply (Hall "sonicpi-osc" _ 1%positive); by vm_compute.
Defined.

(** ** The service: configuration changes and events *)

Module ServiceFacts2.

Lemma size_filter_enable (m : gmap string WatcherConfig.t) (name : string)
    (c : WatcherConfig.t) :
  m !! name = Some c ->
  size (filter (fun nc : string * WatcherConfig.t => WatcherConfig.Enabled nc.2 = true)
          (<[name := WatcherConfig.set_Enabled true c]> m)) =
  (size (filter (fun nc : string * WatcherConfig.t => WatcherConfig.Enabled nc.2 = true) m)
   + (if WatcherConfig.Enabled c then 0 else 1))%nat.
Proof.
  intros Hc. rewrite map_filter_insert_True by done.
  destruct (WatcherConfig.Enabled c) eqn:Hen.
  - rewrite map_size_insert_Some; [lia |].
    exists c. by apply map_lookup_filter_Some.
  - rewrite map_size_insert_None; [lia |].
    apply map_lookup_filter_None. right. intros c' Hc'. cbn.
    rewrite Hc in Hc'. injection Hc' as <-. by rewrite Hen.
Qed.

Lemma length_append (s t : string) :
  String.length (s +:+ t) = (String.length s + String.length t)%nat.
Proof.
  induction s as [|a s IH]; [done |].
  rewrite StringFacts.app_cons. cbn. by rewrite IH.
Qed.

Lemma substring_0_split (m : nat) : forall s : string,
  (m <= String.length s)%nat ->
  exists rest, s = String.substring 0 m s +:+ rest /\
               String.length (String.substring 0 m s) = m.
Proof.
  induction m as [|m IH]; intros s Hm.
  - exists s. by destruct s.
  - destruct s as [|a s]; [cbn in Hm; lia |].
    destruct (IH s) as (rest & Hs & Hlen); [cbn in Hm; lia |].
    exists rest. cbn [String.substring]. rewrite StringFacts.app_cons.
    split; [by rewrite <- Hs | cbn; by rewrite Hlen].
Qed.

End ServiceFacts2.

(** X6. [EnableWatcher] of the service returns the not-found error for a
    name with no configuration and changes nothing. For a configured
    name it returns what saving the configuration returns, and the
    watcher is enabled in memory even when saving failed: the
    [ActiveWatchers] that [GetStats] reports afterwards is one more than
    before if the watcher was disabled, and the same if it was enabled.
    No watcher is started or stopped and the running flag is unchanged. *)
Theorem Service_EnableWatcher_ActiveWatchers {Repo Template : Type}
    (save : option error) (name : string) (ws : WatcherService.t Repo Template)
    (order order' : list (string * WatcherConfig.t)) :
  range_order
    (GlobalConfig.Watchers (ConfigManager.config (WatcherService.configManager ws)))
    order ->
  let '(ws', err) := WatcherService.EnableWatcher save name ws in
  range_order
    (GlobalConfig.Watchers (ConfigManager.config (WatcherService.configManager ws')))
    order' ->
  WatcherService.running ws' = WatcherService.running ws /\
  WatcherService.manager ws' = WatcherService.manager ws /\
  match WatcherService.GetWatcherConfig name ws with
  | None => err = Some ("watcher '" +:+ name +:+ "' not found") /\ ws' = ws
  | Some c =>
      err = save /\
      WatcherService.GetWatcherConfig name ws' =
        Some (WatcherConfig.set_Enabled true c) /\
      ServiceStats.ActiveWatchers (WatcherService.GetStats order' ws') =
      ServiceStats.ActiveWatchers (WatcherService.GetStats order ws)
      + (if WatcherConfig.Enabled c then 0 else 1)
  end.
Proof.
  intros Hord. unfold WatcherService.EnableWatcher, ConfigManager.EnableWatcher,
    WatcherService.GetWatcherConfig, ConfigManager.GetWatcherConfig.
  destruct (GlobalConfig.Watchers (ConfigManager.config (WatcherService.configManager ws))
              !! name) as [c|] eqn:Hc; [|done].
  cbn. intros Hord'. split; [done |]. split; [done |]. split; [done |].
  split; [by rewrite lookup_insert_eq |].
  unfold ConfigManager.GetEnabledWatchers. rewrite !length_fmap.
  rewrite (RangeFacts.range_filter_length _ _ _ Hord),
    (RangeFacts.range_filter_length _ _ _ Hord').
  rewrite (ServiceFacts2.size_filter_enable _ _ _ Hc).
  destruct (WatcherConfig.Enabled c); lia.
Qed.

Lemma Service_EnableWatcher_ActiveWatchers_witness :
  WatcherService.running service_enabled = false.
Proof.
  pose proof (Service_EnableWatcher_ActiveWatchers None "sonicpi-osc" service0
                (map_to_list (GlobalConfig.Watchers
                   (ConfigManager.config (WatcherService.configManager service0))))
                (map_to_list (GlobalConfig.Watchers
                   (ConfigManager.config (WatcherService.configManager service_enabled))))
                (RangeFacts.range_order_map_to_list _)) as H.
  unfold service_enabled in *.
  destruct (WatcherService.EnableWatcher None "sonicpi-osc" service0) as [ws' err].
  destruct H as [Hrun _]; [apply RangeFacts.range_order_map_to_list |].
  exact Hrun.
Defined.

(** X7. With room for the three dots, [truncateString] returns a text no
    longer than the bound: the text itself when it fits, and otherwise
    its first [maxLen - 3] bytes followed by three dots. *)
Theorem truncateString_bound (s : string) (maxLen : nat) :
  (3 <= maxLen)%nat ->
  (String.length (truncateString s maxLen) <= maxLen)%nat /\
  ((String.length s <= maxLen)%nat -> truncateString s maxLen = s) /\
  ((maxLen < String.length s)%nat ->
     exists kept dropped,
       s = kept +:+ dropped /\ String.length kept = (maxLen - 3)%nat /\
       truncateString s maxLen = kept +:+ "...").
Proof.
  intros Hmax. unfold truncateString.
  destruct (String.length s <=? maxLen)%nat eqn:Hle.
  - apply Nat.leb_le in Hle. split; [done |]. split; [done | lia].
  - apply Nat.leb_gt in Hle.
    destruct (ServiceFacts2.substring_0_split (maxLen - 3) s) as (rest & Hs & Hlen);
      [lia |].
    split; [|split; [lia |]].
    + rewrite ServiceFacts2.length_append, Hlen. cbn. lia.
    + intros _. by exists (String.substring 0 (maxLen - 3) s), rest.
Qed.

Lemma truncateString_bound_witness :
  (String.length (truncateString "live_loop :drums do sample :bd_haus end # a long line"
                    50) <= 50)%nat.
Proof.
  apply (truncateString_bound
           "live_loop :drums do sample :bd_haus end # a long line" 50).
  lia.
Defined.

(** X8. [handleExecutionEvent] never changes the manager, the
    configuration manager, the running flag, the auto-commit flag or the
    template. It calls [Commit] only when auto-commit is on and the
    message template renders: with auto-commit off, or when rendering
    fails, the repository is as before. The first line it logs names the
    event's language and buffer with the content cut to fifty bytes. *)
Theorem handleExecutionEvent_frame {Repo Template : Type}
    (ext : Collaborators Repo Template) (lib : GoLib)
    (event : ExecutionEvent.t) (ws : WatcherService.t Repo Template) :
  let '(ws', how, logs) := WatcherService.handleExecutionEvent ext lib event ws in
  WatcherService.manager ws' = WatcherService.manager ws /\
  WatcherService.configManager ws' = WatcherService.configManager ws /\
  WatcherService.running ws' = WatcherService.running ws /\
  WatcherService.autoCommit ws' = WatcherService.autoCommit ws /\
  WatcherService.commitMessageTmpl ws' = WatcherService.commitMessageTmpl ws /\
  head logs =
    Some ("Execution detected: " +:+ ExecutionEvent.Language event +:+ "/"
          +:+ ExecutionEvent.Buffer event +:+ " - "
          +:+ truncateString (ExecutionEvent.Content event) 50) /\
  (WatcherService.autoCommit ws = false ->
     WatcherService.repository ws' = WatcherService.repository ws /\
     how = Returns /\ length logs = 1%nat) /\
  (forall tmpl e,
     WatcherService.commitMessageTmpl ws = Some tmpl ->
     Execute ext tmpl (WatcherService.template_data lib event) = Err e ->
     WatcherService.repository ws' = WatcherService.repository ws /\
     how = Returns /\
     (WatcherService.autoCommit ws = true ->
      logs !! 1%nat =
        Some ("Failed to create auto-commit: failed to generate commit message: "
              +:+ e))) /\
  (forall tmpl message,
     WatcherService.autoCommit ws = true ->
     WatcherService.commitMessageTmpl ws = Some tmpl ->
     Execute ext tmpl (WatcherService.template_data lib event) = Ok message ->
     WatcherService.repository ws' =
       (Commit ext (WatcherService.repository ws) (ExecutionEvent.Content event)
          message (ExecutionEvent.ToExecutionMetadata event)).1).
Proof.
  unfold WatcherService.handleExecutionEvent. cbn.
  destruct (WatcherService.autoCommit ws) eqn:Hauto; [|by repeat split].
  unfold WatcherService.createAutoCommit, WatcherService.generateCommitMessage. cbn.
  destruct (WatcherService.commitMessageTmpl ws) as [tmpl|] eqn:Htmpl;
    [|by repeat split].
  destruct (Execute ext tmpl (WatcherService.template_data lib event))
    as [message|e] eqn:Hex.
  - destruct (Commit ext (WatcherService.repository ws) (ExecutionEvent.Content event)
                message (ExecutionEvent.ToExecutionMetadata event)) as [repo' r] eqn:Hc.
    destruct r as [err|]; cbn; rewrite ?Hauto, ?Htmpl; split_and!; try done.
    + intros tmpl' e' [= <-]. by rewrite Hex.
    + intros tmpl' m' _ [= <-]. rewrite Hex. intros [= <-]. by rewrite Hc.
    + intros tmpl' e' [= <-]. by rewrite Hex.
    + intros tmpl' m' _ [= <-]. rewrite Hex. intros [= <-]. by rewrite Hc.
  - cbn. rewrite ?Hauto, ?Htmpl. split_and!; try done.
    + intros tmpl' e' [= <-]. rewrite Hex. by intros [= <-].
    + intros tmpl' m' _ [= <-]. by rewrite Hex.
Qed.

Lemma handleExecutionEvent_frame_witness :
  WatcherService.repository
    (WatcherService.handleExecutionEvent store0 lib0 event0 service0).1.1
  = [("test code", "Auto-commit: sonicpi")].
Proof.
  pose proof (handleExecutionEvent_frame store0 lib0 event0 service0) as H.
  destruct (WatcherService.handleExecutionEvent store0 lib0 event0 service0)
    as [[ws' how] logs].
  destruct H as (_ & _ & _ & _ & _ & _ & _ & _ & Hcommit).
  exact (Hcommit "Auto-commit: " "Auto-commit: sonicpi" eq_refl eq_refl eq_refl).
Defined.

(** ** The service: building the watchers *)

Module RegisterFacts.
Import WatcherService.

Lemma registerWatchers_range_spec {E : Type}
    (order : list (string * WatcherConfig.t)) :
  forall (next : loc) (wm : WatcherManager.t) (σ : Sys.t Concrete E),
  NoDup order.*1 ->
  let '(wm', σ', logs) := registerWatchers_range order next wm σ in
  WatcherManager.callback wm' = WatcherManager.callback wm /\
  WatcherManager.running wm' = WatcherManager.running wm /\
  Sys.env σ' = Sys.env σ /\
  (forall l, (l < next)%positive -> Sys.objs σ' l = Sys.objs σ l) /\
  (forall name, name ∉ order.*1 ->
     WatcherManager.watchers wm' !! name = WatcherManager.watchers wm !! name) /\
  (forall name config, (name, config) ∈ order ->
     match createWatcher name config with
     | Some (Ok watcher) =>
         exists l, WatcherManager.watchers wm' !! name = Some l /\
                   Sys.objs σ' l = watcher /\ (next <= l)%positive
     | Some (Err err) =>
         WatcherManager.watchers wm' !! name = WatcherManager.watchers wm !! name /\
         ("Failed to create watcher " +:+ name +:+ ": " +:+ err) ∈ logs
     | None =>
         WatcherManager.watchers wm' !! name = WatcherManager.watchers wm !! name /\
         ("Unknown watcher type: " +:+ name) ∈ logs
     end).
Proof.
  induction order as [|[n c] rest IH]; intros next wm σ Hnd.
  { cbn. split_and!; try done. by intros ? ? ?%elem_of_nil. }
  cbn in Hnd. apply NoDup_cons in Hnd as [Hn Hnd].
  cbn [registerWatchers_range].
  assert (forall name (config : WatcherConfig.t), (name, config) ∈ rest -> name <> n)
    as Hrest.
  { intros name config Hin ->. apply Hn, list_elem_of_fmap. by exists (n, config). }
  destruct (createWatcher n c) as [[watcher|err]|] eqn:Hcw.
  - specialize (IH (Pos.succ next) (WatcherManager.RegisterWatcher n next wm)
                  (Sys.mk (<[next := watcher]> (Sys.objs σ)) (Sys.env σ)) Hnd).
    destruct (registerWatchers_range rest _ _ _) as [[wm' σ'] logs].
    destruct IH as (Hcb & Hrun & Henv & Hold & Hout & Hin).
    split_and!; try done.
    + intros l Hl. rewrite Hold by lia. cbn. apply fn_lookup_insert_ne. lia.
    + intros name Hname. rewrite fmap_cons, not_elem_of_cons in Hname.
      destruct Hname as [Hne Hname]. rewrite (Hout _ Hname). cbn.
      by rewrite lookup_insert_ne.
    + intros name config [[= -> ->]|Hin']%elem_of_cons.
      * rewrite Hcw. exists next. rewrite (Hout _ Hn). cbn.
        rewrite lookup_insert_eq. split; [done |]. split; [|lia].
        rewrite Hold by lia. cbn. apply fn_lookup_insert.
      * specialize (Hin name config Hin'). pose proof (Hrest _ _ Hin') as Hne.
        destruct (createWatcher name config) as [[w'|err']|].
        -- destruct Hin as (l & Hl & Hobj & Hle). exists l.
           split; [done |]. split; [done | lia].
        -- destruct Hin as [Hw Hlog]. split; [|done]. rewrite Hw. cbn.
           by rewrite lookup_insert_ne.
        -- destruct Hin as [Hw Hlog]. split; [|done]. rewrite Hw. cbn.
           by rewrite lookup_insert_ne.
  - specialize (IH next wm σ Hnd).
    destruct (registerWatchers_range rest next wm σ) as [[wm' σ'] logs].
    destruct IH as (Hcb & Hrun & Henv & Hold & Hout & Hin).
    split_and!; try done.
    + intros name Hname. rewrite fmap_cons, not_elem_of_cons in Hname.
      apply Hout, Hname.
    + intros name config [[= -> ->]|Hin']%elem_of_cons.
      * rewrite Hcw. split; [by apply Hout | apply list_elem_of_here].
      * specialize (Hin name config Hin').
        destruct (createWatcher name config) as [[w'|err']|]; [done | |];
          (destruct Hin as [Hw Hlog]; split; [done | by apply list_elem_of_further]).
  - specialize (IH next wm σ Hnd).
    destruct (registerWatchers_range rest next wm σ) as [[wm' σ'] logs].
    destruct IH as (Hcb & Hrun & Henv & Hold & Hout & Hin).
    split_and!; try done.
    + intros name Hname. rewrite fmap_cons, not_elem_of_cons in Hname.
      apply Hout, Hname.
    + intros name config [[= -> ->]|Hin']%elem_of_cons.
      * rewrite Hcw. split; [by apply Hout | apply list_elem_of_here].
      * specialize (Hin name config Hin').
        destruct (createWatcher name config) as [[w'|err']|]; [done | |];
          (destruct Hin as [Hw Hlog]; split; [done | by apply list_elem_of_further]).
Qed.

End RegisterFacts.

(** X9. [registerWatchers] registers a watcher under each configured name
    for which [createWatcher] builds one, at a new pointer, and logs a
    line for each name it passes over: an unknown name, or a watcher that
    could not be built. The other entries of the registry, the objects
    that existed before, the callback and the manager's running flag are
    left as they were. *)
Theorem registerWatchers_registry {Repo Template E : Type}
    (order : list (string * WatcherConfig.t)) (next : loc)
    (ws : WatcherService.t Repo Template) (σ : Sys.t Concrete E)
    (configs : gmap string WatcherConfig.t) :
  range_order configs order ->
  let '(ws', σ', logs) := WatcherService.registerWatchers order next ws σ in
  let wm := WatcherService.manager ws in
  let wm' := WatcherService.manager ws' in
  WatcherService.set_manager wm ws' = ws /\
  WatcherManager.callback wm' = WatcherManager.callback wm /\
  WatcherManager.running wm' = WatcherManager.running wm /\
  Sys.env σ' = Sys.env σ /\
  (forall l, (l < next)%positive -> Sys.objs σ' l = Sys.objs σ l) /\
  forall name,
    match configs !! name with
    | None => WatcherManager.GetWatcher name wm' = WatcherManager.GetWatcher name wm
    | Some config =>
        match WatcherService.createWatcher name config with
        | Some (Ok watcher) =>
            exists l, WatcherManager.GetWatcher name wm' = Some l /\
                      Sys.objs σ' l = watcher /\ (next <= l)%positive
        | Some (Err err) =>
            WatcherManager.GetWatcher name wm' = WatcherManager.GetWatcher name wm /\
            ("Failed to create watcher " +:+ name +:+ ": " +:+ err) ∈ logs
        | None =>
            WatcherManager.GetWatcher name wm' = WatcherManager.GetWatcher name wm /\
            ("Unknown watcher type: " +:+ name) ∈ logs
        end
    end.
Proof.
  intros Hord. unfold WatcherService.registerWatchers.
  pose proof (RegisterFacts.registerWatchers_range_spec order next
                (WatcherService.manager ws) σ
                (ConfigFacts.range_names_NoDup _ _ Hord)) as Hspec.
  destruct (WatcherService.registerWatchers_range order next
              (WatcherService.manager ws) σ) as [[wm' σ'] logs].
  destruct Hspec as (Hcb & Hrun & Henv & Hold & Hout & Hin).
  cbn. split_and!; try done; [by destruct ws |].
  intros name. unfold WatcherManager.GetWatcher.
  destruct (configs !! name) as [config|] eqn:Hc.
  - apply Hin. by apply (RangeFacts.range_order_elem_of _ _ _ _ Hord).
  - apply Hout. intros ([n c] & -> & Hin')%list_elem_of_fmap.
    apply (RangeFacts.range_order_elem_of _ _ _ _ Hord) in Hin'. cbn in Hc. congruence.
Qed.

Lemma registerWatchers_registry_witness :
  let '(ws', σ', logs) :=
    WatcherService.registerWatchers
      (map_to_list (GlobalConfig.Watchers DefaultGlobalConfig)) 1%positive
      service0 sys_osc in
  Sys.env σ' = Sys.env sys_osc.
Proof.
  pose proof (registerWatchers_registry
                (map_to_list (GlobalConfig.Watchers DefaultGlobalConfig)) 1%positive
                service0 sys_osc (GlobalConfig.Watchers DefaultGlobalConfig)
                (RangeFacts.range_order_map_to_list _)) as H.
  destruct (WatcherService.registerWatchers _ 1%positive service0 sys_osc)
    as [[ws' σ'] logs].
  destruct H as (_ & _ & _ & Henv & _). exact Henv.
Defined.

(** X10. [DisableWatcher] of the service stops the named watcher first,
    but only when the service is running and the watcher is registered
    and running; a service that is not running stops nothing. When that
    [Stop] fails the error is returned and the configuration is not
    touched, so the watcher stays enabled. Otherwise the watcher is
    disabled in the configuration manager: the not-found error for a name
    with no configuration, and else what saving returns, with the
    watcher disabled in memory either way. *)
Theorem Service_DisableWatcher {Repo Template W E : Type} `{EW : !ExecutionWatcher W E}
    (save : option error) (name : string) (ws : WatcherService.t Repo Template)
    (σ : Sys.t W E) :
  let '(err, ws', σ', calls) := WatcherService.DisableWatcher save name ws σ in
  WatcherService.running ws' = WatcherService.running ws /\
  WatcherService.manager ws' = WatcherService.manager ws /\
  (WatcherService.running ws = false -> calls = [] /\ σ' = σ) /\
  (forall l, WatcherService.running ws = true ->
     WatcherManager.GetWatcher name (WatcherService.manager ws) = Some l ->
     is_running σ l = true ->
     calls = [mkCall MStop name l (WatcherManager.call_Stop l σ).2] /\
     σ' = (WatcherManager.call_Stop l σ).1) /\
  (forall c, c ∈ calls ->
     calls = [c] /\ method c = MStop /\ call_name c = name /\
     WatcherService.running ws = true /\
     WatcherManager.GetWatcher name (WatcherService.manager ws) = Some (target c) /\
     is_running σ (target c) = true) /\
  (forall c cause, c ∈ calls -> outcome c = Some cause ->
     err = Some ("failed to stop watcher: " +:+ cause) /\ ws' = ws) /\
  (Forall (fun c => outcome c = None) calls ->
     match WatcherService.GetWatcherConfig name ws with
     | None => err = Some ("watcher '" +:+ name +:+ "' not found") /\ ws' = ws
     | Some config =>
         err = save /\
         WatcherService.GetWatcherConfig name ws' =
           Some (WatcherConfig.set_Enabled false config) /\
         forall other, other <> name ->
           WatcherService.GetWatcherConfig other ws' =
           WatcherService.GetWatcherConfig other ws
     end).
Proof.
  unfold WatcherService.DisableWatcher.
  assert (forall (σ1 : Sys.t W E) (calls : list Call),
    Forall (fun c => outcome c = None) calls ->
    let '(err, ws', σ', calls') :=
      match ConfigManager.DisableWatcher name (WatcherService.configManager ws) with
      | (_, Some e) => (Some e, ws, σ1, calls)
      | (cm, None) => (save, WatcherService.set_configManager cm ws, σ1, calls)
      end in
    σ' = σ1 /\ calls' = calls /\
    WatcherService.running ws' = WatcherService.running ws /\
    WatcherService.manager ws' = WatcherService.manager ws /\
    match WatcherService.GetWatcherConfig name ws with
    | None => err = Some ("watcher '" +:+ name +:+ "' not found") /\ ws' = ws
    | Some config =>
        err = save /\
        WatcherService.GetWatcherConfig name ws' =
          Some (WatcherConfig.set_Enabled false config) /\
        forall other, other <> name ->
          WatcherService.GetWatcherConfig other ws' =
          WatcherService.GetWatcherConfig other ws
    end) as Hconfig.
  { intros σ1 calls _.
    unfold ConfigManager.DisableWatcher, WatcherService.GetWatcherConfig,
      ConfigManager.GetWatcherConfig.
    destruct (GlobalConfig.Watchers
                (ConfigManager.config (WatcherService.configManager ws)) !! name)
      as [config|] eqn:Hc; [|done].
    cbn. split_and!; try done; [by rewrite lookup_insert_eq |].
    intros other Hne. by rewrite lookup_insert_ne. }
  destruct (WatcherService.running ws) eqn:Hrun.
  2:{ specialize (Hconfig σ [] (Forall_nil_2 _)).
      destruct (ConfigManager.DisableWatcher name (WatcherService.configManager ws))
        as [cm [e|]]; cbn in Hconfig |- *; destruct Hconfig as (_ & _ & Hr & Hm & Hcfg);
        (split_and!; try done;
         first [by intros c ?%elem_of_nil | by intros c cause ?%elem_of_nil]). }
  destruct (WatcherManager.GetWatcher name (WatcherService.manager ws)) as [l|] eqn:Hl.
  2:{ specialize (Hconfig σ [] (Forall_nil_2 _)).
      destruct (ConfigManager.DisableWatcher name (WatcherService.configManager ws))
        as [cm [e|]]; cbn in Hconfig |- *; destruct Hconfig as (_ & _ & Hr & Hm & Hcfg);
        (split_and!; try done;
         first [by intros c ?%elem_of_nil | by intros c cause ?%elem_of_nil]). }
  destruct (is_running σ l) eqn:Hlr.
  2:{ specialize (Hconfig σ [] (Forall_nil_2 _)).
      destruct (ConfigManager.DisableWatcher name (WatcherService.configManager ws))
        as [cm [e|]]; cbn in Hconfig |- *; destruct Hconfig as (_ & _ & Hr & Hm & Hcfg);
        (split_and!; try done;
         first [by intros l' _ [= <-]; congruence | by intros c ?%elem_of_nil
               | by intros c cause ?%elem_of_nil]). }
  destruct (WatcherManager.call_Stop l σ) as [σ1 [cause|]] eqn:Hstop.
  - cbn. split_and!; try done.
    + intros l' _ [= <-] _. by rewrite Hstop.
    + by intros c ->%list_elem_of_singleton.
    + by intros c cause' ->%list_elem_of_singleton [= <-].
    + by intros [[=] _]%Forall_cons.
  - specialize (Hconfig σ1 [mkCall MStop name l None]).
    cbn.
    destruct (ConfigManager.DisableWatcher name (WatcherService.configManager ws))
      as [cm [e|]]; cbn in Hconfig |- *; destruct Hconfig as (_ & _ & Hr & Hm & Hcfg);
      try (by repeat constructor);
      (split_and!; try done;
       [intros l' _ [= <-] _; by rewrite Hstop
       | by intros c ->%list_elem_of_singleton
       | by intros c cause' ->%list_elem_of_singleton [=]]).
Qed.

Lemma Service_DisableWatcher_witness :
  let '(err, ws', σ', calls) :=
    WatcherService.DisableWatcher (EW := Concrete_ExecutionWatcher world0)
      None "sonicpi-osc" service_osc sys_osc in
  calls = [mkCall MStop "sonicpi-osc" 1%positive
             (WatcherManager.call_Stop (EW := Concrete_ExecutionWatcher world0)
                1%positive sys_osc).2].
Proof.
  pose proof (Service_DisableWatcher (EW := Concrete_ExecutionWatcher world0)
                None "sonicpi-osc" service_osc sys_osc) as H.
  destruct (WatcherService.DisableWatcher None "sonicpi-osc" service_osc sys_osc)
    as [[[err ws'] σ'] calls].
  destruct H as (_ & _ & _ & Hcall & _).
  apply (Hcall 1%positive); [reflexivity | by vm_compute | by vm_compute].
Defined.

(** ** The three watchers: starting, stopping, and what they hold *)

(** X11. For each of the three watchers, [Start] on a watcher that is not
    running returns no error exactly when the watcher is running
    afterwards, and then the callback given is the one stored. The
    configuration is never changed. A [Start] that fails leaves the file
    watcher exactly as it was, whereas the OSC and GHCi watchers have
    already stored the new callback when they fail. *)
Theorem Start_from_stopped {E : Type} (out : Outside E)
    (cb : option Callback) (c : Concrete) (e : E) :
  ConcreteWatcher.IsRunning c = false ->
  let '(c', e', r) := ConcreteWatcher.Start out cb c e in
  ConcreteWatcher.GetConfig c' = ConcreteWatcher.GetConfig c /\
  (r = None <-> ConcreteWatcher.IsRunning c' = true) /\
  (r = None -> ConcreteFields.callback c' = cb) /\
  (r <> None ->
     match c with
     | CFile _ => c' = c
     | _ => ConcreteFields.callback c' = cb
     end).
Proof.
  intros Hrun. pose proof (WatcherFacts.Start_stopped out cb c e Hrun) as H.
  destruct (ConcreteWatcher.Start out cb c e) as [[c' e'] r].
  destruct H as (Hc & Hr & _ & Hok & Herr). by split_and!.
Qed.

Lemma Start_from_stopped_witness :
  let '(c', e', r) :=
    ConcreteWatcher.Start world0 (Some WatcherService.handler)
      (COSC (OSCWatcher.NewOSCWatcher 4559 "")) tt in
  r = None <-> ConcreteWatcher.IsRunning c' = true.
Proof.
  pose proof (Start_from_stopped world0 (Some WatcherService.handler)
                (COSC (OSCWatcher.NewOSCWatcher 4559 "")) tt eq_refl) as H.
  destruct (ConcreteWatcher.Start world0 (Some WatcherService.handler)
              (COSC (OSCWatcher.NewOSCWatcher 4559 "")) tt) as [[c' e'] r].
  destruct H as (_ & Hiff & _). exact Hiff.
Defined.

(** X12. For each of the three watchers, [Stop] leaves the watcher not
    running whatever it returns, and keeps its configuration and its
    callback. On a watcher that is not running it returns no error,
    changes nothing and makes no call to the outside, so a second [Stop]
    does nothing. Only the OSC watcher's [Stop] can return an error. *)
Theorem Stop_stops {E : Type} (out : Outside E) (c : Concrete) (e : E) :
  let '(c', e', r) := ConcreteWatcher.Stop out c e in
  ConcreteWatcher.IsRunning c' = false /\
  ConcreteWatcher.GetConfig c' = ConcreteWatcher.GetConfig c /\
  ConcreteFields.callback c' = ConcreteFields.callback c /\
  (ConcreteWatcher.IsRunning c = false -> c' = c /\ e' = e /\ r = None) /\
  ConcreteWatcher.Stop out c' e' = (c', e', None) /\
  (r <> None -> exists w, c = COSC w).
Proof.
  pose proof (WatcherFacts.Stop_spec out c e) as H.
  destruct (ConcreteWatcher.Stop out c e) as [[c' e'] r].
  destruct H as (Hr & Hc & Hcb & Hid & Hosc). split_and!; try done.
  pose proof (WatcherFacts.Stop_spec out c' e') as H'.
  destruct (ConcreteWatcher.Stop out c' e') as [[c2 e2] r2].
  destruct H' as (_ & _ & _ & Hid' & _). by destruct (Hid' Hr) as (-> & -> & ->).
Qed.

Lemma Stop_stops_witness :
  ConcreteWatcher.Stop world0 (CGHCi GHCiWatcher.NewGHCiWatcher) tt
  = (CGHCi GHCiWatcher.NewGHCiWatcher, tt, None).
Proof.
  pose proof (Stop_stops world0 (CGHCi GHCiWatcher.NewGHCiWatcher) tt) as H.
  destruct (ConcreteWatcher.Stop world0 (CGHCi GHCiWatcher.NewGHCiWatcher) tt)
    as [[c' e'] r].
  destruct H as (_ & _ & _ & Hidle & _).
  destruct (Hidle eq_refl) as (-> & -> & ->). reflexivity.
Defined.

Module ResourceFacts.
Import ConcreteFields.

Lemma ghci_kept_refl w : ghci_kept w w.
Proof. by repeat split. Qed.

Lemma ghci_kept_trans w1 w2 w3 : ghci_kept w1 w2 -> ghci_kept w2 w3 -> ghci_kept w1 w3.
Proof.
  intros (H1 & H2 & H3 & H4 & H5 & H6) (K1 & K2 & K3 & K4 & K5 & K6).
  split_and!; try congruence. by rewrite H6.
Qed.

Lemma osc_process_line_kept lib now clock w line :
  osc_kept w (OSCWatcher.process_line lib now clock w line).1.
Proof.
  unfold OSCWatcher.process_line, OSCWatcher.updateBPM.
  repeat case_match; by repeat split.
Qed.

Lemma osc_message_kept lib now clock message w :
  osc_kept w (OSCWatcher.processOSCMessage lib now clock message w).1.
Proof.
  unfold OSCWatcher.processOSCMessage.
  generalize (Split lib message newline). intros lines.
  generalize (@nil Emitted). revert w.
  induction lines as [|line lines IH]; intros w out0; [by repeat split |].
  cbn [fold_left fst snd].
  pose proof (osc_process_line_kept lib now clock w line) as Hk.
  destruct (OSCWatcher.process_line lib now clock w line) as [w1 out1].
  cbn [fst] in Hk. specialize (IH w1 (out0 ++ out1)).
  destruct Hk as (H1 & H2 & H3), IH as (K1 & K2 & K3).
  split_and!; congruence.
Qed.

Lemma check_visit_kept w v : file_kept w (FileWatcher.check_visit w v).1.
Proof. unfold FileWatcher.check_visit. repeat case_match; by repeat split. Qed.

Lemma checkForChanges_kept walk : forall w,
  file_kept w (FileWatcher.checkForChanges walk w).1.
Proof.
  induction walk as [|v walk IH]; intros w; [by repeat split |].
  rewrite FileFacts.checkForChanges_cons. cbn [fst].
  pose proof (check_visit_kept w v) as (H1 & H2 & H3).
  destruct (IH (FileWatcher.check_visit w v).1) as (K1 & K2 & K3).
  split_and!; congruence.
Qed.

Lemma sendCommand_kept io command w :
  ghci_kept w (GHCiWatcher.sendCommand io command w).1.
Proof.
  unfold GHCiWatcher.sendCommand.
  destruct (GHCiWatcher.stdin w) as [wr|] eqn:Hin; cbn; [|apply ghci_kept_refl].
  split_and!; try done; rewrite ?Hin; cbn; split; by eexists.
Qed.

Lemma initializeTidal_kept ios w : ghci_kept w (GHCiWatcher.initializeTidal ios w).
Proof.
  unfold GHCiWatcher.initializeTidal.
  generalize (imap (fun i c => (i, c)) GHCiWatcher.initCommands). intros cmds.
  revert w. induction cmds as [|[i c] cmds IH]; intros w; [apply ghci_kept_refl |].
  cbn [fold_left]. eapply ghci_kept_trans; [|apply IH]. apply sendCommand_kept.
Qed.

Lemma updateCPS_kept lib line w : ghci_kept w (GHCiWatcher.updateCPS lib line w).
Proof. unfold GHCiWatcher.updateCPS. repeat case_match; by repeat split. Qed.

Lemma createPatternExecutionEvent_kept lib now content success msg w :
  ghci_kept w (GHCiWatcher.createPatternExecutionEvent lib now content success msg w).1.
Proof.
  unfold GHCiWatcher.createPatternExecutionEvent. cbn.
  repeat case_match; by repeat split.
Qed.

Lemma processOutputLine_kept lib now line w :
  ghci_kept w (GHCiWatcher.processOutputLine lib now line w).1.
Proof.
  unfold GHCiWatcher.processOutputLine.
  destruct (_ || _); [apply ghci_kept_refl |].
  destruct (GHCiWatcher.isPatternEvaluation _).
  - pose proof (createPatternExecutionEvent_kept lib now
                  (TrimSpace lib line) true "" w) as Hk.
    destruct (GHCiWatcher.createPatternExecutionEvent _ _ _ _ _ _) as [w' event].
    cbn in *. destruct (GHCiWatcher.isCPSChange _); [|done].
    eapply ghci_kept_trans; [exact Hk | apply updateCPS_kept].
  - cbn. destruct (GHCiWatcher.isCPSChange _); [|apply ghci_kept_refl].
    apply updateCPS_kept.
Qed.

Lemma processErrorLine_kept lib now line w :
  ghci_kept w (GHCiWatcher.processErrorLine lib now line w).1.
Proof.
  unfold GHCiWatcher.processErrorLine.
  destruct (String.eqb _ _); [apply ghci_kept_refl |].
  pose proof (createPatternExecutionEvent_kept lib now
                (TrimSpace lib line) false (TrimSpace lib line) w) as Hk.
  by destruct (GHCiWatcher.createPatternExecutionEvent _ _ _ _ _ _) as [w' event].
Qed.

Lemma ExecutePattern_kept io pattern w :
  ghci_kept w (GHCiWatcher.ExecutePattern io pattern w).1.
Proof.
  unfold GHCiWatcher.ExecutePattern.
  destruct (negb _); [apply ghci_kept_refl | apply sendCommand_kept].
Qed.

Lemma ghci_kept_inv w w' : ghci_kept w w' -> inv (CGHCi w) -> inv (CGHCi w').
Proof.
  intros (H1 & H2 & H3 & H4 & H5 & H6) [Hinv _]. split; [|done].
  cbn in *. unfold GHCiWatcher.IsRunning in *. rewrite H1, H3, H4, H5, <- H6. exact Hinv.
Qed.

Lemma step_inv lib c c' : ConcreteWatcher.step lib c c' -> inv c -> inv c'.
Proof.
  destruct 1 as [E out cb c e | E out c e | now clock message w | walk w
                 | interval w | ios w | now line w | now line w
                 | io pattern w | io w | k v c]; intros Hinv.
  - destruct (ConcreteWatcher.IsRunning c) eqn:Hrun.
    { by rewrite (proj1 (WatcherFacts.Start_running out cb c e Hrun)). }
    destruct c as [w|w|w]; cbn in *.
    + pose proof (WatcherFacts.osc_Start_stopped out cb w e Hrun) as H.
      destruct (OSCWatcher.Start out cb w e) as [[w' e'] r].
      destruct H as (_ & _ & _ & Hh). by split.
    + pose proof (WatcherFacts.file_Start_stopped out cb w e Hrun) as H.
      destruct (FileWatcher.Start out cb w e) as [[w' e'] r].
      destruct H as (_ & Hr & Hok & Herr). destruct r as [err|].
      * rewrite Herr by done. exact Hinv.
      * split; [intros _; by apply Hok |]. intros w0 [= <-] _. by apply Hr.
    + pose proof (WatcherFacts.ghci_Start_stopped out cb w e Hrun) as H.
      destruct (GHCiWatcher.Start out cb w e) as [[w' e'] r].
      destruct H as (_ & _ & _ & _ & Hh). by split.
  - destruct c as [w|w|w]; cbn.
    + pose proof (WatcherFacts.osc_Stop_spec out w e) as H.
      destruct (OSCWatcher.Stop out w e) as [[w' e'] r].
      destruct H as (Hr & _). split; [|done]. cbn. unfold OSCWatcher.IsRunning.
      by rewrite Hr.
    + unfold FileWatcher.Stop.
      destruct (FileWatcher.running w) eqn:Hrun; cbn; [|done].
      split; [done |]. by intros w' [= <-].
    + unfold GHCiWatcher.Stop.
      destruct (GHCiWatcher.running w) eqn:Hrun; cbn; [|done]. by split.
  - destruct (osc_message_kept lib now clock message w) as (H1 & H2 & H3).
    destruct Hinv as [Hinv _]. split; [|done]. cbn in *.
    unfold OSCWatcher.IsRunning in *. by rewrite H1, H2.
  - destruct (checkForChanges_kept walk w) as (H1 & H2 & H3).
    destruct Hinv as [Hinv Hconv]. split.
    + cbn in *. unfold FileWatcher.IsRunning in *. by rewrite H1, H2.
    + intros w' [= <-]. rewrite H1, H2. by apply Hconv.
  - destruct Hinv as [Hinv Hconv]. split; [exact Hinv |].
    intros w' [= <-] Hopen. exact (Hconv w eq_refl Hopen).
  - by apply (ghci_kept_inv w), Hinv; [apply initializeTidal_kept].
  - by apply (ghci_kept_inv w), Hinv; [apply processOutputLine_kept].
  - by apply (ghci_kept_inv w), Hinv; [apply processErrorLine_kept].
  - by apply (ghci_kept_inv w), Hinv; [apply ExecutePattern_kept].
  - by apply (ghci_kept_inv w), Hinv; [apply ExecutePattern_kept].
  - destruct Hinv as [Hinv Hconv].
    destruct c as [w|w|w]; (split; [exact Hinv |]); try done.
    intros w' [= <-] Hopen. exact (Hconv w eq_refl Hopen).
Qed.

Lemma reachable_inv lib c : ConcreteWatcher.reachable lib c -> inv c.
Proof.
  induction 1 as [c Hfresh | c c' _ IH Hstep].
  - destruct Hfresh; (split; [by cbn |]); intros w0 Heq; try done.
    by injection Heq as <-.
  - by apply (step_inv lib c).
Qed.

End ResourceFacts.

(** X13. In every state a watcher can reach from its constructor, a
    running watcher holds what it works with: the OSC watcher its socket,
    the GHCi watcher its three pipes and a started process that has not
    been killed, and the file watcher an open stop channel. For the file
    watcher the converse holds too, so [Stop], which closes the channel
    only when the watcher is running, never closes a channel that is nil
    or already closed. *)
Theorem running_holds_resources (lib : GoLib) (c : Concrete) :
  ConcreteWatcher.reachable lib c ->
  (ConcreteWatcher.IsRunning c = true -> ConcreteFields.holds_resources c) /\
  (forall w, c = CFile w ->
     (FileWatcher.running w = true <->
      FileWatcher.stopChan w = Some FileWatcher.Open)).
Proof.
  intros Hreach. destruct (ResourceFacts.reachable_inv lib c Hreach) as [Hinv Hconv].
  split; [done |]. intros w ->. split; [apply Hinv | by apply Hconv].
Qed.

Lemma running_holds_resources_witness :
  ConcreteFields.holds_resources (COSC osc_running).
Proof.
  destruct (running_holds_resources lib0 (COSC osc_running)) as [Hholds _].
  - apply (ConcreteWatcher.reach_step _ (COSC (OSCWatcher.NewOSCWatcher 4559 "")));
      [apply ConcreteWatcher.reach_fresh; constructor |].
    apply (ConcreteWatcher.step_Start lib0 world0 (Some WatcherService.handler)
             (COSC (OSCWatcher.NewOSCWatcher 4559 "")) tt).
  - apply Hholds. reflexivity.
Defined.

(** ** The manager: the registry, and what the loops leave behind *)

(** X14. [RegisterWatcher] puts the watcher under the name, replacing the
    one that was there, and [GetWatcher] reads it back; the other names,
    the callback and the running flag are untouched. [ListWatchers]
    then lists, in whatever order the map is ranged over, each
    registered name once: the new name and those registered before. *)
Theorem RegisterWatcher_registry (name : string) (watcher : loc)
    (wm : WatcherManager.t) (order' : list (string * loc)) :
  range_order (WatcherManager.watchers (WatcherManager.RegisterWatcher name watcher wm))
    order' ->
  WatcherManager.GetWatcher name (WatcherManager.RegisterWatcher name watcher wm)
    = Some watcher /\
  (forall other, other <> name ->
     WatcherManager.GetWatcher other (WatcherManager.RegisterWatcher name watcher wm)
     = WatcherManager.GetWatcher other wm) /\
  WatcherManager.callback (WatcherManager.RegisterWatcher name watcher wm)
    = WatcherManager.callback wm /\
  WatcherManager.running (WatcherManager.RegisterWatcher name watcher wm)
    = WatcherManager.running wm /\
  NoDup (WatcherManager.ListWatchers order') /\
  (forall n, n ∈ WatcherManager.ListWatchers order' <->
             n = name \/ is_Some (WatcherManager.GetWatcher n wm)) /\
  length (WatcherManager.ListWatchers order') =
    match WatcherManager.GetWatcher name wm with
    | Some _ => size (WatcherManager.watchers wm)
    | None => S (size (WatcherManager.watchers wm))
    end.
Proof.
  intros Hord. unfold WatcherManager.GetWatcher, WatcherManager.ListWatchers. cbn.
  split; [apply lookup_insert_eq |].
  split; [intros other Hne; by apply lookup_insert_ne |].
  split; [done |]. split; [done |].
  split; [by apply (ConfigFacts.range_names_NoDup _ _ Hord) |].
  split.
  - intros n. rewrite list_elem_of_fmap. split.
    + intros ([n' l] & -> & Hin).
      apply (RangeFacts.range_order_elem_of _ _ _ _ Hord) in Hin. cbn in Hin |- *.
      destruct (decide (n' = name)) as [->|Hne]; [by left | right].
      rewrite lookup_insert_ne in Hin by done. by exists l.
    + intros [->|[l Hl]].
      * exists (name, watcher). split; [done |].
        apply (RangeFacts.range_order_elem_of _ _ _ _ Hord). cbn.
        apply lookup_insert_eq.
      * destruct (decide (n = name)) as [->|Hne].
        -- exists (name, watcher). split; [done |].
           apply (RangeFacts.range_order_elem_of _ _ _ _ Hord). cbn.
           apply lookup_insert_eq.
        -- exists (n, l). split; [done |].
           apply (RangeFacts.range_order_elem_of _ _ _ _ Hord). cbn.
           by rewrite lookup_insert_ne.
  - rewrite length_fmap. unfold range_order in Hord. rewrite Hord. cbn.
    rewrite length_map_to_list.
    destruct (WatcherManager.watchers wm !! name) as [l|] eqn:Hl.
    + apply map_size_insert_Some. by exists l.
    + by apply map_size_insert_None.
Qed.

Lemma RegisterWatcher_registry_witness :
  WatcherManager.GetWatcher "tidal-ghci" manager_two = Some 2%positive /\
  NoDup (WatcherManager.ListWatchers order_two).
Proof.
  destruct (RegisterWatcher_registry "tidal-ghci" 2%positive
              (WatcherManager.RegisterWatcher "sonicpi-osc" 1%positive
                 (WatcherManager.SetCallback (Some WatcherService.handler)
                    WatcherManager.NewWatcherManager))
              order_two) as (Hget & _ & _ & _ & Hnodup & _).
  - apply (bool_decide_unpack _). vm_compute. exact I.
  - split; [exact Hget | exact Hnodup].
Defined.

(** X15. [StartAll] over the three watchers never stops a watcher, and
    does not undo what it did when a [Start] fails: every watcher whose
    [Start] returned no error is running when [StartAll] returns, also
    when [StartAll] returns the error of a later watcher, and then the
    manager's running flag is what it was before. *)
Theorem StartAll_no_rollback {E : Type} (out : Outside E)
    (order : list (string * loc)) (wm : WatcherManager.t) (σ : Sys.t Concrete E) :
  let '(err, wm', σ', calls) :=
    WatcherManager.StartAll (EW := Concrete_ExecutionWatcher out) order wm σ in
  (forall l, is_running (EW := Concrete_ExecutionWatcher out) σ l = true ->
             is_running (EW := Concrete_ExecutionWatcher out) σ' l = true) /\
  (forall c, c ∈ calls -> outcome c = None ->
             is_running (EW := Concrete_ExecutionWatcher out) σ' (target c) = true) /\
  (forall e, err = Some e -> wm' = wm).
Proof.
  unfold WatcherManager.StartAll.
  destruct (WatcherManager.callback wm) as [cb|];
    [|by split_and!; [| intros c ?%elem_of_nil |]].
  destruct (RunFacts.StartAll_range_running out cb order false σ) as [Hkeep Hall].
  rewrite Forall_forall in Hall.
  destruct (WatcherManager.StartAll_range cb order false σ) as [[[sa|e] σ'] calls];
    cbn in *; by split_and!.
Qed.

Lemma StartAll_no_rollback_witness :
  let '(err, wm', σ', calls) :=
    WatcherManager.StartAll (EW := Concrete_ExecutionWatcher world0)
      order_two manager_two sys_running in
  is_running (EW := Concrete_ExecutionWatcher world0) σ' 1%positive = true.
Proof.
  pose proof (StartAll_no_rollback world0 order_two manager_two sys_running) as H.
  destruct (WatcherManager.StartAll order_two manager_two sys_running)
    as [[[err wm'] σ'] calls].
  destruct H as (Hkeeps & _). apply Hkeeps. by vm_compute.
Defined.

(** X16. When [StopAll] over the three watchers returns, no registered
    watcher is running, not even one whose [Stop] failed, and a watcher
    that was not running has not been touched. A second [StopAll], in
    whatever order it ranges over the registry, calls nothing and returns
    no error. *)
Theorem StopAll_leaves_none_running {E : Type} (out : Outside E)
    (order : list (string * loc)) (wm : WatcherManager.t) (σ : Sys.t Concrete E) :
  range_order (WatcherManager.watchers wm) order ->
  let '(err, wm', σ', calls) :=
    WatcherManager.StopAll (EW := Concrete_ExecutionWatcher out) order wm σ in
  (forall name l, WatcherManager.GetWatcher name wm = Some l ->
     is_running (EW := Concrete_ExecutionWatcher out) σ' l = false) /\
  (forall l, is_running (EW := Concrete_ExecutionWatcher out) σ l = false ->
     is_running (EW := Concrete_ExecutionWatcher out) σ' l = false) /\
  (forall order', range_order (WatcherManager.watchers wm') order' ->
     WatcherManager.StopAll (EW := Concrete_ExecutionWatcher out) order' wm' σ'
     = (None, wm', σ', [])).
Proof.
  intros Hord. unfold WatcherManager.StopAll.
  destruct (RunFacts.StopAll_range_stopped out order None σ) as [Hkeep Hall].
  destruct (WatcherManager.StopAll_range order None σ) as [[lastError σ'] calls] eqn:Hrun.
  cbn in *. split_and!.
  - intros name l Hl. apply (Hall name).
    by apply (RangeFacts.range_order_elem_of _ _ _ _ Hord).
  - done.
  - intros order' Hord'. rewrite (RunFacts.StopAll_range_idle out order' None σ'); [done |].
    intros name l Hin. apply (Hall name).
    apply (RangeFacts.range_order_elem_of _ _ _ _ Hord).
    by apply (RangeFacts.range_order_elem_of _ _ _ _ Hord').
Qed.

Lemma StopAll_leaves_none_running_witness :
  let '(err, wm', σ', calls) :=
    WatcherManager.StopAll (EW := Concrete_ExecutionWatcher world0)
      order_two manager_running sys_running in
  is_running (EW := Concrete_ExecutionWatcher world0) σ' 1%positive = false.
Proof.
  pose proof (StopAll_leaves_none_running world0 order_two manager_running
                sys_running) as H.
  destruct (WatcherManager.StopAll order_two manager_running sys_running)
    as [[[err wm'] σ'] calls].
  destruct H as (Hstopped & _).
  - apply (bool_decide_unpack _). vm_compute. exact I.
  - apply (Hstopped "sonicpi-osc"). by vm_compute.
Defined.

(** ** The file watcher: ticks *)

Module PollerFacts.
Import FileWatcher Poller.

Lemma no_older_refl (w : t) : no_older w w.
Proof. intros p t0 Hp. exists t0. split; [done | lia]. Qed.

Lemma no_older_trans (w1 w2 w3 : t) :
  no_older w1 w2 -> no_older w2 w3 -> no_older w1 w3.
Proof.
  intros H12 H23 p t0 Hp. destruct (H12 p t0 Hp) as (t1 & Hp1 & Hle1).
  destruct (H23 p t1 Hp1) as (t2 & Hp2 & Hle2). exists t2. split; [done | lia].
Qed.

Lemma seen_no_older (w w' : t) (v : Visit) : no_older w w' -> seen w v -> seen w' v.
Proof.
  intros Hold Hseen Herr Hrel t1 Hinfo.
  destruct (Hseen Herr Hrel t1 Hinfo) as (t0 & Hp & Hle).
  destruct (Hold _ _ Hp) as (t2 & Hp2 & Hle2). exists t2. split; [done | lia].
Qed.

Lemma check_visit_no_older (w : t) (v : Visit) : no_older w (check_visit w v).1.
Proof.
  unfold check_visit.
  destruct (walk_err v); [apply no_older_refl |].
  destruct (isSonicPiFile (path v)); [|apply no_older_refl]. cbn [negb].
  destruct (info v) as [t1|]; [|apply no_older_refl].
  destruct (lastModified w !! path v) as [t0|] eqn:Hk.
  - unfold After. destruct (t0 <? t1) eqn:Hlt; [|apply no_older_refl].
    apply Z.ltb_lt in Hlt. intros p t Hp. cbn.
    destruct (decide (path v = p)) as [<-|Hne].
    + rewrite lookup_insert_eq. exists t1. split; [done |].
      pose proof (eq_trans (eq_sym Hk) Hp) as [= <-]. lia.
    + rewrite lookup_insert_ne by done. exists t. split; [done | lia].
  - intros p t Hp. cbn.
    destruct (decide (path v = p)) as [<-|Hne];
      [by pose proof (eq_trans (eq_sym Hk) Hp) |].
    rewrite lookup_insert_ne by done. exists t. split; [done | lia].
Qed.

Lemma check_visit_sees (w : t) (v : Visit) : seen (check_visit w v).1 v.
Proof.
  intros Herr Hrel t1 Hinfo. unfold check_visit. rewrite Herr, Hrel, Hinfo. cbn [negb].
  destruct (lastModified w !! path v) as [t0|] eqn:Hk.
  - unfold After. destruct (t0 <? t1) eqn:Hlt; cbn.
    + rewrite lookup_insert_eq. exists t1. split; [done | lia].
    + apply Z.ltb_ge in Hlt. exists t0. by split.
  - cbn. rewrite lookup_insert_eq. exists t1. split; [done | lia].
Qed.

Lemma check_visit_seen (w : t) (v : Visit) : seen w v -> check_visit w v = (w, []).
Proof.
  intros Hseen. unfold check_visit.
  destruct (walk_err v) eqn:Herr; [done |].
  destruct (isSonicPiFile (path v)) eqn:Hrel; [|done]. cbn [negb].
  destruct (info v) as [t1|] eqn:Hinfo; [|done].
  destruct (Hseen Herr Hrel t1 Hinfo) as (t0 & -> & Hle).
  unfold After. by rewrite (proj2 (Z.ltb_ge t0 t1)).
Qed.

Lemma checkForChanges_seen (walk : list Visit) (w : t) :
  (forall v, v ∈ walk -> seen w v) -> checkForChanges walk w = (w, []).
Proof.
  induction walk as [|v walk IH]; intros Hall; [done |].
  rewrite FileFacts.checkForChanges_cons.
  rewrite (check_visit_seen w v) by (apply Hall; left). cbn [fst snd].
  rewrite IH; [done |]. intros v' Hin. apply Hall. by right.
Qed.

Lemma checkForChanges_sees (walk : list Visit) : forall w,
  no_older w (checkForChanges walk w).1 /\
  forall v, v ∈ walk -> seen (checkForChanges walk w).1 v.
Proof.
  induction walk as [|v walk IH]; intros w.
  { split; [apply no_older_refl | by intros v ?%elem_of_nil]. }
  rewrite FileFacts.checkForChanges_cons. cbn [fst].
  destruct (IH (check_visit w v).1) as [Hold Hseen].
  split; [by eapply no_older_trans; [apply check_visit_no_older |] |].
  intros v' [->|Hin]%elem_of_cons; [|by apply Hseen].
  eapply seen_no_older; [exact Hold | apply check_visit_sees].
Qed.

Lemma monitorFiles_no_older (ticks : list (list Visit)) : forall w,
  no_older w (monitorFiles ticks w).1.
Proof.
  induction ticks as [|walk ticks IH]; intros w; [apply no_older_refl |].
  cbn [monitorFiles].
  pose proof (proj1 (checkForChanges_sees walk w)) as H1.
  destruct (checkForChanges walk w) as [w1 out1]. specialize (IH w1).
  destruct (monitorFiles ticks w1) as [w2 out2]. cbn in *.
  by eapply no_older_trans.
Qed.

Lemma scan_visit_other (w : t) (v : Visit) (p : string) :
  path v <> p -> lastModified (scan_visit w v) !! p = lastModified w !! p.
Proof.
  intros Hne. unfold scan_visit. repeat case_match; try done.
  cbn. by rewrite lookup_insert_ne.
Qed.

Lemma scanWorkspaceFiles_other (walk : list Visit) (p : string) : forall w,
  p ∉ path <$> heeded walk ->
  lastModified (scanWorkspaceFiles walk w) !! p = lastModified w !! p.
Proof.
  induction walk as [|v walk IH]; intros w Hp; [done |].
  unfold scanWorkspaceFiles. cbn [fold_left]. fold (scanWorkspaceFiles walk (scan_visit w v)).
  rewrite FileFacts.heeded_cons in Hp.
  destruct (decide (walk_err v = None)) as [Herr|Herr].
  - rewrite fmap_cons, not_elem_of_cons in Hp. destruct Hp as [Hne Hp].
    rewrite IH by done. by apply scan_visit_other.
  - rewrite IH by done. unfold scan_visit.
    by destruct (walk_err v).
Qed.

Lemma scanWorkspaceFiles_app (l1 l2 : list Visit) (w : t) :
  scanWorkspaceFiles (l1 ++ l2) w = scanWorkspaceFiles l2 (scanWorkspaceFiles l1 w).
Proof. unfold scanWorkspaceFiles. apply fold_left_app. Qed.

Lemma scanWorkspaceFiles_sees (walk : list Visit) (w : t) (v : Visit) :
  visits_once walk -> v ∈ walk -> seen (scanWorkspaceFiles walk w) v.
Proof.
  intros Hnd Hin Herr Hrel t1 Hinfo.
  destruct (FileFacts.walk_split walk v Hnd Hin Herr)
    as (before & after & -> & _ & Ha).
  rewrite scanWorkspaceFiles_app.
  change (scanWorkspaceFiles (v :: after) ?w0)
    with (scanWorkspaceFiles after (scan_visit w0 v)).
  rewrite scanWorkspaceFiles_other by done.
  unfold scan_visit. rewrite Herr, Hrel, Hinfo. cbn. rewrite lookup_insert_eq.
  exists t1. split; [done | lia].
Qed.

End PollerFacts.

(** X17. A tick of the file watcher that finds the directory as the tick
    before found it emits nothing and changes nothing: [checkForChanges]
    run a second time on the same walk returns the watcher as it is and
    no event. *)
Theorem checkForChanges_quiescent (walk : list Visit) (w : FileWatcher.t) :
  FileWatcher.checkForChanges walk (FileWatcher.checkForChanges walk w).1 =
  ((FileWatcher.checkForChanges walk w).1, []).
Proof.
  apply PollerFacts.checkForChanges_seen.
  apply (proj2 (PollerFacts.checkForChanges_sees walk w)).
Qed.

(** X18. The ticks of [monitorFiles] never drop a file from the record and
    never move a recorded modification time back: a file whose time on
    disk is not after the recorded one, for instance one put back from an
    older copy, leaves the record as it is. *)
Theorem monitorFiles_times_never_older (ticks : list (list Visit)) (w : FileWatcher.t)
    (p : string) (t0 : Time) :
  FileWatcher.lastModified w !! p = Some t0 ->
  exists t1,
    FileWatcher.lastModified (FileWatcher.monitorFiles ticks w).1 !! p = Some t1 /\
    t0 <= t1.
Proof. apply (PollerFacts.monitorFiles_no_older ticks w). Qed.

Lemma monitorFiles_times_never_older_witness :
  exists t1,
    FileWatcher.lastModified (FileWatcher.monitorFiles [walk_changed] file_started).1
      !! "/ws/workspace_0" = Some t1 /\
    10 <= t1.
Proof.
  apply (monitorFiles_times_never_older [walk_changed] file_started
           "/ws/workspace_0" 10).
  by vm_compute.
Defined.

(** X19. The first tick after [Start] emits nothing when the directory is
    as [Start] found it: if the walk of the tick is the walk of the scan,
    and hands each path over once without an error, no callback is
    invoked and the watcher is unchanged. *)
Theorem tick_after_Start_silent {E : Type} (out : Outside E) (cb : option Callback)
    (w : FileWatcher.t) (e e1 e2 e3 : E) (walk : list Visit) :
  FileWatcher.running w = false ->
  Stat_IsNotExist out (FileWatcher.workspacePath w) e = (false, e1) ->
  WalkDir out (FileWatcher.workspacePath w) e1 = (walk, e2) ->
  WalkDir out (FileWatcher.workspacePath w) e2 = (walk, e3) ->
  FileWatcher.visits_once walk ->
  let '(w', e', r) := FileWatcher.Start out cb w e in
  r = None /\ e' = e2 /\ FileWatcher.tick out w' e' = (w', e3, []).
Proof.
  intros Hrun Hstat Hwalk1 Hwalk2 Hnd.
  unfold FileWatcher.Start. rewrite Hrun, Hstat. cbn. rewrite Hwalk1.
  split; [done |]. split; [done |].
  unfold FileWatcher.tick. rewrite FileFacts.scan_only_records. cbn.
  rewrite Hwalk2. rewrite <- FileFacts.scan_only_records.
  rewrite PollerFacts.checkForChanges_seen; [done |].
  intros v Hin. by apply PollerFacts.scanWorkspaceFiles_sees.
Qed.

Lemma tick_after_Start_silent_witness :
  let '(w', e', r) :=
    FileWatcher.Start world_files (Some (Func 1)) (FileWatcher.NewFileWatcher "/ws") tt in
  FileWatcher.tick world_files w' e' = (w', tt, []).
Proof.
  pose proof (tick_after_Start_silent world_files (Some (Func 1))
                (FileWatcher.NewFileWatcher "/ws") tt tt tt tt walk_first
                eq_refl eq_refl eq_refl eq_refl) as H.
  destruct (FileWatcher.Start world_files (Some (Func 1))
              (FileWatcher.NewFileWatcher "/ws") tt) as [[w' e'] r].
  destruct H as (_ & _ & Htick); [|exact Htick].
  apply (bool_decide_unpack _). vm_compute. exact I.
Defined.

Module EventFacts.
Import FileWatcher.

Lemma check_visit_events (w : t) (v : Visit) (ce : Emitted) :
  ce ∈ (check_visit w v).2 ->
  exists (t0 t1 : Time) (cb : Callback),
    walk_err v = None /\ isSonicPiFile (path v) = true /\ info v = Ok t1 /\
    lastModified w !! path v = Some t0 /\ t0 < t1 /\ callback w = Some cb /\
    ce = (cb, createExecutionEvent (path v) t1 (read v)).
Proof.
  unfold check_visit.
  destruct (walk_err v) eqn:Herr; [by intros ?%elem_of_nil |].
  destruct (isSonicPiFile (path v)) eqn:Hrel; [|by intros ?%elem_of_nil]. cbn [negb].
  destruct (info v) as [t1|] eqn:Hinfo; [|by intros ?%elem_of_nil].
  destruct (lastModified w !! path v) as [t0|] eqn:Hk; [|by intros ?%elem_of_nil].
  unfold After. destruct (t0 <? t1) eqn:Hlt; [|by intros ?%elem_of_nil].
  apply Z.ltb_lt in Hlt. cbn.
  destruct (callback w) as [cb|] eqn:Hcb; [|by intros ?%elem_of_nil].
  intros ->%list_elem_of_singleton. by exists t0, t1, cb.
Qed.

Lemma checkForChanges_events (walk : list Visit) : forall (w : t) (ce : Emitted),
  visits_once walk ->
  ce ∈ (checkForChanges walk w).2 ->
  exists (v : Visit) (t0 t1 : Time) (cb : Callback),
    v ∈ walk /\
    walk_err v = None /\ isSonicPiFile (path v) = true /\ info v = Ok t1 /\
    lastModified w !! path v = Some t0 /\ t0 < t1 /\ callback w = Some cb /\
    ce = (cb, createExecutionEvent (path v) t1 (read v)).
Proof.
  induction walk as [|v walk IH]; intros w ce Hnd; [by intros ?%elem_of_nil |].
  rewrite FileFacts.checkForChanges_cons. cbn [snd].
  intros [Hin|Hin]%elem_of_app.
  - destruct (check_visit_events w v ce Hin) as (t0 & t1 & cb & H).
    exists v, t0, t1, cb. split; [left | done].
  - unfold visits_once in Hnd. rewrite FileFacts.heeded_cons in Hnd.
    destruct (decide (walk_err v = None)) as [Herr|Herr].
    + rewrite fmap_cons in Hnd. apply NoDup_cons in Hnd as [Hv Hnd].
      destruct (IH _ ce Hnd Hin)
        as (v' & t0 & t1 & cb & Hin' & Herr' & Hrel & Hinfo & Hk & Hlt & Hcb & ->).
      exists v', t0, t1, cb. split; [by right |]. split_and!; try done.
      * rewrite <- Hk. symmetry. apply FileFacts.check_visit_other.
        intros Heq. apply Hv. rewrite Heq. apply list_elem_of_fmap. exists v'.
        split; [done |]. by apply list_elem_of_filter.
      * rewrite <- Hcb. symmetry. apply FileFacts.check_visit_callback.
    + rewrite (FileFacts.check_visit_skipped w v Herr) in Hin. cbn in Hin.
      destruct (IH _ ce Hnd Hin) as (v' & t0 & t1 & cb & Hin' & H).
      exists v', t0, t1, cb. split; [by right | done].
Qed.

End EventFacts.

(** X20. A tick of the file watcher invokes the callback only for
    modifications: on a walk that hands each path over once without an
    error, every event emitted is built by [createExecutionEvent] for a
    visited Sonic Pi file that was on record when the tick began, whose
    modification time is after the recorded one, and it goes to the
    stored callback. In particular a watcher without a callback emits
    nothing. *)
Theorem checkForChanges_only_modifications (walk : list Visit) (w : FileWatcher.t)
    (ce : Emitted) :
  FileWatcher.visits_once walk ->
  ce ∈ (FileWatcher.checkForChanges walk w).2 ->
  exists (v : Visit) (t0 t1 : Time) (cb : Callback),
    v ∈ walk /\ walk_err v = None /\
    FileWatcher.isSonicPiFile (path v) = true /\ info v = Ok t1 /\
    FileWatcher.lastModified w !! path v = Some t0 /\ t0 < t1 /\
    FileWatcher.callback w = Some cb /\
    ce = (cb, FileWatcher.createExecutionEvent (path v) t1 (read v)).
Proof. apply EventFacts.checkForChanges_events. Qed.

Lemma checkForChanges_only_modifications_witness :
  exists (v : Visit) (t0 t1 : Time) (cb : Callback),
    v ∈ walk_one /\ walk_err v = None /\
    FileWatcher.isSonicPiFile (path v) = true /\ info v = Ok t1 /\
    FileWatcher.lastModified file_started !! path v = Some t0 /\ t0 < t1 /\
    FileWatcher.callback file_started = Some cb /\
    (Func 1, FileWatcher.createExecutionEvent "/ws/workspace_0" 20 (Ok "play 60"))
    = (cb, FileWatcher.createExecutionEvent (path v) t1 (read v)).
Proof.
  apply (checkForChanges_only_modifications walk_one file_started).
  - apply (bool_decide_unpack _). vm_compute. exact I.
  - apply list_elem_of_here.
Defined.

(** ** The GHCi watcher: patterns *)

Module PatternFacts.
Import GHCiWatcher.

Lemma extractConnection_nonempty (content : string) :
  Tidal.extractConnection content <> "".
Proof.
  destruct (Tidal.find_connection false content) as [m|] eqn:Hf.
  - rewrite (TidalFacts.extractConnection_found _ _ Hf).
    by destruct (TidalFacts.find_connection_Some content "" m Hf)
      as (p & ds & post & _ & -> & _).
  - rewrite (TidalFacts.extractConnection_not_found _ Hf).
    by destruct (Strings.Contains content "hush").
Qed.

(** The keys of [lastPatterns] in [w] are keys in [w']. *)
Lemma updateCPS_patterns lib line w :
  lastPatterns (updateCPS lib line w) = lastPatterns w.
Proof. unfold updateCPS. by repeat case_match. Qed.

Lemma sendCommand_patterns io command w :
  lastPatterns (sendCommand io command w).1 = lastPatterns w.
Proof. unfold sendCommand. by destruct (stdin w). Qed.

Lemma initializeTidal_patterns ios w :
  lastPatterns (initializeTidal ios w) = lastPatterns w.
Proof.
  unfold initializeTidal.
  generalize (imap (fun i c => (i, c)) initCommands). intros cmds.
  revert w. induction cmds as [|[i c] cmds IH]; intros w; [done |].
  cbn [fold_left]. rewrite IH. apply sendCommand_patterns.
Qed.

Lemma createPatternExecutionEvent_patterns lib now content success msg w :
  lastPatterns (createPatternExecutionEvent lib now content success msg w).1 =
  if success then <[Tidal.extractConnection content := content]> (lastPatterns w)
  else lastPatterns w.
Proof.
  unfold createPatternExecutionEvent. cbn.
  destruct success; cbn; [|done].
  destruct (String.eqb_spec (Tidal.extractConnection content) ""); [|done].
  by destruct (extractConnection_nonempty content).
Qed.

Lemma processOutputLine_patterns lib now line w :
  lastPatterns (processOutputLine lib now line w).1 =
  let line := TrimSpace lib line in
  if String.eqb line "" || Strings.HasPrefix line "tidal>" then lastPatterns w
  else if isPatternEvaluation line
       then <[Tidal.extractConnection line := line]> (lastPatterns w)
       else lastPatterns w.
Proof.
  unfold processOutputLine. cbn zeta.
  destruct (_ || _); [done |].
  destruct (isPatternEvaluation _).
  - pose proof (createPatternExecutionEvent_patterns lib now
                  (TrimSpace lib line) true "" w) as Hp.
    destruct (createPatternExecutionEvent _ _ _ _ _ _) as [w' event].
    cbn in *. destruct (isCPSChange _); [|done]. by rewrite updateCPS_patterns.
  - cbn. destruct (isCPSChange _); [|done]. by rewrite updateCPS_patterns.
Qed.

Lemma processOutputLine_emitted lib now line w :
  (processOutputLine lib now line w).2 =
  let line := TrimSpace lib line in
  if String.eqb line "" || Strings.HasPrefix line "tidal>" then []
  else if isPatternEvaluation line
       then invoke (callback w) (createPatternExecutionEvent lib now line true "" w).2
       else [].
Proof.
  unfold processOutputLine. cbn zeta.
  destruct (_ || _); [done |].
  destruct (isPatternEvaluation _); [|done].
  pose proof (ResourceFacts.createPatternExecutionEvent_kept lib now
                (TrimSpace lib line) true "" w) as (_ & Hcb & _).
  destruct (createPatternExecutionEvent _ _ _ _ _ _) as [w' event].
  cbn in *. by rewrite Hcb.
Qed.

Lemma processErrorLine_patterns lib now line w :
  lastPatterns (processErrorLine lib now line w).1 = lastPatterns w.
Proof.
  unfold processErrorLine. destruct (String.eqb _ _); [done |].
  pose proof (createPatternExecutionEvent_patterns lib now
                (TrimSpace lib line) false (TrimSpace lib line) w) as Hp.
  by destruct (createPatternExecutionEvent _ _ _ _ _ _) as [w' event].
Qed.

Lemma ExecutePattern_patterns io pattern w :
  lastPatterns (ExecutePattern io pattern w).1 = lastPatterns w.
Proof.
  unfold ExecutePattern. destruct (negb _); [done |]. apply sendCommand_patterns.
Qed.

End PatternFacts.

(** X21. A line of GHCi output that is not blank, is not a prompt and
    shows a pattern evaluation is always recorded: [extractConnection]
    never returns the empty text, so the line is stored in the last
    patterns under its connection, be it a numbered one, [all] or
    [unknown], and the event, handed to the stored callback, names that
    connection as its buffer and is a success. The other connections
    keep their patterns, and any other line leaves the record alone. *)
Theorem processOutputLine_records (lib : GoLib) (now : Time) (line : string)
    (w : GHCiWatcher.t) :
  let text := TrimSpace lib line in
  let '(w', emitted) := GHCiWatcher.processOutputLine lib now line w in
  Tidal.extractConnection text <> "" /\
  (text <> "" -> Strings.HasPrefix text "tidal>" = false ->
   GHCiWatcher.isPatternEvaluation text = true ->
     GHCiWatcher.GetActivePatterns w' !! Tidal.extractConnection text = Some text /\
     (forall other, other <> Tidal.extractConnection text ->
        GHCiWatcher.GetActivePatterns w' !! other =
        GHCiWatcher.GetActivePatterns w !! other) /\
     exists event,
       emitted = invoke (GHCiWatcher.callback w) event /\
       ExecutionEvent.Buffer event = Tidal.extractConnection text /\
       ExecutionEvent.Content event = text /\
       ExecutionEvent.Success event = true /\
       ExecutionEvent.Timestamp event = now) /\
  (text = "" \/ Strings.HasPrefix text "tidal>" = true \/
   GHCiWatcher.isPatternEvaluation text = false ->
     emitted = [] /\
     GHCiWatcher.GetActivePatterns w' = GHCiWatcher.GetActivePatterns w).
Proof.
  cbn zeta.
  pose proof (PatternFacts.processOutputLine_patterns lib now line w) as Hp.
  pose proof (PatternFacts.processOutputLine_emitted lib now line w) as Hout.
  destruct (GHCiWatcher.processOutputLine lib now line w) as [w' emitted].
  unfold GHCiWatcher.GetActivePatterns. cbn [fst snd] in *. cbn zeta in *.
  split; [apply PatternFacts.extractConnection_nonempty |].
  destruct (String.eqb_spec (TrimSpace lib line) "") as [Hempty|Hempty]; cbn [orb] in *.
  { split; [done |]. by intros _. }
  destruct (Strings.HasPrefix (TrimSpace lib line) "tidal>") eqn:Hprompt.
  { split; [done |]. by intros _. }
  destruct (GHCiWatcher.isPatternEvaluation (TrimSpace lib line)) eqn:Heval.
  - split; [|by intros [?|[?|?]]].
    intros _ _ _. rewrite Hp. split; [apply lookup_insert_eq |].
    split; [intros other Hne; by apply lookup_insert_ne |].
    eexists. split; [exact Hout |]. done.
  - split; [done |]. by intros _.
Qed.

Lemma processOutputLine_records_witness :
  let '(w', emitted) :=
    GHCiWatcher.processOutputLine lib0 1000 "d1 $ s bd" ghci_running in
  GHCiWatcher.GetActivePatterns w' !! "d1" = Some "d1 $ s bd" /\
  exists event,
    emitted = [(WatcherService.handler, event)] /\
    ExecutionEvent.Buffer event = "d1" /\
    ExecutionEvent.Content event = "d1 $ s bd" /\
    ExecutionEvent.Success event = true.
Proof.
  pose proof (processOutputLine_records lib0 1000 "d1 $ s bd" ghci_running) as H.
  cbn zeta in H.
  destruct (GHCiWatcher.processOutputLine lib0 1000 "d1 $ s bd" ghci_running)
    as [w' emitted].
  destruct H as (_ & Hrec & _).
  destruct Hrec as (Hget & _ & event & Hev & Hbuf & Hcontent & Hok & _);
    [done | reflexivity | reflexivity |].
  split; [exact Hget |]. exists event. split_and!; [exact Hev | exact Hbuf | exact Hcontent | exact Hok].
Defined.

(** X22. The GHCi watcher never forgets a pattern. Whatever it does next,
    be it [Start], [Stop], the initialisation, a line of output or of
    errors, [ExecutePattern], [Hush] or a write to the options, every
    connection that [GetActivePatterns] reported is still reported
    afterwards, and only a line of output can change what is reported:
    [Hush] and [Stop] clear nothing. *)
Theorem patterns_never_forgotten (lib : GoLib) (w : GHCiWatcher.t) (c' : Concrete) :
  ConcreteWatcher.step lib (CGHCi w) c' ->
  exists w', c' = CGHCi w' /\
    (forall k p, GHCiWatcher.GetActivePatterns w !! k = Some p ->
                 is_Some (GHCiWatcher.GetActivePatterns w' !! k)) /\
    ((forall now line, w' <> (GHCiWatcher.processOutputLine lib now line w).1) ->
     GHCiWatcher.GetActivePatterns w' = GHCiWatcher.GetActivePatterns w).
Proof.
  intros Hstep. remember (CGHCi w) as c eqn:Hc.
  assert (forall w' : GHCiWatcher.t,
            GHCiWatcher.lastPatterns w' = GHCiWatcher.lastPatterns w ->
            exists w'', CGHCi w' = CGHCi w'' /\
              (forall k p, GHCiWatcher.GetActivePatterns w !! k = Some p ->
                           is_Some (GHCiWatcher.GetActivePatterns w'' !! k)) /\
              ((forall now line,
                  w'' <> (GHCiWatcher.processOutputLine lib now line w).1) ->
               GHCiWatcher.GetActivePatterns w'' = GHCiWatcher.GetActivePatterns w))
    as Hsame.
  { intros w' Hp. exists w'. unfold GHCiWatcher.GetActivePatterns. rewrite Hp.
    split; [done |]. split; [by eauto | done]. }
  destruct Hstep as [E out cb c e | E out c e | now clock message w0 | walk w0
                    | interval w0 | ios w0 | now line w0 | now line w0
                    | io pattern w0 | io w0 | k v c]; subst; try discriminate.
  - cbn. destruct (GHCiWatcher.running w) eqn:Hrun.
    + unfold GHCiWatcher.Start. rewrite Hrun. by apply Hsame.
    + pose proof (WatcherFacts.ghci_Start_stopped out cb w e Hrun) as H.
      destruct (GHCiWatcher.Start out cb w e) as [[w' e'] r].
      destruct H as (_ & _ & Hp & _). by apply Hsame.
  - cbn. unfold GHCiWatcher.Stop.
    destruct (GHCiWatcher.running w); by apply Hsame.
  - injection Hc as ->. apply Hsame. apply PatternFacts.initializeTidal_patterns.
  - injection Hc as ->.
    pose proof (PatternFacts.processOutputLine_patterns lib now line w) as Hp.
    exists (GHCiWatcher.processOutputLine lib now line w).1. split; [done |].
    split; [|intros Hne; by destruct (Hne now line)].
    intros k p Hk. unfold GHCiWatcher.GetActivePatterns in *. rewrite Hp. cbn zeta.
    repeat case_match; try by eauto.
    destruct (decide (Tidal.extractConnection (TrimSpace lib line) = k)) as [<-|Hne].
    + rewrite lookup_insert_eq. by eauto.
    + rewrite lookup_insert_ne by done. by eauto.
  - injection Hc as ->. apply Hsame. apply PatternFacts.processErrorLine_patterns.
  - injection Hc as ->. apply Hsame. apply PatternFacts.ExecutePattern_patterns.
  - injection Hc as ->. apply Hsame. apply PatternFacts.ExecutePattern_patterns.
  - by apply Hsame.
Qed.

Lemma patterns_never_forgotten_witness :
  GHCiWatcher.GetActivePatterns ghci_playing !! "d1" = Some "d1 $ s bd" /\
  is_Some (GHCiWatcher.GetActivePatterns (GHCiWatcher.Hush None ghci_playing).1 !! "d1") /\
  is_Some (GHCiWatcher.GetActivePatterns (GHCiWatcher.Stop ghci_playing).1 !! "d1").
Proof.
  split; [reflexivity |]. split.
  - destruct (patterns_never_forgotten lib0 ghci_playing _
                (ConcreteWatcher.ghci_Hush lib0 None ghci_playing))
      as (w' & [= <-] & Hkeep & _).
    apply (Hkeep "d1" "d1 $ s bd"). reflexivity.
  - destruct (patterns_never_forgotten lib0 ghci_playing _
                (ConcreteWatcher.step_Stop lib0 world0 (CGHCi ghci_playing) tt))
      as (w' & Hw & Hkeep & _).
    change (CGHCi (GHCiWatcher.Stop ghci_playing).1 = CGHCi w') in Hw.
    injection Hw as <-.
    apply (Hkeep "d1" "d1 $ s bd"). reflexivity.
Defined.

(** X23. [ExecutePattern], and [Hush] through it, refuse a watcher that is
    not running and send nothing. On a running watcher, in any state the
    watcher can reach, the standard input is there: the call never
    reports it missing, it passes the text with a newline at its end to
    GHCi and returns what the write returns. The pattern is not recorded
    as active by the call itself. *)
Theorem ExecutePattern_sends (lib : GoLib) (io : option error) (pattern : string)
    (w : GHCiWatcher.t) :
  (GHCiWatcher.IsRunning w = false ->
     GHCiWatcher.ExecutePattern io pattern w = (w, Some "watcher is not running") /\
     GHCiWatcher.Hush io w = (w, Some "watcher is not running")) /\
  (ConcreteWatcher.reachable lib (CGHCi w) -> GHCiWatcher.IsRunning w = true ->
     exists wr,
       GHCiWatcher.stdin w = Some wr /\
       GHCiWatcher.ExecutePattern io pattern w =
         (GHCiWatcher.set_stdin
            (Some (GHCiWatcher.mkWriter (GHCiWatcher.wr_pipe wr)
                     (GHCiWatcher.wr_sent wr ++ [pattern +:+ newline]))) w, io) /\
       GHCiWatcher.Hush io w =
         (GHCiWatcher.set_stdin
            (Some (GHCiWatcher.mkWriter (GHCiWatcher.wr_pipe wr)
                     (GHCiWatcher.wr_sent wr ++ ["hush" +:+ newline]))) w, io)) /\
  GHCiWatcher.GetActivePatterns (GHCiWatcher.ExecutePattern io pattern w).1 =
    GHCiWatcher.GetActivePatterns w.
Proof.
  split; [|split; [|apply PatternFacts.ExecutePattern_patterns]].
  - intros Hrun. unfold GHCiWatcher.Hush, GHCiWatcher.ExecutePattern. by rewrite Hrun.
  - intros Hreach Hrun.
    destruct (ResourceFacts.reachable_inv lib _ Hreach) as [Hinv _].
    destruct (Hinv Hrun) as ([wr Hwr] & _).
    exists wr. split; [done |].
    unfold GHCiWatcher.Hush, GHCiWatcher.ExecutePattern, GHCiWatcher.sendCommand.
    by rewrite Hrun, Hwr.
Qed.

Lemma ExecutePattern_sends_witness :
  exists wr,
    GHCiWatcher.stdin ghci_running = Some wr /\
    GHCiWatcher.ExecutePattern None "d1 $ silence" ghci_running =
      (GHCiWatcher.set_stdin
         (Some (GHCiWatcher.mkWriter (GHCiWatcher.wr_pipe wr)
                  (GHCiWatcher.wr_sent wr ++ ["d1 $ silence" +:+ newline])))
         ghci_running, None).
Proof.
  destruct (ExecutePattern_sends lib0 None "d1 $ silence" ghci_running)
    as (_ & Hsend & _).
  destruct Hsend as (wr & Hin & Hexec & _).
  - apply (ConcreteWatcher.reach_step _ (CGHCi GHCiWatcher.NewGHCiWatcher));
      [apply ConcreteWatcher.reach_fresh; constructor |].
    apply (ConcreteWatcher.step_Start lib0 world0 (Some WatcherService.handler)
             (CGHCi GHCiWatcher.NewGHCiWatcher) tt).
  - reflexivity.
  - by exists wr.
Defined.

(** ** The OSC watcher: one line of a message *)

(** X24. One line of an OSC message is handled as an execution before it
    is looked at for a tempo. A line that shows an execution gives one
    event to the stored callback, a success exactly when the line does
    not contain [/error], with the current tempo and the line itself
    among its data, and leaves the watcher unchanged, its tempo too even
    if the line names one. A line that is not an execution gives no
    event and can change nothing but the tempo, and a blank line does
    nothing. *)
Theorem process_line_execution_first (lib : GoLib) (now clock : Time)
    (w : OSCWatcher.t) (line : string) :
  let text := TrimSpace lib line in
  let '(w', emitted) := OSCWatcher.process_line lib now clock w line in
  (text = "" -> w' = w /\ emitted = []) /\
  (text <> "" -> OSCWatcher.isExecutionMessage text = true ->
     w' = w /\
     exists event,
       emitted = invoke (OSCWatcher.callback w) event /\
       ExecutionEvent.Success event = negb (Strings.Contains text "/error") /\
       (ExecutionEvent.Success event = true -> ExecutionEvent.ErrorMessage event = "") /\
       ExecutionEvent.BPM event = OSCWatcher.currentBPM w /\
       ExecutionEvent.Language event = "sonicpi" /\
       ExecutionEvent.Environment event = "sonic-pi" /\
       ExecutionEvent.Timestamp event = now /\
       ExecutionEvent.ExtraData event !! "osc_message" = Some text) /\
  (text <> "" -> OSCWatcher.isExecutionMessage text = false ->
     emitted = [] /\
     w' = OSCWatcher.set_currentBPM (OSCWatcher.currentBPM w') w /\
     (OSCWatcher.isBPMMessage text = false -> w' = w)).
Proof.
  cbn zeta. unfold OSCWatcher.process_line.
  destruct (String.eqb_spec (TrimSpace lib line) "") as [Hempty|Hempty]; [done |].
  destruct (OSCWatcher.isExecutionMessage (TrimSpace lib line)) eqn:Hex.
  - lazy beta iota zeta. split; [done |]. split; [|done]. intros _ _. split; [done |].
    eexists. split; [done |]. cbn. split_and!; try done.
    by destruct (Strings.Contains (TrimSpace lib line) "/error").
  - destruct (OSCWatcher.isBPMMessage (TrimSpace lib line)) eqn:Hbpm;
      lazy beta iota zeta; (split; [done |]); (split; [done |]); intros _ _.
    + split; [done |]. split; [|done]. unfold OSCWatcher.updateBPM.
      repeat case_match; by destruct w.
    + split; [done |]. split; [by destruct w | done].
Qed.

Lemma process_line_execution_first_witness :
  OSCWatcher.isBPMMessage "/run-code use_bpm 140" = true /\
  OSCWatcher.currentBPM
    (OSCWatcher.updateBPM lib_tempo "/run-code use_bpm 140" osc_running) = 140%float /\
  let '(w', emitted) :=
    OSCWatcher.process_line lib_tempo 1000 1000 osc_running "/run-code use_bpm 140" in
  w' = osc_running /\
  exists event,
    emitted = [(WatcherService.handler, event)] /\
    ExecutionEvent.Success event = true /\
    ExecutionEvent.BPM event = 120%float.
Proof.
  split; [reflexivity |]. split; [reflexivity |].
  pose proof (process_line_execution_first lib_tempo 1000 1000 osc_running
                "/run-code use_bpm 140") as H.
  cbn zeta in H.
  destruct (OSCWatcher.process_line lib_tempo 1000 1000 osc_running
              "/run-code use_bpm 140") as [w' emitted].
  destruct H as (_ & Hexec & _).
  destruct Hexec as (Hw & event & Hev & Hok & _ & Hbpm & _); [done | reflexivity |].
  split; [exact Hw |]. exists event. split_and!; [exact Hev | exact Hok | exact Hbpm].
Defined.

(** ** The commit index *)

Module IndexFacts.

Lemma loop_spec all start n acc :
  (n <= length all)%nat -> 0 <= start ->
  Index.GetOrderedCommits_loop all start n acc
  = acc ++ reverse (drop (Z.to_nat start) (take n all)).
Proof.
  revert acc. induction n as [|i IH]; intros acc Hn Hs.
  - cbn [Index.GetOrderedCommits_loop]. rewrite take_0, drop_nil.
    by rewrite app_nil_r.
  - cbn [Index.GetOrderedCommits_loop].
    destruct (lookup_lt_is_Some_2 all i) as [entry Hentry]; [lia|].
    rewrite Hentry, (take_S_r _ _ _ Hentry).
    destruct (Z.leb_spec start (Z.of_nat i)).
    + rewrite IH by lia. rewrite drop_app_le by (rewrite length_take; lia).
      rewrite reverse_app. cbn. by rewrite <- app_assoc.
    + rewrite drop_ge by (rewrite length_app, length_take; cbn; lia).
      by rewrite app_nil_r.
Qed.

Lemma GetOrderedCommits_start start (idx : Index.t) :
  0 <= start ->
  Index.GetOrderedCommits_loop (Index.Entries idx) start
    (length (Index.Entries idx)) []
  = take (length (Index.Entries idx) - Z.to_nat start) (reverse (Index.Entries idx)).
Proof.
  intros Hs. rewrite loop_spec by (done || lia).
  rewrite firstn_all. cbn. apply reverse_drop.
Qed.

Lemma GetEntry_range_app entries entry hash :
  Index.GetEntry_range (entries ++ [entry]) hash
  = match Index.GetEntry_range entries hash with
    | Some found => Some found
    | None => if String.eqb (IndexEntry.Hash entry) hash then Some entry else None
    end.
Proof.
  induction entries as [|x entries IH]; cbn; [done|].
  by destruct (String.eqb (IndexEntry.Hash x) hash).
Qed.

Lemma GetOrderedCommits_spec (limit : Z) (idx : Index.t) :
  Z.of_nat (length (Index.Entries idx)) < 2 ^ 63 ->
  int64_range limit ->
  Index.GetOrderedCommits limit idx =
    if 0 <=? limit then take (Z.to_nat limit) (reverse (Index.Entries idx))
    else if Z.of_nat (length (Index.Entries idx)) - limit <? 2 ^ 63 then []
    else reverse (Index.Entries idx).
Proof.
  intros Hlen [Hlo Hhi]. unfold Index.GetOrderedCommits.
  set (n := length (Index.Entries idx)) in *.
  destruct (Z.leb_spec 0 limit) as [Hpos|Hneg].
  - assert (int64_wrap (Z.of_nat n - limit) = Z.of_nat n - limit) as ->.
    { unfold int64_wrap. rewrite Z.mod_small; lia. }
    destruct (Z.ltb_spec (Z.of_nat n - limit) 0).
    + rewrite GetOrderedCommits_start by lia. fold n.
      rewrite !take_ge; first done.
      all: rewrite length_reverse; fold n; lia.
    + rewrite GetOrderedCommits_start by lia. fold n.
      f_equal. lia.
  - destruct (Z.ltb_spec (Z.of_nat n - limit) (2 ^ 63)).
    + assert (int64_wrap (Z.of_nat n - limit) = Z.of_nat n - limit) as ->.
      { unfold int64_wrap. rewrite Z.mod_small; lia. }
      destruct (Z.ltb_spec (Z.of_nat n - limit) 0); first lia.
      rewrite GetOrderedCommits_start by lia. fold n.
      replace (n - Z.to_nat (Z.of_nat n - limit))%nat with 0%nat by lia. done.
    + assert (int64_wrap (Z.of_nat n - limit) = Z.of_nat n - limit - 2 ^ 64) as ->.
      { unfold int64_wrap.
        replace (Z.of_nat n - limit + 2 ^ 63)
          with ((Z.of_nat n - limit - 2 ^ 63) + 1 * 2 ^ 64) by lia.
        rewrite Z.mod_add by lia. rewrite Z.mod_small; lia. }
      destruct (Z.ltb_spec (Z.of_nat n - limit - 2 ^ 64) 0); last lia.
      rewrite GetOrderedCommits_start by lia. fold n.
      rewrite take_ge; first done. rewrite length_reverse. fold n. lia.
Qed.

Lemma AddEntry_entries {E : Type} (st : Store E) (hash message parent : string)
    (timestamp : Time) (idx : Index.t) (e : E) :
  let idx' := (Index.AddEntry st hash message parent timestamp idx e).1.1 in
  Index.Entries idx'
  = Index.Entries idx ++ [IndexEntry.mk hash timestamp message parent] /\
  Index.GetHead idx' = hash.
Proof.
  unfold Index.AddEntry, Index.GetHead, Index.set_Entries. cbn [Index.Entries].
  destruct (SaveIndex st _ e) as [r e']. cbn [fst Index.Entries].
  by rewrite last_snoc.
Qed.

End IndexFacts.

(** X25. [GetOrderedCommits] gives the latest entries first: for a limit
    from 0 up, the last [limit] entries of the index in reverse order,
    and all of them when there are fewer. A negative limit gives no
    entry, unless the subtraction [len - limit] overflows: then it gives
    all. *)
Theorem GetOrderedCommits_latest_first (limit : Z) (idx : Index.t) :
  Z.of_nat (length (Index.Entries idx)) < 2 ^ 63 ->
  int64_range limit ->
  Index.GetOrderedCommits limit idx =
    if 0 <=? limit then take (Z.to_nat limit) (reverse (Index.Entries idx))
    else if Z.of_nat (length (Index.Entries idx)) - limit <? 2 ^ 63 then []
    else reverse (Index.Entries idx).
Proof. apply IndexFacts.GetOrderedCommits_spec. Qed.

Lemma GetOrderedCommits_latest_first_witness :
  Index.GetOrderedCommits 1 index_ab = [Index.entry_of commit_b].
Proof.
  apply (GetOrderedCommits_latest_first 1 index_ab).
  - by vm_compute.
  - unfold int64_range. lia.
Defined.

(** X26. After [AddEntry] the new entry is at the end of the index and
    its hash is the head, whether or not saving the index succeeded; the
    error returned is the one of [SaveIndex]. [GetEntry] still finds the
    entries it found before, so a hash already in the index keeps naming
    its older entry; the new hash, if it was not in the index, names the
    new entry. *)
Theorem AddEntry_GetHead {E : Type} (st : Store E) (hash message parent : string)
    (timestamp : Time) (idx : Index.t) (e : E) :
  let entry := IndexEntry.mk hash timestamp message parent in
  let idx' := (Index.AddEntry st hash message parent timestamp idx e).1.1 in
  Index.Entries idx' = Index.Entries idx ++ [entry] /\
  Index.GetHead idx' = hash /\
  (forall h, Index.GetEntry h idx' =
             match Index.GetEntry h idx with
             | Some found => Some found
             | None => if String.eqb hash h then Some entry else None
             end) /\
  ((Index.AddEntry st hash message parent timestamp idx e).2,
   (Index.AddEntry st hash message parent timestamp idx e).1.2)
  = SaveIndex st (Index.Entries idx') e.
Proof.
  intros entry idx'. subst idx'. unfold Index.AddEntry. fold entry.
  cbn [Index.set_Entries Index.Entries].
  destruct (SaveIndex st (Index.Entries idx ++ [entry]) e) as [r e'] eqn:Hsave.
  cbn [fst snd Index.Entries]. split_and!; try done.
  - unfold Index.GetHead, Index.set_Entries. cbn [Index.Entries].
    by rewrite last_snoc.
  - intros h. unfold Index.GetEntry, Index.set_Entries. cbn [Index.Entries].
    apply IndexFacts.GetEntry_range_app.
Qed.

(** ** The sorting loops of [RebuildIndex] *)

Module SortFacts.

Lemma exchange_length i j es : length (Index.exchange i j es) = length es.
Proof.
  unfold Index.exchange.
  destruct (es !! i), (es !! j); try done.
  case_match; [|done]. by rewrite !length_insert.
Qed.

Lemma exchange_perm i j es : Index.exchange i j es ≡ₚ es.
Proof.
  unfold Index.exchange.
  destruct (es !! i) as [ei|] eqn:Hi, (es !! j) as [ej|] eqn:Hj; try done.
  case_match; [|done]. by apply Permutation_insert_swap.
Qed.

Lemma lookup_swap (es : list IndexEntry.t) i j ei ej x :
  es !! i = Some ei -> es !! j = Some ej -> i <> j ->
  <[i := ej]> (<[j := ei]> es) !! x
  = if decide (x = i) then Some ej
    else if decide (x = j) then Some ei else es !! x.
Proof.
  intros Hi Hj Hne.
  pose proof (lookup_lt_Some _ _ _ Hi). pose proof (lookup_lt_Some _ _ _ Hj).
  destruct (decide (x = i)) as [->|].
  - apply list_lookup_insert_eq. by rewrite length_insert.
  - rewrite list_lookup_insert_ne by done.
    destruct (decide (x = j)) as [->|].
    + by apply list_lookup_insert_eq.
    + by rewrite list_lookup_insert_ne.
Qed.

Lemma exchange_step i j es :
  (i < j < length es)%nat -> Index.settled i es -> Index.least i j es ->
  Index.settled i (Index.exchange i j es) /\ Index.least i (S j) (Index.exchange i j es).
Proof.
  intros [Hij Hj] Hset Hleast.
  destruct (lookup_lt_is_Some_2 es i) as [ei Hei]; [lia|].
  destruct (lookup_lt_is_Some_2 es j) as [ej Hej]; [lia|].
  unfold Index.exchange. rewrite Hei, Hej. unfold After.
  destruct (Z.ltb_spec (IndexEntry.Timestamp ej) (IndexEntry.Timestamp ei)) as [Hlt|Hge].
  - split.
    + intros a b ea eb Ha Hab.
      rewrite !(lookup_swap es i j ei ej) by (done || lia).
      rewrite !decide_False by lia. intros Hea.
      repeat case_decide; subst; intros [= <-] || intros Heb.
      * by apply (Hset a j ea ej); try lia.
      * by apply (Hset a i ea ei); try lia.
      * by apply (Hset a b ea eb).
    + intros b ei' eb Hb.
      rewrite !(lookup_swap es i j ei ej) by (done || lia).
      rewrite decide_True by done. intros [= <-].
      rewrite decide_False by lia.
      case_decide; subst; intros [= <-] || intros Heb; [lia|].
      pose proof (Hleast b ei eb ltac:(lia) Hei Heb). lia.
  - split; [done|].
    intros b ei' eb Hb Hi' Heb.
    pose proof (eq_trans (eq_sym Hi') Hei) as [= ->].
    destruct (decide (b = j)) as [->|].
    + pose proof (eq_trans (eq_sym Heb) Hej) as [= ->]. lia.
    + apply (Hleast b ei eb); [lia|done..].
Qed.

Lemma inner_from i k : forall j es,
  (i < j)%nat -> (j + k = length es)%nat -> Index.settled i es -> Index.least i j es ->
  let es' := fold_left (fun es j => Index.exchange i j es) (seq j k) es in
  length es' = length es /\ es' ≡ₚ es /\ Index.settled i es' /\ Index.least i (length es) es'.
Proof.
  induction k as [|k IH]; intros j es Hij Hn Hset Hleast; cbn.
  - replace (length es) with j by lia. done.
  - destruct (exchange_step i j es) as [Hset' Hleast']; [lia|done|done|].
    pose proof (exchange_length i j es) as Hlen.
    destruct (IH (S j) (Index.exchange i j es)) as (H1 & H2 & H3 & H4);
      [lia|lia|done..|].
    rewrite Hlen in H1, H4. split_and!; try done.
    by rewrite H2, exchange_perm.
Qed.

Lemma sort_inner_spec i es :
  (i < length es)%nat -> Index.settled i es ->
  let es' := Index.sort_inner (length es) i es in
  length es' = length es /\ es' ≡ₚ es /\ Index.settled (S i) es'.
Proof.
  intros Hi Hset. unfold Index.sort_inner.
  destruct (inner_from i (length es - S i) (S i) es) as (H1 & H2 & H3 & H4);
    [lia|lia|done| |].
  { intros b ? ? ?. lia. }
  cbn zeta. split_and!; try done.
  intros a b ea eb Ha Hab Hea Heb.
  destruct (decide (a = i)) as [->|].
  - apply (H4 b ea eb); [|done..].
    pose proof (lookup_lt_Some _ _ _ Heb). lia.
  - apply (H3 a b ea eb); [lia|done..].
Qed.

Lemma outer_from n k : forall i es,
  length es = n -> (i + k = n - 1)%nat -> Index.settled i es ->
  let es' := fold_left (fun es i => Index.sort_inner n i es) (seq i k) es in
  length es' = n /\ es' ≡ₚ es /\ Index.settled (n - 1) es'.
Proof.
  induction k as [|k IH]; intros i es Hn Hik Hset; cbn.
  - replace (n - 1)%nat with i by lia. done.
  - subst n. destruct (sort_inner_spec i es) as (H1 & H2 & H3); [lia|done|].
    destruct (IH (S i) (Index.sort_inner (length es) i es)) as (H4 & H5 & H6);
      [done|lia|done|].
    split_and!; try done. by rewrite H5.
Qed.

Lemma sort_entries_spec es :
  Index.sort_entries es ≡ₚ es /\ Index.chronological (Index.sort_entries es).
Proof.
  unfold Index.sort_entries.
  destruct (outer_from (length es) (length es - 1) 0 es) as (H1 & H2 & H3);
    [done|lia| |].
  { intros a b ? ? ?. lia. }
  split; [done|].
  intros i j ei ej Hij Hi Hj. apply (H3 i j ei ej); [|done..].
  pose proof (lookup_lt_Some _ _ _ Hj) as Hlt. rewrite H1 in Hlt. lia.
Qed.

End SortFacts.

(** X27. When listing and reading the commits succeed, [RebuildIndex]
    leaves in the index the entries of the commits read, each once, in
    chronological order: no entry comes before an earlier one. It then
    saves that index and returns the error of saving. *)
Theorem RebuildIndex_chronological {E : Type} (st : Store E) (idx : Index.t) (e : E)
    (hashes : list string) (e1 : E) (entries : list IndexEntry.t) (e2 : E) :
  ListCommits st (Index.repoPath idx) e = (hashes, None, e1) ->
  Index.RebuildIndex_read st hashes [] e1 = (entries, e2, None) ->
  exists sorted,
    sorted ≡ₚ entries /\ Index.chronological sorted /\
    Index.RebuildIndex st idx e
    = (Index.set_Entries sorted idx, (SaveIndex st sorted e2).2,
       (SaveIndex st sorted e2).1).
Proof.
  intros Hlist Hread. exists (Index.sort_entries entries).
  destruct (SortFacts.sort_entries_spec entries) as [Hperm Hchron].
  split_and!; try done.
  unfold Index.RebuildIndex. rewrite Hlist, Hread.
  unfold Index.set_Entries. cbn [Index.Entries].
  by destruct (SaveIndex st (Index.sort_entries entries) e2).
Qed.

Lemma RebuildIndex_chronological_witness :
  exists sorted,
    sorted ≡ₚ [Index.entry_of commit_b; Index.entry_of commit_a] /\
    Index.chronological sorted /\
    Index.RebuildIndex disk0 (Index.NewIndex "/repo") tt
    = (Index.set_Entries sorted (Index.NewIndex "/repo"),
       (SaveIndex disk0 sorted tt).2, (SaveIndex disk0 sorted tt).1).
Proof.
  apply (RebuildIndex_chronological disk0 (Index.NewIndex "/repo") tt
           ["b7e204"; "a3f1c9"] tt);
    reflexivity.
Defined.

(** ** The repository *)

Module RepositoryFacts.

Lemma chained_snoc parent entries entry :
  Repository.chained parent entries ->
  IndexEntry.Parent entry
  = match last entries with
    | Some latest => IndexEntry.Hash latest
    | None => parent
    end ->
  Repository.chained parent (entries ++ [entry]).
Proof.
  revert parent. induction entries as [|x entries IH]; intros parent.
  - cbn. by intros _ ->.
  - cbn [Repository.chained app]. intros [Hx Hrest] Hparent. split; [done|].
    apply IH; [done|]. rewrite Hparent, last_cons.
    by destruct (last entries).
Qed.

(** What the loop of [Log] gives: it panics only on an entry whose hash
    has fewer than two bytes, and the commits it returns are those the
    store reads for the entries, in their order. *)
Lemma Log_range_spec {E : Type} (st : Store E) entries : forall acc e,
  match Repository.Log_range st entries acc e with
  | None =>
      exists entry, entry ∈ entries /\
                    (String.length (IndexEntry.Hash entry) < 2)%nat
  | Some (Ok commits, e') =>
      Forall (fun entry => (2 <= String.length (IndexEntry.Hash entry))%nat) entries /\
      exists new, commits = acc ++ new /\
        Forall2 (fun entry commit => exists e1 e2,
                   ReadCommit st (IndexEntry.Hash entry) e1 = (Ok commit, e2))
                entries new
  | Some (Err _, _) => True
  end.
Proof.
  induction entries as [|entry entries IH]; intros acc e;
    cbn [Repository.Log_range].
  - split; [constructor |]. exists []. by rewrite app_nil_r.
  - unfold Storage.ReadCommit.
    destruct (Nat.ltb_spec (String.length (IndexEntry.Hash entry)) 2) as [Hshort|Hlong].
    { exists entry. split; [left | done]. }
    destruct (ReadCommit st (IndexEntry.Hash entry) e) as [[commit|err] e1] eqn:Hread;
      [|done].
    specialize (IH (acc ++ [commit]) e1).
    destruct (Repository.Log_range st entries (acc ++ [commit]) e1)
      as [[[commits|err] e2]|].
    + destruct IH as (Hall & new & -> & Hreads). split; [by constructor |].
      exists (commit :: new). rewrite <- app_assoc. split; [done |].
      constructor; [|done]. by exists e, e1.
    + done.
    + destruct IH as (short & Hin & Hshort). exists short. split; [by right | done].
Qed.

End RepositoryFacts.

(** X28. On a repository with its storage and a loaded index, [Commit]
    does not panic and keeps the history a chain: each entry of the index
    names the one before it as its parent, the first none. A commit it
    returns carries the given content, message and metadata, has the old
    head as its parent, and is the new last entry and head. When it
    returns an error the index holds what it held, or one entry more. *)
Theorem Commit_chains {E : Type} (st : Store E) (content message : string)
    (metadata : ExecutionMetadata.t) (repo : Repository.t) (e : E) (idx : Index.t) :
  Repository.index repo = Some idx ->
  is_Some (Repository.storage repo) ->
  Repository.chained "" (Index.Entries idx) ->
  match Repository.Commit st content message metadata repo e with
  | Repository.Panic => False
  | Repository.Return repo' e' r =>
      exists idx', Repository.index repo' = Some idx' /\
        Repository.chained "" (Index.Entries idx') /\
        match r with
        | Ok commit =>
            Index.Entries idx' = Index.Entries idx ++ [Index.entry_of commit] /\
            StoredCommit.Parent commit = Index.GetHead idx /\
            Index.GetHead idx' = StoredCommit.Hash commit /\
            StoredCommit.Content commit = content /\
            StoredCommit.Message commit = message /\
            StoredCommit.Metadata commit = metadata
        | Err _ =>
            Index.Entries idx' = Index.Entries idx \/
            exists entry, Index.Entries idx' = Index.Entries idx ++ [entry]
        end
  end.
Proof.
  intros Hidx [repoPath Hstorage] Hchain. unfold Repository.Commit.
  destruct (Repository.IsInitialized st repo e) as [[] e0]; cbn [negb];
    [|exists idx; split_and!; [done..|by left]].
  unfold Repository.load_index. rewrite Hidx.
  destruct (NowString st e0) as [now e1].
  destruct (Now st e1) as [timestamp e2].
  rewrite Hstorage.
  set (hash := GenerateHash st (content +:+ message +:+ now)).
  set (commit := StoredCommit.mk hash (Index.GetHead idx) timestamp message
                   "livecoder" content metadata).
  destruct (WriteCommit st commit e2) as [[err|] e3];
    [exists idx; split_and!; [done..|by left]|].
  pose proof (AddEntry_spec := IndexFacts.AddEntry_entries st hash message
                                 (Index.GetHead idx) timestamp idx e3).
  destruct (Index.AddEntry st hash message (Index.GetHead idx) timestamp idx e3)
    as [[idx' e4] r].
  cbn [fst] in AddEntry_spec. destruct AddEntry_spec as [Hentries Hhead].
  assert (Repository.chained "" (Index.Entries idx')) as Hchain'.
  { rewrite Hentries. by apply RepositoryFacts.chained_snoc. }
  assert (forall r0 : option Performance.t,
            Repository.index
              (Repository.set_currentPerformance r0
                 (Repository.set_index (Some idx') repo)) = Some idx') as Hset by done.
  destruct r as [err|];
    [exists idx'; split_and!; [done..|right; by eexists]|].
  destruct (WriteHead st hash e4) as [[err|] e5];
    [exists idx'; split_and!; [done..|right; by eexists]|].
  cbn [Repository.currentPerformance Repository.set_index].
  destruct (Repository.currentPerformance repo) as [p|].
  - match goal with |- context [WritePerformance st ?p' e5] =>
      destruct (WritePerformance st p' e5) as [[err|] e6] end.
    + exists idx'. split_and!; [done..|right; by eexists].
    + exists idx'. by split_and!.
  - exists idx'. by split_and!.
Qed.

Lemma Commit_chains_witness :
  match Repository.Commit disk0 "play 80" "third"
          (ExecutionMetadata.mk "main" "sonicpi" 0%float 0 true "" "sonic-pi")
          repo_ab tt with
  | Repository.Panic => False
  | Repository.Return repo' _ _ =>
      exists idx', Repository.index repo' = Some idx' /\
                   Repository.chained "" (Index.Entries idx')
  end.
Proof.
  pose proof (Commit_chains disk0 "play 80" "third"
                (ExecutionMetadata.mk "main" "sonicpi" 0%float 0 true "" "sonic-pi")
                repo_ab tt index_ab eq_refl) as H.
  destruct (Repository.Commit disk0 "play 80" "third" _ repo_ab tt)
    as [|repo' e' r].
  - apply H; [by eexists | by cbn].
  - destruct H as (idx' & Hidx & Hchain & _); [by eexists | by cbn |].
    by exists idx'.
Defined.

(** X29. On a repository with its storage and a loaded index, [Log]
    leaves the repository as it was. It panics only in [ReadCommit], on
    an entry to be shown whose hash has fewer than two bytes, and it does
    panic when the directory is there and the latest entry has such a
    hash. The commits it returns are those read for the latest entries
    of the index, latest first: as many as the limit allows, 50 for a
    limit of 0 or less. *)
Theorem Log_latest_first {E : Type} (st : Store E) (limit : Z)
    (repo : Repository.t) (e : E) (idx : Index.t) :
  Repository.index repo = Some idx ->
  is_Some (Repository.storage repo) ->
  Z.of_nat (length (Index.Entries idx)) < 2 ^ 63 ->
  int64_range limit ->
  let shown := take (Z.to_nat (if limit <=? 0 then 50 else limit))
                    (reverse (Index.Entries idx)) in
  match Repository.Log st limit repo e with
  | Repository.Panic =>
      exists entry, entry ∈ shown /\
                    (String.length (IndexEntry.Hash entry) < 2)%nat
  | Repository.Return repo' e' r =>
      repo' = repo /\
      match r with
      | Ok commits =>
          Forall (fun entry => (2 <= String.length (IndexEntry.Hash entry))%nat) shown /\
          Forall2 (fun entry commit => exists e1 e2,
                     ReadCommit st (IndexEntry.Hash entry) e1 = (Ok commit, e2))
            shown commits
      | Err _ => True
      end
  end /\
  (forall entry,
     (RepoDirExists st (Repository.path repo) e).1 = true ->
     head shown = Some entry ->
     (String.length (IndexEntry.Hash entry) < 2)%nat ->
     Repository.Log st limit repo e = Repository.Panic).
Proof.
  intros Hidx [repoPath Hstorage] Hlen Hlimit. cbn zeta. unfold Repository.Log.
  set (limit' := if limit <=? 0 then 50 else limit).
  assert (Index.GetOrderedCommits limit' idx
          = take (Z.to_nat limit') (reverse (Index.Entries idx))) as Hshown.
  { rewrite IndexFacts.GetOrderedCommits_spec; [|done|].
    - subst limit'. destruct (Z.leb_spec limit 0); [done|].
      destruct (Z.leb_spec 0 limit); [done|lia].
    - subst limit'. unfold int64_range in *. destruct (Z.leb_spec limit 0); lia. }
  unfold Repository.IsInitialized.
  destruct (RepoDirExists st (Repository.path repo) e) as [initialized e0].
  unfold Repository.load_index. rewrite Hidx, Hstorage, Hshown.
  set (shown := take (Z.to_nat limit') (reverse (Index.Entries idx))).
  destruct initialized; cbn [negb fst].
  - pose proof (RepositoryFacts.Log_range_spec st shown [] e0) as Hspec. split.
    + destruct (Repository.Log_range st shown [] e0) as [[[commits|err] e1]|].
      * destruct Hspec as (Hall & new & -> & Hreads). by destruct shown.
      * by destruct shown.
      * by destruct shown.
    + intros entry _ Hhead Hshort.
      destruct shown as [|first rest]; [done |]. injection Hhead as ->.
      cbn [Repository.Log_range]. unfold Storage.ReadCommit.
      by destruct (Nat.ltb_spec (String.length (IndexEntry.Hash entry)) 2); [|lia].
  - split; [done |]. by intros entry [=].
Qed.

Lemma Log_latest_first_witness :
  Forall2 (fun entry commit => exists e1 e2,
             ReadCommit disk0 (IndexEntry.Hash entry) e1 = (Ok commit, e2))
    [Index.entry_of commit_b; Index.entry_of commit_a] [commit_b; commit_a] /\
  Repository.Log disk0 0
    (Repository.mk "/repo" (Some "/repo")
       (Some (Index.mk [IndexEntry.mk "a" 100 "first" ""] "/repo")) None) tt
  = Repository.Panic.
Proof.
  split.
  - destruct (Log_latest_first disk0 0 repo_ab tt index_ab eq_refl) as [Hlog _];
      [by eexists | by vm_compute | unfold int64_range; lia |].
    change (Repository.Log disk0 0 repo_ab tt)
      with (Repository.Return repo_ab tt (Ok [commit_b; commit_a])) in Hlog.
    exact (proj2 (proj2 Hlog)).
  - destruct (Log_latest_first disk0 0
                (Repository.mk "/repo" (Some "/repo")
                   (Some (Index.mk [IndexEntry.mk "a" 100 "first" ""] "/repo")) None)
                tt (Index.mk [IndexEntry.mk "a" 100 "first" ""] "/repo") eq_refl)
      as [_ Hpanic]; [by eexists | by vm_compute | unfold int64_range; lia |].
    apply (Hpanic (IndexEntry.mk "a" 100 "first" "")); [reflexivity | reflexivity |].
    cbn. lia.
Defined.

(** ** The buffer name of a file *)

Module BufferFacts.
Import Filepath.

Lemma list_of_append (s t : string) :
  list_ascii_of_string (s +:+ t) = list_ascii_of_string s ++ list_ascii_of_string t.
Proof.
  induction s as [|a s IH]; [done|].
  rewrite StringFacts.app_cons. cbn. by rewrite IH.
Qed.

Lemma substring_append (s t : string) :
  String.substring 0 (String.length s) (s +:+ t) = s.
Proof.
  induction s as [|a s IH]; [by destruct t|].
  rewrite StringFacts.app_cons. cbn. by rewrite IH.
Qed.

(** What [ext_rev] returns, when it is not empty, starts at a dot of
    the path and runs to its end. *)
Lemma ext_rev_split r : forall acc,
  ext_rev r acc <> [] ->
  exists r1 r2, r = r1 ++ dot :: r2 /\ ext_rev r acc = dot :: rev r1 ++ acc.
Proof.
  induction r as [|c r IH]; intros acc; cbn; [done|].
  destruct (Ascii.eqb c slash); [done|].
  destruct (Ascii.eqb_spec c dot) as [->|Hc].
  - intros _. by exists [], r.
  - intros (r1 & r2 & -> & ->)%IH. exists (c :: r1), r2. split; [done|].
    cbn. by rewrite <- app_assoc.
Qed.

Lemma Ext_suffix (path : string) :
  Ext path <> "" -> exists pre, path = pre +:+ Ext path.
Proof.
  unfold Ext. intros Hext.
  destruct (ext_rev_split (rev (list_ascii_of_string path)) []) as (r1 & r2 & Hr & Hs).
  { intros Hnil. by rewrite Hnil in Hext. }
  rewrite Hs, app_nil_r. exists (string_of_list_ascii (rev r2)).
  rewrite <- (string_of_list_ascii_of_string path) at 1.
  rewrite <- (rev_involutive (list_ascii_of_string path)), Hr.
  rewrite rev_app_distr. cbn [rev]. rewrite <- app_assoc. cbn [app].
  rewrite <- (list_ascii_of_string_of_list_ascii (dot :: rev r1)).
  rewrite <- (list_ascii_of_string_of_list_ascii (rev r2)) at 1.
  rewrite <- list_of_append.
  by rewrite string_of_list_ascii_of_string, list_ascii_of_string_of_list_ascii.
Qed.

Lemma all_digits_last (s : string) :
  s <> "" -> Regexp.all_digits s = true ->
  exists l d, list_ascii_of_string s = l ++ [d] /\ Regexp.is_digit d = true.
Proof.
  induction s as [|c s IH]; [done|]. intros _. cbn.
  intros [Hc Hs]%andb_true_iff.
  destruct s as [|c' s'].
  - by exists [], c.
  - destruct IH as (l & d & Hl & Hd); [done|done|].
    exists (c :: l), d. by rewrite Hl.
Qed.

Lemma numbered_last (prefix : string) : forall name,
  numbered prefix name = true ->
  exists l d, list_ascii_of_string name = l ++ [d] /\ Regexp.is_digit d = true.
Proof.
  induction prefix as [|a p IH]; intros [|b n]; cbn; try done.
  - intros Hn. by apply (all_digits_last (String b n)).
  - intros [_ (l & d & Hl & Hd)%IH]%andb_true_iff.
    exists (b :: l), d. by rewrite Hl.
Qed.

Lemma numbered_not_rb (prefix name : string) :
  numbered prefix name = true -> Ext name <> ".rb".
Proof.
  intros (l & d & Hl & Hd)%numbered_last Hext.
  destruct (Ext_suffix name) as [pre Hpre]; [by rewrite Hext|].
  rewrite Hext in Hpre. rewrite Hpre, list_of_append in Hl.
  change (list_ascii_of_string ".rb")
    with ([dot; "r"%char] ++ ["b"%char]) in Hl.
  rewrite app_assoc in Hl. apply app_inj_tail in Hl as [_ <-]. done.
Qed.

End BufferFacts.

(** X30. [extractBufferName] takes the extension off a name whose
    extension is [.rb], so that putting [.rb] back gives the name again,
    and returns every other name as it is. The names [workspace_N] and
    [buffer_N] have no such extension and are among those returned as
    they are. *)
Theorem extractBufferName_extension (fileName : string) :
  (Filepath.Ext fileName = ".rb" ->
     FileWatcher.extractBufferName fileName +:+ ".rb" = fileName) /\
  (Filepath.Ext fileName <> ".rb" ->
     FileWatcher.extractBufferName fileName = fileName).
Proof.
  unfold FileWatcher.extractBufferName. split.
  - intros Hext.
    destruct (Filepath.numbered "workspace_" fileName) eqn:Hw;
      [by apply BufferFacts.numbered_not_rb in Hw|].
    destruct (Filepath.numbered "buffer_" fileName) eqn:Hb;
      [by apply BufferFacts.numbered_not_rb in Hb|].
    rewrite Hext. cbn [String.eqb Ascii.eqb Bool.eqb].
    destruct (BufferFacts.Ext_suffix fileName) as [pre Hpre]; [by rewrite Hext|].
    rewrite Hext in Hpre. rewrite Hpre at 1 2.
    rewrite ServiceFacts2.length_append. cbn [String.length].
    replace (String.length pre + 3 - 3)%nat with (String.length pre) by lia.
    by rewrite BufferFacts.substring_append.
  - intros Hext. repeat case_match; try done.
    by match goal with H : String.eqb _ _ = true |- _ => apply String.eqb_eq in H end.
Qed.

Lemma extractBufferName_extension_witness :
  FileWatcher.extractBufferName "drums.rb" +:+ ".rb" = "drums.rb".
Proof.
  destruct (extractBufferName_extension "drums.rb") as [Hrb _].
  apply Hrb. reflexivity.
Defined.
